(** * The Data Warehouse Go client, embedded in Rocq

    The client package wraps HTTP calls to the Data Warehouse service:
    [New] builds a [Client]; [get] and [post] build a request, set two
    headers, send it, read the body and check the status code; every
    resource operation formats an endpoint, calls [get] or [post] and
    unmarshals the JSON body into a typed envelope.

    Go values are embedded as follows.
    - [string] and [[]byte] are byte sequences: Rocq's [string].
    - [int] is [Z] (the operations never compute with it, they only print
      and parse it).
    - A pointer result [*T] is [option T], [None] being [nil]; a slice
      [[]T] is [option (list T)], [None] being the nil slice and
      [Some []] the empty, non-nil one.
    - [error] is the inductive [error] below, [nil] being [None]; a Go
      result pair [(T, error)] is a Rocq pair.
    - [http.Header] is a finite map from canonical keys to value lists.
    - Code that talks to the network runs in the state monad [IO] over a
      [World]: what the network answers, and the log of requests sent. *)

From stdpp Require Import gmap strings list pretty.
From Stdlib Require Import ZArith Ascii String.
#[local] Open Scope Z_scope.

(** ** fmt.Sprintf, for the verbs the package uses *)

Inductive operand : Type :=
| Str (s : string)
| Int (n : Z).

Definition type_name (a : operand) : string :=
  match a with Str _ => "string" | Int _ => "int" end.

Definition print_v (a : operand) : string :=
  match a with Str s => s | Int n => pretty n end.

(** [%!verb(type=value)], what fmt prints for an operand of the wrong type. *)
Definition bad_verb (v : ascii) (a : operand) : string :=
  "%!" +:+ String v ("(" +:+ type_name a +:+ "=" +:+ print_v a +:+ ")").

Definition format_verb (v : ascii) (a : operand) : string :=
  match v, a with
  | "s"%char, Str s => s
  | "d"%char, Int n => pretty n
  | "v"%char, _ => print_v a
  | _, _ => bad_verb v a
  end.

Fixpoint extra_operands (args : list operand) : string :=
  match args with
  | [] => ""
  | [a] => type_name a +:+ "=" +:+ print_v a
  | a :: rest => type_name a +:+ "=" +:+ print_v a +:+ ", " +:+ extra_operands rest
  end.

Definition extra (args : list operand) : string :=
  match args with
  | [] => ""
  | _ => "%!(EXTRA " +:+ extra_operands args +:+ ")"
  end.

(** Flags, widths and the other verbs of package fmt are not used by the
    client and are not modelled. *)
Fixpoint Sprintf (format : string) (args : list operand) : string :=
  match format with
  | EmptyString => extra args
  | String "%" EmptyString => "%!(NOVERB)" +:+ extra args
  | String "%" (String "%" rest) => String "%" (Sprintf rest args)
  | String "%" (String v rest) =>
      match args with
      | [] => "%!" +:+ String v "(MISSING)" +:+ Sprintf rest []
      | a :: args' => format_verb v a +:+ Sprintf rest args'
      end
  | String c rest => String c (Sprintf rest args)
  end.

(** ** Errors *)

(** The dynamic types an [error] of this program can have.  [errorString]
    is what [errors.New] and a [fmt.Errorf] without [%w] return;
    [wrapError prefix err] is what [fmt.Errorf] returns for a format made
    of [prefix] and [%w]: it keeps [err] reachable through [Unwrap].  The other constructors are the
    errors the standard library hands to the client. *)
Inductive error : Type :=
| errorString (s : string)
| wrapError (prefix : string) (err : error)
| url_Error (text : string)           (* http.NewRequest, Client.Do *)
| io_Error (text : string)            (* io.ReadAll *)
| json_MarshalError (text : string)   (* json.Marshal *)
| json_SyntaxError                    (* json.Unmarshal: malformed text *)
| json_UnmarshalTypeError (Value : string)
                                      (* json.Unmarshal: value of the wrong type *)
| time_ParseError.                    (* Time.UnmarshalJSON *)

Definition fmt_Errorf (format : string) (args : list operand) : error :=
  errorString (Sprintf format args).

(** [fmt.Errorf] with a format that ends in [%w], the one way the package
    uses that verb: the error is kept, under the text before the verb. *)
Fixpoint before_w (format : string) : string :=
  match format with
  | String "%" (String "w" EmptyString) => EmptyString
  | String c rest => String c (before_w rest)
  | EmptyString => EmptyString
  end.

Definition fmt_Errorf_w (format : string) (err : error) : error :=
  wrapError (before_w format) err.

Definition errors_New (text : string) : error := errorString text.

Fixpoint Unwrap_all (e : error) : error :=
  match e with
  | wrapError _ err => Unwrap_all err
  | _ => e
  end.

(** The text of an error, Go's [Error()].  The wording encoding/json and
    time give to their own errors is not modelled: [describe] supplies it. *)
Fixpoint Error (describe : error -> string) (e : error) : string :=
  match e with
  | errorString s => s
  | wrapError prefix err => prefix +:+ Error describe err
  | url_Error text | io_Error text | json_MarshalError text => text
  | _ => describe e
  end.

(** The five kinds of failure the specification names.  The code has no
    error types of its own; the kind is read off the innermost error. *)
Inductive ErrorKind : Type :=
| InvalidConfiguration
| TransportError
| UnexpectedStatus
| SerializationError
| DeserializationError.

Definition status_prefix : string := "unexpected status code: ".

Fixpoint has_prefix (prefix s : string) : bool :=
  match prefix, s with
  | EmptyString, _ => true
  | String a prefix', String b s' => Ascii.eqb a b && has_prefix prefix' s'
  | _, _ => false
  end.

Definition kind_of (e : error) : ErrorKind :=
  match Unwrap_all e with
  | errorString s =>
      if has_prefix status_prefix s then UnexpectedStatus
      else InvalidConfiguration
  | url_Error _ | io_Error _ => TransportError
  | json_MarshalError _ => SerializationError
  | _ => DeserializationError
  end.

(** ** net/http *)

Record Request : Type := {
  Method : string;
  URL : string;
  Header : gmap string (list string);
  Body : option string
}.

(** The body of a response is a stream: the bytes that arrive and, when
    the connection breaks before the end, the failure. *)
Record ReadCloser : Type := {
  data : string;
  failure : option string
}.

Record Response : Type := {
  StatusCode : Z;
  ResponseBody : ReadCloser
}.

Definition http_StatusOK : Z := 200.
Definition http_MethodGet : string := "GET".
Definition http_MethodPost : string := "POST".

(** What the client cannot decide: whether net/url accepts a URL, and what
    comes back for a request, given the requests sent before. *)
Record World : Type := {
  url_Parse : string -> option string;
  RoundTrip : list Request -> Request -> Response + string;
  sent : list Request
}.

Definition IO (A : Type) : Type := World -> A * World.

#[global] Instance IO_ret : MRet IO := fun A a w => (a, w).
#[global] Instance IO_bind : MBind IO :=
  fun A B f m w => let '(a, w') := m w in f a w'.

(** The zero-valued [http.Client]: default transport, no timeout. *)
Inductive http_Client : Type := http_Client_zero.

(** [http.NewRequest]: fails when the URL does not parse, otherwise a
    request with an empty header.  The two method constants are valid. *)
Definition http_NewRequest (method url : string) (body : option string)
  : IO (Request + error) :=
  fun w =>
    match url_Parse w url with
    | Some text => (inr (url_Error text), w)
    | None =>
        (inl {| Method := method; URL := url; Header := ∅; Body := body |}, w)
    end.

Definition validHeaderFieldByte (c : ascii) : bool :=
  let n := nat_of_ascii c in
  ((48 <=? n) && (n <=? 57) || (65 <=? n) && (n <=? 90)
   || (97 <=? n) && (n <=? 122))%nat
  || bool_decide (c ∈ ["!"; "#"; "$"; "%"; "&"; "'"; "*"; "+"; "-"; ".";
                       "^"; "_"; "`"; "|"; "~"]%char).

Definition is_lower (c : ascii) : bool :=
  ((97 <=? nat_of_ascii c) && (nat_of_ascii c <=? 122))%nat.
Definition is_upper (c : ascii) : bool :=
  ((65 <=? nat_of_ascii c) && (nat_of_ascii c <=? 90))%nat.
Definition to_upper (c : ascii) : ascii :=
  if is_lower c then ascii_of_nat (nat_of_ascii c - 32) else c.
Definition to_lower (c : ascii) : ascii :=
  if is_upper c then ascii_of_nat (nat_of_ascii c + 32) else c.

Fixpoint forallb_string (p : ascii -> bool) (s : string) : bool :=
  match s with
  | EmptyString => true
  | String c rest => p c && forallb_string p rest
  end.

Fixpoint canonical_from (upper : bool) (s : string) : string :=
  match s with
  | EmptyString => EmptyString
  | String c rest =>
      String (if upper then to_upper c else to_lower c)
             (canonical_from (bool_decide (c = "-"%char)) rest)
  end.

(** [textproto.CanonicalMIMEHeaderKey]. *)
Definition CanonicalMIMEHeaderKey (key : string) : string :=
  if forallb_string validHeaderFieldByte key then canonical_from true key
  else key.

(** [req.Header.Set(key, value)]. *)
Definition Header_Set (key value : string) (req : Request) : Request :=
  {| Method := Method req; URL := URL req;
     Header := <[CanonicalMIMEHeaderKey key := [value]]> (Header req);
     Body := Body req |}.

(** [Client.Do]: the request goes out (and is logged) and the world
    answers with a response or a failure.  One call is one exchange: what
    the client does inside a call, following a redirect for one, belongs
    to the answer of the world, so that [sent] holds the requests handed
    to [Do]. *)
Definition Do (_ : http_Client) (req : Request) : IO (Response + error) :=
  fun w =>
    let w' := {| url_Parse := url_Parse w; RoundTrip := RoundTrip w;
                 sent := sent w ++ [req] |} in
    match RoundTrip w (sent w) req with
    | inl res => (inl res, w')
    | inr text => (inr (url_Error text), w')
    end.

Definition io_ReadAll (r : ReadCloser) : string * option error :=
  match failure r with
  | None => (data r, None)
  | Some text => (data r, Some (io_Error text))
  end.

(** ** client.go *)

Record Client : Type := {
  url : string;
  client : http_Client;
  apiKey : string
}.

Definition New (url apiKey : string) : IO (option Client * option error) :=
  if bool_decide (url = "") then
    mret (None, Some (errors_New "url is empty"))
  else if bool_decide (apiKey = "") then
    mret (None, Some (errors_New "apiKey is empty"))
  else
    mret (Some {| url := url; apiKey := apiKey; client := http_Client_zero |},
          None).

(** [res.Body.Close()], deferred in both functions, has no effect the
    model sees. *)
Definition get (c : Client) (endpoint : string)
  : IO (option string * option error) :=
  let url := Sprintf "%s%s" [Str (url c); Str endpoint] in
  req ← http_NewRequest http_MethodGet url None;
  match req with
  | inr err => mret (None, Some err)
  | inl req =>
      let req := Header_Set "Content-Type" "application/json" req in
      let req := Header_Set "Authorization"
                            (Sprintf "Bearer %s" [Str (apiKey c)]) req in
      res ← Do (client c) req;
      match res with
      | inr err => mret (None, Some err)
      | inl res =>
          let '(body, err) := io_ReadAll (ResponseBody res) in
          match err with
          | Some err => mret (None, Some err)
          | None =>
              if bool_decide (StatusCode res ≠ http_StatusOK) then
                mret (None,
                      Some (fmt_Errorf "unexpected status code: %d, body: %s"
                                       [Int (StatusCode res); Str body]))
              else mret (Some body, None)
          end
      end
  end.

(** [json.Marshal] for the payload types [post] is given: the encoding,
    or the text of the error. *)
Class Marshaler (A : Type) : Type :=
  json_Marshal : A -> string + string.

Definition post `{Marshaler A} (c : Client) (endpoint : string) (payload : A)
  : IO (option string * option error) :=
  match json_Marshal payload with
  | inr text =>
      mret (None,
            Some (fmt_Errorf_w "error marshalling data to JSON: %w"
                               (json_MarshalError text)))
  | inl jsonData =>
      let url := Sprintf "%s%s" [Str (url c); Str endpoint] in
      req ← http_NewRequest http_MethodPost url (Some jsonData);
      match req with
      | inr err =>
          mret (None, Some (fmt_Errorf_w "error creating request: %w" err))
      | inl req =>
          let req := Header_Set "Content-Type" "application/json" req in
          let req := Header_Set "Authorization"
                                (Sprintf "Bearer %s" [Str (apiKey c)]) req in
          res ← Do (client c) req;
          match res with
          | inr err =>
              mret (None, Some (fmt_Errorf_w "error sending request: %w" err))
          | inl res =>
              let '(body, err) := io_ReadAll (ResponseBody res) in
              match err with
              | Some err =>
                  mret (None,
                        Some (fmt_Errorf_w "error reading response body: %w" err))
              | None =>
                  if bool_decide (StatusCode res ≠ http_StatusOK) then
                    mret (None,
                          Some (fmt_Errorf
                                  "unexpected status code: %d, body: %s"
                                  [Int (StatusCode res); Str body]))
                  else mret (Some body, None)
              end
          end
      end
  end.

(** ** encoding/json: the syntax of JSON texts

    [json.Unmarshal] first checks the whole text with its scanner, a state
    machine that reads one byte at a time and keeps a stack of the open
    arrays and objects.  The model has the same two layers: [lex_step]
    reads a byte, [parse_step] a token.  Strings and numbers are kept as
    they are written; [unquote] and [ParseInt] read them later, as the
    decoder does. *)

#[local] Unset Elimination Schemes.
Inductive json : Type :=
| JNull
| JBool (b : bool)
| JNumber (literal : string)
| JString (raw : string)
| JArray (elements : list json)
| JObject (members : list (string * json)).
#[local] Set Elimination Schemes.

Inductive token : Type :=
| TLBrace | TRBrace | TLBracket | TRBracket | TColon | TComma
| TString (raw : string)
| TNumber (literal : string)
| TTrue | TFalse | TNull.

Inductive num_state : Type :=
| NumNeg | NumZero | NumInt | NumDot | NumFrac | NumE | NumESign | NumExp.

Inductive lex_state : Type :=
| LexIdle
| LexString (acc : list ascii)
| LexEscape (acc : list ascii)
| LexUnicode (acc : list ascii) (missing : nat)
| LexNumber (acc : list ascii) (st : num_state)
| LexWord (tok : token) (expect : string).

Definition byte (c : ascii) : Z := Z.of_N (N_of_ascii c).

(** The double quote. *)
Definition quote : ascii := "034"%char.
Definition chr (n : Z) : ascii := ascii_of_N (Z.to_N n).

Definition is_space (c : ascii) : bool :=
  bool_decide (c ∈ [" "; "009"; "013"; "010"]%char).
Definition is_digit (c : ascii) : bool := (48 <=? byte c) && (byte c <=? 57).
Definition is_digit19 (c : ascii) : bool := (49 <=? byte c) && (byte c <=? 57).
Definition is_hex (c : ascii) : bool :=
  is_digit c || (97 <=? byte c) && (byte c <=? 102)
  || (65 <=? byte c) && (byte c <=? 70).
Definition is_exp (c : ascii) : bool := bool_decide (c ∈ ["e"; "E"]%char).

(** The accumulators hold the bytes read so far, last one first. *)
Definition finish (acc : list ascii) : string :=
  string_of_list_ascii (rev acc).

Definition num_step (st : num_state) (c : ascii) : option num_state :=
  match st with
  | NumNeg =>
      if bool_decide (c = "0"%char) then Some NumZero
      else if is_digit19 c then Some NumInt else None
  | NumZero =>
      if bool_decide (c = "."%char) then Some NumDot
      else if is_exp c then Some NumE else None
  | NumInt =>
      if is_digit c then Some NumInt
      else if bool_decide (c = "."%char) then Some NumDot
      else if is_exp c then Some NumE else None
  | NumDot => if is_digit c then Some NumFrac else None
  | NumFrac =>
      if is_digit c then Some NumFrac
      else if is_exp c then Some NumE else None
  | NumE =>
      if bool_decide (c ∈ ["+"; "-"]%char) then Some NumESign
      else if is_digit c then Some NumExp else None
  | NumESign | NumExp => if is_digit c then Some NumExp else None
  end.

Definition num_done (st : num_state) : bool :=
  match st with
  | NumZero | NumInt | NumFrac | NumExp => true
  | _ => false
  end.

(** A byte read between two tokens. *)
Definition lex_idle (c : ascii) : option (lex_state * list token) :=
  if is_space c then Some (LexIdle, [])
  else if bool_decide (c = "{"%char) then Some (LexIdle, [TLBrace])
  else if bool_decide (c = "}"%char) then Some (LexIdle, [TRBrace])
  else if bool_decide (c = "["%char) then Some (LexIdle, [TLBracket])
  else if bool_decide (c = "]"%char) then Some (LexIdle, [TRBracket])
  else if bool_decide (c = ":"%char) then Some (LexIdle, [TColon])
  else if bool_decide (c = ","%char) then Some (LexIdle, [TComma])
  else if bool_decide (c = quote) then Some (LexString [], [])
  else if bool_decide (c = "-"%char) then Some (LexNumber [c] NumNeg, [])
  else if bool_decide (c = "0"%char) then Some (LexNumber [c] NumZero, [])
  else if is_digit19 c then Some (LexNumber [c] NumInt, [])
  else if bool_decide (c = "t"%char) then Some (LexWord TTrue "rue", [])
  else if bool_decide (c = "f"%char) then Some (LexWord TFalse "alse", [])
  else if bool_decide (c = "n"%char) then Some (LexWord TNull "ull", [])
  else None.

Definition lex_step (st : lex_state) (c : ascii)
  : option (lex_state * list token) :=
  match st with
  | LexIdle => lex_idle c
  | LexString acc =>
      if bool_decide (c = quote) then Some (LexIdle, [TString (finish acc)])
      else if bool_decide (c = "\"%char) then Some (LexEscape (c :: acc), [])
      else if byte c <? 32 then None
      else Some (LexString (c :: acc), [])
  | LexEscape acc =>
      if bool_decide (c ∈ ["b"; "f"; "n"; "r"; "t"; "\"; "/"; quote]%char)
      then Some (LexString (c :: acc), [])
      else if bool_decide (c = "u"%char) then Some (LexUnicode (c :: acc) 4, [])
      else None
  | LexUnicode acc missing =>
      if is_hex c then
        match missing with
        | 0%nat | 1%nat => Some (LexString (c :: acc), [])
        | S n => Some (LexUnicode (c :: acc) n, [])
        end
      else None
  | LexNumber acc st =>
      match num_step st c with
      | Some st' => Some (LexNumber (c :: acc) st', [])
      | None =>
          if num_done st then
            '(st', toks) ← lex_idle c;
            Some (st', TNumber (finish acc) :: toks)
          else None
      end
  | LexWord tok expect =>
      match expect with
      | String e rest =>
          if bool_decide (c = e) then
            match rest with
            | EmptyString => Some (LexIdle, [tok])
            | _ => Some (LexWord tok rest, [])
            end
          else None
      | EmptyString => None
      end
  end.

Definition lex_end (st : lex_state) : option (list token) :=
  match st with
  | LexIdle => Some []
  | LexNumber acc st => if num_done st then Some [TNumber (finish acc)] else None
  | _ => None
  end.

Fixpoint lex (st : lex_state) (text : string) : option (list token) :=
  match text with
  | EmptyString => lex_end st
  | String c rest =>
      '(st', toks) ← lex_step st c;
      toks' ← lex st' rest;
      Some (toks ++ toks')
  end.

(** The open containers, innermost first, each with what it holds so far
    (last one first); [FMember] is an object whose next value belongs to
    [key]. *)
Inductive frame : Type :=
| FArray (elements : list json)
| FObject (members : list (string * json))
| FMember (members : list (string * json)) (key : string).

Inductive parse_state : Type :=
| PValue (first : bool) (stack : list frame)
| PKey (first : bool) (stack : list frame)
| PColon (stack : list frame)
| PNext (stack : list frame)
| PEnd (v : json).

Definition maxNestingDepth : Z := 10000.

Definition deliver (v : json) (stack : list frame) : option parse_state :=
  match stack with
  | [] => Some (PEnd v)
  | FArray elements :: outer => Some (PNext (FArray (v :: elements) :: outer))
  | FMember members key :: outer =>
      Some (PNext (FObject ((key, v) :: members) :: outer))
  | FObject _ :: _ => None
  end.

Definition open (f : frame) (stack : list frame) : option (list frame) :=
  if Z.of_nat (List.length (f :: stack)) <=? maxNestingDepth then
    Some (f :: stack)
  else None.

Definition parse_step (st : parse_state) (tok : token) : option parse_state :=
  match st with
  | PValue first stack =>
      match tok with
      | TString raw => deliver (JString raw) stack
      | TNumber literal => deliver (JNumber literal) stack
      | TTrue => deliver (JBool true) stack
      | TFalse => deliver (JBool false) stack
      | TNull => deliver JNull stack
      | TLBracket => PValue true <$> open (FArray []) stack
      | TLBrace => PKey true <$> open (FObject []) stack
      | TRBracket =>
          match first, stack with
          | true, FArray [] :: outer => deliver (JArray []) outer
          | _, _ => None
          end
      | _ => None
      end
  | PKey first stack =>
      match tok, stack with
      | TString key, FObject members :: outer =>
          Some (PColon (FMember members key :: outer))
      | TRBrace, FObject [] :: outer =>
          if first then deliver (JObject []) outer else None
      | _, _ => None
      end
  | PColon stack =>
      match tok with
      | TColon => Some (PValue false stack)
      | _ => None
      end
  | PNext stack =>
      match stack, tok with
      | FArray elements :: outer, TComma => Some (PValue false stack)
      | FArray elements :: outer, TRBracket =>
          deliver (JArray (rev elements)) outer
      | FObject members :: outer, TComma => Some (PKey false stack)
      | FObject members :: outer, TRBrace =>
          deliver (JObject (rev members)) outer
      | _, _ => None
      end
  | PEnd _ => None
  end.

Fixpoint parse_tokens (st : parse_state) (toks : list token) : option json :=
  match toks with
  | [] => match st with PEnd v => Some v | _ => None end
  | tok :: rest => st' ← parse_step st tok; parse_tokens st' rest
  end.

(** The value a JSON text denotes; [None] when the scanner rejects it. *)
Definition parse_json (text : string) : option json :=
  toks ← lex LexIdle text; parse_tokens (PValue false []) toks.

(** ** unicode/utf8 and the strings of JSON *)

Definition RuneError : Z := 0xFFFD.

Definition between (lo hi b : Z) : bool := (lo <=? b) && (b <=? hi).

(** For a first byte: how long the sequence is and the range its second
    byte must lie in. *)
Definition first_byte (b : Z) : option (nat * Z * Z) :=
  if between 0xC2 0xDF b then Some (2%nat, 0x80, 0xBF)
  else if b =? 0xE0 then Some (3%nat, 0xA0, 0xBF)
  else if between 0xE1 0xEC b then Some (3%nat, 0x80, 0xBF)
  else if b =? 0xED then Some (3%nat, 0x80, 0x9F)
  else if between 0xEE 0xEF b then Some (3%nat, 0x80, 0xBF)
  else if b =? 0xF0 then Some (4%nat, 0x90, 0xBF)
  else if between 0xF1 0xF3 b then Some (4%nat, 0x80, 0xBF)
  else if b =? 0xF4 then Some (4%nat, 0x80, 0x8F)
  else None.

Definition tail_bits (c : ascii) : Z := Z.land (byte c) 0x3F.
Definition is_tail (c : ascii) : bool := between 0x80 0xBF (byte c).

(** [utf8.DecodeRune]: the first rune of [s] and its width; a malformed
    sequence is [RuneError] of width 1. *)
Definition DecodeRune (s : string) : Z * nat :=
  match s with
  | EmptyString => (RuneError, 0%nat)
  | String c0 rest =>
      let b0 := byte c0 in
      if b0 <? 0x80 then (b0, 1%nat)
      else
        match first_byte b0, rest with
        | Some (2%nat, lo, hi), String c1 _ =>
            if between lo hi (byte c1) then
              (Z.lor (Z.shiftl (Z.land b0 0x1F) 6) (tail_bits c1), 2%nat)
            else (RuneError, 1%nat)
        | Some (3%nat, lo, hi), String c1 (String c2 _) =>
            if between lo hi (byte c1) && is_tail c2 then
              (Z.lor (Z.shiftl (Z.land b0 0x0F) 12)
                     (Z.lor (Z.shiftl (tail_bits c1) 6) (tail_bits c2)), 3%nat)
            else (RuneError, 1%nat)
        | Some (4%nat, lo, hi), String c1 (String c2 (String c3 _)) =>
            if between lo hi (byte c1) && is_tail c2 && is_tail c3 then
              (Z.lor (Z.shiftl (Z.land b0 0x07) 18)
                     (Z.lor (Z.shiftl (tail_bits c1) 12)
                            (Z.lor (Z.shiftl (tail_bits c2) 6) (tail_bits c3))),
               4%nat)
            else (RuneError, 1%nat)
        | _, _ => (RuneError, 1%nat)
        end
  end.

Definition tail_byte (r : Z) (shift : Z) : ascii :=
  chr (Z.lor 0x80 (Z.land (Z.shiftr r shift) 0x3F)).

Definition encode3 (r : Z) : string :=
  String (chr (Z.lor 0xE0 (Z.shiftr r 12)))
         (String (tail_byte r 6) (String (tail_byte r 0) EmptyString)).

(** [utf8.EncodeRune]. *)
Definition EncodeRune (r : Z) : string :=
  if between 0 0x7F r then String (chr r) EmptyString
  else if between 0x80 0x7FF r then
    String (chr (Z.lor 0xC0 (Z.shiftr r 6)))
           (String (tail_byte r 0) EmptyString)
  else if between 0xD800 0xDFFF r then encode3 RuneError
  else if between 0x800 0xFFFF r then encode3 r
  else if between 0x10000 0x10FFFF r then
    String (chr (Z.lor 0xF0 (Z.shiftr r 18)))
           (String (tail_byte r 12)
                   (String (tail_byte r 6) (String (tail_byte r 0) EmptyString)))
  else encode3 RuneError.

Definition hex_value (c : ascii) : Z :=
  if is_digit c then byte c - 48
  else if between 97 102 (byte c) then byte c - 87
  else byte c - 55.

(** [getu4]: the code unit of a [\uXXXX] at the start of [s]. *)
Definition getu4 (s : string) : option Z :=
  match s with
  | String c0 (String c1 (String h1 (String h2 (String h3 (String h4 _))))) =>
      if bool_decide (c0 = "\"%char) && bool_decide (c1 = "u"%char)
         && is_hex h1 && is_hex h2 && is_hex h3 && is_hex h4 then
        Some (((hex_value h1 * 16 + hex_value h2) * 16 + hex_value h3) * 16
              + hex_value h4)
      else None
  | _ => None
  end.

Definition utf16_IsSurrogate (r : Z) : bool := (0xD800 <=? r) && (r <? 0xE000).

Definition utf16_DecodeRune (r1 r2 : Z) : Z :=
  if (0xD800 <=? r1) && (r1 <? 0xDC00) && (0xDC00 <=? r2) && (r2 <? 0xE000)
  then Z.lor (Z.shiftl (r1 - 0xD800) 10) (r2 - 0xDC00) + 0x10000
  else RuneError.

Definition escaped_byte (e : ascii) : ascii :=
  if bool_decide (e = "b"%char) then "008"%char
  else if bool_decide (e = "f"%char) then "012"%char
  else if bool_decide (e = "n"%char) then "010"%char
  else if bool_decide (e = "r"%char) then "013"%char
  else if bool_decide (e = "t"%char) then "009"%char
  else e.

Fixpoint drop_string (n : nat) (s : string) : string :=
  match n, s with
  | S n', String _ rest => drop_string n' rest
  | _, _ => s
  end.

(** [unquoteBytes] on the text between the quotes: escapes are replaced,
    [\u] pairs of surrogates joined, and every malformed UTF-8 sequence
    becomes U+FFFD.  [skip] counts the bytes that belong to what was just
    read.  [None] is where Go's function gives up: at a raw quote or
    control byte and at an unknown or unfinished escape. *)
Fixpoint unquoteBytes_from (skip : nat) (s : string) : option string :=
  match s with
  | EmptyString => Some EmptyString
  | String c rest =>
      match skip with
      | S n => unquoteBytes_from n rest
      | O =>
          if bool_decide (c = "\"%char) then
            match rest with
            | EmptyString => None
            | String e _ =>
                if bool_decide (e = "u"%char) then
                  match getu4 s with
                  | None => None
                  | Some rr =>
                      if utf16_IsSurrogate rr then
                        let dec :=
                          match getu4 (drop_string 6 s) with
                          | Some rr1 => utf16_DecodeRune rr rr1
                          | None => RuneError
                          end in
                        if bool_decide (dec ≠ RuneError) then
                          append (EncodeRune dec) <$> unquoteBytes_from 11 rest
                        else
                          append (EncodeRune RuneError)
                          <$> unquoteBytes_from 5 rest
                      else append (EncodeRune rr) <$> unquoteBytes_from 5 rest
                  end
                else if bool_decide (e ∈ [quote; "\"; "/"; "'"; "b"; "f"; "n";
                                          "r"; "t"]%char)
                then String (escaped_byte e) <$> unquoteBytes_from 1 rest
                else None
            end
          else if bool_decide (c = quote) || (byte c <? 0x20) then None
          else if byte c <? 0x80 then String c <$> unquoteBytes_from 0 rest
          else
            let '(rr, size) := DecodeRune s in
            append (EncodeRune rr) <$> unquoteBytes_from (size - 1) rest
      end
  end.

Definition unquoteBytes (raw : string) : option string :=
  unquoteBytes_from 0 raw.

(** The decoder panics when [unquoteBytes] gives up.  It never does: the
    scanner has read the text before (see [scanned_strings_unquote]).
    So the decoders below take the string without a check. *)
Definition unquote (raw : string) : string := default "" (unquoteBytes raw).

(** [foldRune] on the runes that matter here: the long s and the Kelvin
    sign are the only runes outside ASCII that fold to an ASCII letter.
    Every other rune outside ASCII folds to a rune outside ASCII, and the
    field names of this package are ASCII, so it is left as it is. *)
Definition foldRune (r : Z) : Z :=
  if r =? 0x17F then 0x53 else if r =? 0x212A then 0x4B else r.

Fixpoint foldName_from (skip : nat) (s : string) : string :=
  match s with
  | EmptyString => EmptyString
  | String c rest =>
      match skip with
      | S n => foldName_from n rest
      | O =>
          if byte c <? 0x80 then String (to_upper c) (foldName_from 0 rest)
          else
            let '(r, size) := DecodeRune s in
            EncodeRune (foldRune r) +:+ foldName_from (size - 1) rest
      end
  end.

Definition foldName (name : string) : string := foldName_from 0 name.

(** ** strconv.ParseInt(s, 10, 64) *)

Fixpoint digits_value (acc : Z) (s : string) : option Z :=
  match s with
  | EmptyString => Some acc
  | String c rest =>
      if is_digit c then digits_value (acc * 10 + (byte c - 48)) rest else None
  end.

Definition ParseInt (s : string) : option Z :=
  let '(negative, digits) :=
    match s with
    | String "-" rest => (true, rest)
    | String "+" rest => (false, rest)
    | _ => (false, s)
    end in
  match digits with
  | EmptyString => None
  | _ =>
      n ← digits_value 0 digits;
      let v := if negative : bool then - n else n in
      if (- 2 ^ 63 <=? v) && (v <? 2 ^ 63) then Some v else None
  end.

(** ** encoding/json: decoding into Go values

    The decoder updates the value it is given in place.  A value of the
    wrong type does not stop it: the first such error is saved, the value
    is skipped, and the saved error is returned at the end.  An error of a
    type's own [UnmarshalJSON] stops it at once.  [Continue v saved] is the
    first case, [Abort err] the second. *)

Inductive decoding (A : Type) : Type :=
| Abort (err : error)
| Continue (v : A) (saved : option error).
Arguments Abort {A} err.
Arguments Continue {A} v saved.

Definition first_error (saved later : option error) : option error :=
  match saved with Some _ => saved | None => later end.

#[global] Instance decoding_ret : MRet decoding := fun A v => Continue v None.
#[global] Instance decoding_bind : MBind decoding :=
  fun A B f m =>
    match m with
    | Abort err => Abort err
    | Continue v saved =>
        match f v with
        | Abort err => Abort err
        | Continue v' later => Continue v' (first_error saved later)
        end
    end.

(** The [Value] field of an [UnmarshalTypeError]. *)
Definition value_name (j : json) : string :=
  match j with
  | JNull => "null"
  | JBool _ => "bool"
  | JNumber _ => "number"
  | JString _ => "string"
  | JArray _ => "array"
  | JObject _ => "object"
  end.

Definition mismatch {A} (j : json) (v : A) : decoding A :=
  Continue v (Some (json_UnmarshalTypeError (value_name j))).

(** What reflection does in Go, type classes do here: [decode j v] is
    [d.value] at a target of type [T] holding [v], and [zero] the zero
    value of [T]. *)
Class Decoder (T : Type) : Type := decode : json -> T -> decoding T.
Class Zero (T : Type) : Type := zero : T.

#[global] Instance string_Zero : Zero string := EmptyString.
#[global] Instance int_Zero : Zero Z := 0.
#[global] Instance pointer_Zero {T} : Zero (option T) := None.

#[global] Instance string_Decoder : Decoder string := fun j v =>
  match j with
  | JNull => Continue v None
  | JString raw => Continue (unquote raw) None
  | _ => mismatch j v
  end.

(** An [int] has 64 bits. *)
#[global] Instance int_Decoder : Decoder Z := fun j v =>
  match j with
  | JNull => Continue v None
  | JNumber literal =>
      match ParseInt literal with
      | Some n => Continue n None
      | None =>
          Continue v (Some (json_UnmarshalTypeError ("number " +:+ literal)))
      end
  | _ => mismatch j v
  end.

(** A [time.Time]: seconds since the Unix epoch, nanoseconds within the
    second, and the offset of its zone in seconds east of UTC. *)
Record Time : Type := {
  unix : Z;
  nanosecond : Z;
  offset : Z
}.

(** The zero [Time] is January 1 of year 1, 00:00:00 UTC. *)
#[global] Instance Time_Zero : Zero Time :=
  {| unix := -62135596800; nanosecond := 0; offset := 0 |}.

(** What package time accepts as an RFC 3339 timestamp is left open. *)
Class TimeParser : Type := parseStrictRFC3339 : string -> option Time.

(** [Time.UnmarshalJSON]: [null] is ignored, a string is parsed as it is
    written (its escapes are not read), anything else is an error. *)
#[global] Instance Time_Decoder `{TimeParser} : Decoder Time := fun j v =>
  match j with
  | JNull => Continue v None
  | JString raw =>
      match parseStrictRFC3339 raw with
      | Some t => Continue t None
      | None => Abort time_ParseError
      end
  | _ => Abort time_ParseError
  end.

(** A pointer: [null] makes it nil; anything else is decoded into what it
    points to, allocated first when the pointer is nil. *)
#[global] Instance pointer_Decoder `{Decoder T} `{Zero T} : Decoder (option T) :=
  fun j v =>
    match j with
    | JNull => Continue None None
    | _ => x ← decode j (default zero v); mret (Some x)
    end.

(** The elements of an array are decoded into the elements the slice
    already has, then into zero values.  What an earlier, longer decoding
    of the same key left in the spare capacity of the slice is not
    modelled. *)
Fixpoint decode_elements `{Decoder T} `{Zero T}
    (elements : list json) (old : list T) : decoding (list T) :=
  match elements with
  | [] => mret []
  | j :: rest =>
      x ← decode j (default zero (head old));
      xs ← decode_elements rest (tail old);
      mret (x :: xs)
  end.

(** A slice: [null] makes it nil, an array gives a slice that is not nil
    even when it is empty. *)
#[global] Instance slice_Decoder `{Decoder T} `{Zero T}
  : Decoder (option (list T)) :=
  fun j v =>
    match j with
    | JNull => Continue None None
    | JArray elements =>
        xs ← decode_elements elements (default [] v); mret (Some xs)
    | _ => mismatch j v
    end.

(** A struct is described by its fields: the name in the [json] tag and
    how a value is decoded into the field. *)
Definition field_table (T : Type) : Type :=
  list (string * (json -> T -> decoding T)).

Definition field {T F} `{Decoder F} (get : T -> F) (set : F -> T -> T)
  : json -> T -> decoding T :=
  fun j v => x ← decode j (get v); mret (set x v).

(** An object key selects the field of that name, or else the first field
    whose name is the same up to case. *)
Definition find_field {T} (fields : field_table T) (key : string)
  : option (json -> T -> decoding T) :=
  match list_find (fun f => f.1 = key) fields with
  | Some (_, f) => Some f.2
  | None =>
      snd <$> (snd <$> list_find (fun f => foldName f.1 = foldName key) fields)
  end.

Fixpoint decode_members {T} (fields : field_table T)
    (members : list (string * json)) (v : T) : decoding T :=
  match members with
  | [] => mret v
  | (key, j) :: rest =>
      v' ← match find_field fields (unquote key) with
           | Some f => f j v
           | None => mret v
           end;
      decode_members fields rest v'
  end.

Definition decode_struct {T} (fields : field_table T) : Decoder T :=
  fun j v =>
    match j with
    | JNull => Continue v None
    | JObject members => decode_members fields members v
    | _ => mismatch j v
    end.

(** [json.Unmarshal(data, &v)].  When it fails Go leaves [v] partly
    updated; every caller in this package drops [v] then, and so does the
    model. *)
Definition json_Unmarshal `{Decoder T} (data : string) (v : T) : T + error :=
  match parse_json data with
  | None => inr json_SyntaxError
  | Some j =>
      match decode j v with
      | Abort err => inr err
      | Continue _ (Some err) => inr err
      | Continue v' None => inl v'
      end
  end.

(** ** models.go *)

Record Podcast : Type := {
  Podcast_ID : string;
  Podcast_Title : string;
  Podcast_Description : string;
  Podcast_URL : string;
  Podcast_Tags : option (list string);
  Podcast_CreatedAt : Time;
  Podcast_UpdatedAt : Time
}.

Record Article : Type := {
  Article_ID : string;
  Article_Title : string;
  Article_Description : string;
  Article_URL : string;
  Article_Tags : option (list string);
  Article_CreatedAt : Time;
  Article_UpdatedAt : Time
}.

Record CreatePodcastRequest : Type := {
  CreatePodcastRequest_Title : string;
  CreatePodcastRequest_Description : string;
  CreatePodcastRequest_URL : string;
  CreatePodcastRequest_Tags : option (list string)
}.

Record CreateArticleRequest : Type := {
  CreateArticleRequest_Title : string;
  CreateArticleRequest_Description : string;
  CreateArticleRequest_URL : string;
  CreateArticleRequest_Tags : option (list string)
}.

Record PodcastResponse : Type := { PodcastResponse_Podcast : option Podcast }.
Record ArticleResponse : Type := { ArticleResponse_Article : option Article }.
Record PodcastsResponse : Type :=
  { PodcastsResponse_Podcasts : option (list Podcast) }.
Record ArticlesResponse : Type :=
  { ArticlesResponse_Articles : option (list Article) }.

Record PaginatedPodcastsResponse : Type := {
  PaginatedPodcastsResponse_Podcasts : option (list Podcast);
  PaginatedPodcastsResponse_Total : Z;
  PaginatedPodcastsResponse_Page : Z;
  PaginatedPodcastsResponse_Limit : Z
}.

Record PaginatedArticlesResponse : Type := {
  PaginatedArticlesResponse_Articles : option (list Article);
  PaginatedArticlesResponse_Total : Z;
  PaginatedArticlesResponse_Page : Z;
  PaginatedArticlesResponse_Limit : Z
}.

Record HealthResponse : Type := {
  HealthResponse_Status : string;
  HealthResponse_Database : string;
  HealthResponse_Timestamp : Time
}.

#[global] Instance Podcast_Zero : Zero Podcast :=
  {| Podcast_ID := zero; Podcast_Title := zero; Podcast_Description := zero;
     Podcast_URL := zero; Podcast_Tags := zero; Podcast_CreatedAt := zero;
     Podcast_UpdatedAt := zero |}.
#[global] Instance Article_Zero : Zero Article :=
  {| Article_ID := zero; Article_Title := zero; Article_Description := zero;
     Article_URL := zero; Article_Tags := zero; Article_CreatedAt := zero;
     Article_UpdatedAt := zero |}.
#[global] Instance PodcastResponse_Zero : Zero PodcastResponse :=
  {| PodcastResponse_Podcast := zero |}.
#[global] Instance ArticleResponse_Zero : Zero ArticleResponse :=
  {| ArticleResponse_Article := zero |}.
#[global] Instance PodcastsResponse_Zero : Zero PodcastsResponse :=
  {| PodcastsResponse_Podcasts := zero |}.
#[global] Instance ArticlesResponse_Zero : Zero ArticlesResponse :=
  {| ArticlesResponse_Articles := zero |}.
#[global] Instance PaginatedPodcastsResponse_Zero
  : Zero PaginatedPodcastsResponse :=
  {| PaginatedPodcastsResponse_Podcasts := zero;
     PaginatedPodcastsResponse_Total := zero;
     PaginatedPodcastsResponse_Page := zero;
     PaginatedPodcastsResponse_Limit := zero |}.
#[global] Instance PaginatedArticlesResponse_Zero
  : Zero PaginatedArticlesResponse :=
  {| PaginatedArticlesResponse_Articles := zero;
     PaginatedArticlesResponse_Total := zero;
     PaginatedArticlesResponse_Page := zero;
     PaginatedArticlesResponse_Limit := zero |}.
#[global] Instance HealthResponse_Zero : Zero HealthResponse :=
  {| HealthResponse_Status := zero; HealthResponse_Database := zero;
     HealthResponse_Timestamp := zero |}.

(** The [json] tags of the structs, as field tables. *)
Section FieldTables.
Context `{TimeParser}.

Definition Podcast_fields : field_table Podcast := [
  ("id", field Podcast_ID (fun x p =>
     {| Podcast_ID := x; Podcast_Title := Podcast_Title p;
        Podcast_Description := Podcast_Description p;
        Podcast_URL := Podcast_URL p; Podcast_Tags := Podcast_Tags p;
        Podcast_CreatedAt := Podcast_CreatedAt p;
        Podcast_UpdatedAt := Podcast_UpdatedAt p |}));
  ("title", field Podcast_Title (fun x p =>
     {| Podcast_ID := Podcast_ID p; Podcast_Title := x;
        Podcast_Description := Podcast_Description p;
        Podcast_URL := Podcast_URL p; Podcast_Tags := Podcast_Tags p;
        Podcast_CreatedAt := Podcast_CreatedAt p;
        Podcast_UpdatedAt := Podcast_UpdatedAt p |}));
  ("description", field Podcast_Description (fun x p =>
     {| Podcast_ID := Podcast_ID p; Podcast_Title := Podcast_Title p;
        Podcast_Description := x;
        Podcast_URL := Podcast_URL p; Podcast_Tags := Podcast_Tags p;
        Podcast_CreatedAt := Podcast_CreatedAt p;
        Podcast_UpdatedAt := Podcast_UpdatedAt p |}));
  ("url", field Podcast_URL (fun x p =>
     {| Podcast_ID := Podcast_ID p; Podcast_Title := Podcast_Title p;
        Podcast_Description := Podcast_Description p;
        Podcast_URL := x; Podcast_Tags := Podcast_Tags p;
        Podcast_CreatedAt := Podcast_CreatedAt p;
        Podcast_UpdatedAt := Podcast_UpdatedAt p |}));
  ("tags", field Podcast_Tags (fun x p =>
     {| Podcast_ID := Podcast_ID p; Podcast_Title := Podcast_Title p;
        Podcast_Description := Podcast_Description p;
        Podcast_URL := Podcast_URL p; Podcast_Tags := x;
        Podcast_CreatedAt := Podcast_CreatedAt p;
        Podcast_UpdatedAt := Podcast_UpdatedAt p |}));
  ("created_at", field Podcast_CreatedAt (fun x p =>
     {| Podcast_ID := Podcast_ID p; Podcast_Title := Podcast_Title p;
        Podcast_Description := Podcast_Description p;
        Podcast_URL := Podcast_URL p; Podcast_Tags := Podcast_Tags p;
        Podcast_CreatedAt := x;
        Podcast_UpdatedAt := Podcast_UpdatedAt p |}));
  ("updated_at", field Podcast_UpdatedAt (fun x p =>
     {| Podcast_ID := Podcast_ID p; Podcast_Title := Podcast_Title p;
        Podcast_Description := Podcast_Description p;
        Podcast_URL := Podcast_URL p; Podcast_Tags := Podcast_Tags p;
        Podcast_CreatedAt := Podcast_CreatedAt p;
        Podcast_UpdatedAt := x |}))
].

Definition Article_fields : field_table Article := [
  ("id", field Article_ID (fun x a =>
     {| Article_ID := x; Article_Title := Article_Title a;
        Article_Description := Article_Description a;
        Article_URL := Article_URL a; Article_Tags := Article_Tags a;
        Article_CreatedAt := Article_CreatedAt a;
        Article_UpdatedAt := Article_UpdatedAt a |}));
  ("title", field Article_Title (fun x a =>
     {| Article_ID := Article_ID a; Article_Title := x;
        Article_Description := Article_Description a;
        Article_URL := Article_URL a; Article_Tags := Article_Tags a;
        Article_CreatedAt := Article_CreatedAt a;
        Article_UpdatedAt := Article_UpdatedAt a |}));
  ("description", field Article_Description (fun x a =>
     {| Article_ID := Article_ID a; Article_Title := Article_Title a;
        Article_Description := x;
        Article_URL := Article_URL a; Article_Tags := Article_Tags a;
        Article_CreatedAt := Article_CreatedAt a;
        Article_UpdatedAt := Article_UpdatedAt a |}));
  ("url", field Article_URL (fun x a =>
     {| Article_ID := Article_ID a; Article_Title := Article_Title a;
        Article_Description := Article_Description a;
        Article_URL := x; Article_Tags := Article_Tags a;
        Article_CreatedAt := Article_CreatedAt a;
        Article_UpdatedAt := Article_UpdatedAt a |}));
  ("tags", field Article_Tags (fun x a =>
     {| Article_ID := Article_ID a; Article_Title := Article_Title a;
        Article_Description := Article_Description a;
        Article_URL := Article_URL a; Article_Tags := x;
        Article_CreatedAt := Article_CreatedAt a;
        Article_UpdatedAt := Article_UpdatedAt a |}));
  ("created_at", field Article_CreatedAt (fun x a =>
     {| Article_ID := Article_ID a; Article_Title := Article_Title a;
        Article_Description := Article_Description a;
        Article_URL := Article_URL a; Article_Tags := Article_Tags a;
        Article_CreatedAt := x;
        Article_UpdatedAt := Article_UpdatedAt a |}));
  ("updated_at", field Article_UpdatedAt (fun x a =>
     {| Article_ID := Article_ID a; Article_Title := Article_Title a;
        Article_Description := Article_Description a;
        Article_URL := Article_URL a; Article_Tags := Article_Tags a;
        Article_CreatedAt := Article_CreatedAt a;
        Article_UpdatedAt := x |}))
].

#[global] Instance Podcast_Decoder : Decoder Podcast :=
  decode_struct Podcast_fields.
#[global] Instance Article_Decoder : Decoder Article :=
  decode_struct Article_fields.

#[global] Instance PodcastResponse_Decoder : Decoder PodcastResponse :=
  decode_struct [
    ("podcast", field PodcastResponse_Podcast (fun x _ =>
       {| PodcastResponse_Podcast := x |}))
  ].
#[global] Instance ArticleResponse_Decoder : Decoder ArticleResponse :=
  decode_struct [
    ("article", field ArticleResponse_Article (fun x _ =>
       {| ArticleResponse_Article := x |}))
  ].
#[global] Instance PodcastsResponse_Decoder : Decoder PodcastsResponse :=
  decode_struct [
    ("podcasts", field PodcastsResponse_Podcasts (fun x _ =>
       {| PodcastsResponse_Podcasts := x |}))
  ].
#[global] Instance ArticlesResponse_Decoder : Decoder ArticlesResponse :=
  decode_struct [
    ("articles", field ArticlesResponse_Articles (fun x _ =>
       {| ArticlesResponse_Articles := x |}))
  ].

#[global] Instance PaginatedPodcastsResponse_Decoder
  : Decoder PaginatedPodcastsResponse :=
  decode_struct [
    ("podcasts", field PaginatedPodcastsResponse_Podcasts (fun x r =>
       {| PaginatedPodcastsResponse_Podcasts := x;
          PaginatedPodcastsResponse_Total := PaginatedPodcastsResponse_Total r;
          PaginatedPodcastsResponse_Page := PaginatedPodcastsResponse_Page r;
          PaginatedPodcastsResponse_Limit := PaginatedPodcastsResponse_Limit r
       |}));
    ("total", field PaginatedPodcastsResponse_Total (fun x r =>
       {| PaginatedPodcastsResponse_Podcasts :=
            PaginatedPodcastsResponse_Podcasts r;
          PaginatedPodcastsResponse_Total := x;
          PaginatedPodcastsResponse_Page := PaginatedPodcastsResponse_Page r;
          PaginatedPodcastsResponse_Limit := PaginatedPodcastsResponse_Limit r
       |}));
    ("page", field PaginatedPodcastsResponse_Page (fun x r =>
       {| PaginatedPodcastsResponse_Podcasts :=
            PaginatedPodcastsResponse_Podcasts r;
          PaginatedPodcastsResponse_Total := PaginatedPodcastsResponse_Total r;
          PaginatedPodcastsResponse_Page := x;
          PaginatedPodcastsResponse_Limit := PaginatedPodcastsResponse_Limit r
       |}));
    ("limit", field PaginatedPodcastsResponse_Limit (fun x r =>
       {| PaginatedPodcastsResponse_Podcasts :=
            PaginatedPodcastsResponse_Podcasts r;
          PaginatedPodcastsResponse_Total := PaginatedPodcastsResponse_Total r;
          PaginatedPodcastsResponse_Page := PaginatedPodcastsResponse_Page r;
          PaginatedPodcastsResponse_Limit := x |}))
  ].

#[global] Instance PaginatedArticlesResponse_Decoder
  : Decoder PaginatedArticlesResponse :=
  decode_struct [
    ("articles", field PaginatedArticlesResponse_Articles (fun x r =>
       {| PaginatedArticlesResponse_Articles := x;
          PaginatedArticlesResponse_Total := PaginatedArticlesResponse_Total r;
          PaginatedArticlesResponse_Page := PaginatedArticlesResponse_Page r;
          PaginatedArticlesResponse_Limit := PaginatedArticlesResponse_Limit r
       |}));
    ("total", field PaginatedArticlesResponse_Total (fun x r =>
       {| PaginatedArticlesResponse_Articles :=
            PaginatedArticlesResponse_Articles r;
          PaginatedArticlesResponse_Total := x;
          PaginatedArticlesResponse_Page := PaginatedArticlesResponse_Page r;
          PaginatedArticlesResponse_Limit := PaginatedArticlesResponse_Limit r
       |}));
    ("page", field PaginatedArticlesResponse_Page (fun x r =>
       {| PaginatedArticlesResponse_Articles :=
            PaginatedArticlesResponse_Articles r;
          PaginatedArticlesResponse_Total := PaginatedArticlesResponse_Total r;
          PaginatedArticlesResponse_Page := x;
          PaginatedArticlesResponse_Limit := PaginatedArticlesResponse_Limit r
       |}));
    ("limit", field PaginatedArticlesResponse_Limit (fun x r =>
       {| PaginatedArticlesResponse_Articles :=
            PaginatedArticlesResponse_Articles r;
          PaginatedArticlesResponse_Total := PaginatedArticlesResponse_Total r;
          PaginatedArticlesResponse_Page := PaginatedArticlesResponse_Page r;
          PaginatedArticlesResponse_Limit := x |}))
  ].

#[global] Instance HealthResponse_Decoder : Decoder HealthResponse :=
  decode_struct [
    ("status", field HealthResponse_Status (fun x r =>
       {| HealthResponse_Status := x;
          HealthResponse_Database := HealthResponse_Database r;
          HealthResponse_Timestamp := HealthResponse_Timestamp r |}));
    ("database", field HealthResponse_Database (fun x r =>
       {| HealthResponse_Status := HealthResponse_Status r;
          HealthResponse_Database := x;
          HealthResponse_Timestamp := HealthResponse_Timestamp r |}));
    ("timestamp", field HealthResponse_Timestamp (fun x r =>
       {| HealthResponse_Status := HealthResponse_Status r;
          HealthResponse_Database := HealthResponse_Database r;
          HealthResponse_Timestamp := x |}))
  ].
End FieldTables.

(** ** encoding/json: encoding the request payloads *)

Definition hex_digit (n : Z) : ascii :=
  if n <? 10 then chr (48 + n) else chr (87 + n).

(** The string encoder of Go 1.22, with its default HTML escaping.  [copy]
    and [skip] count the bytes of a rune already looked at that are still
    to be copied or dropped. *)
Fixpoint quote_from (copy skip : nat) (s : string) : string :=
  match s with
  | EmptyString => EmptyString
  | String c rest =>
      match copy, skip with
      | S n, _ => String c (quote_from n skip rest)
      | O, S n => quote_from O n rest
      | O, O =>
          if byte c <? 0x80 then
            if bool_decide (c ∈ ["\"%char; quote]) then
              String "\" (String c (quote_from 0 0 rest))
            else if bool_decide (c = "008"%char) then "\b" +:+ quote_from 0 0 rest
            else if bool_decide (c = "012"%char) then "\f" +:+ quote_from 0 0 rest
            else if bool_decide (c = "010"%char) then "\n" +:+ quote_from 0 0 rest
            else if bool_decide (c = "013"%char) then "\r" +:+ quote_from 0 0 rest
            else if bool_decide (c = "009"%char) then "\t" +:+ quote_from 0 0 rest
            else if (byte c <? 0x20) || bool_decide (c ∈ ["<"; ">"; "&"]%char)
            then
              "\u00"
              +:+ String (hex_digit (Z.shiftr (byte c) 4))
                    (String (hex_digit (Z.land (byte c) 0xF))
                            (quote_from 0 0 rest))
            else String c (quote_from 0 0 rest)
          else
            let '(r, size) := DecodeRune s in
            if (r =? RuneError) && bool_decide (size = 1%nat) then
              "\ufffd" +:+ quote_from 0 0 rest
            else if (r =? 0x2028) || (r =? 0x2029) then
              "\u202" +:+ String (hex_digit (Z.land r 0xF))
                            (quote_from 0 (size - 1) rest)
            else String c (quote_from (size - 1) 0 rest)
      end
  end.

Definition encode_string (s : string) : string :=
  String quote (quote_from 0 0 s +:+ String quote EmptyString).

Fixpoint join_comma (items : list string) : string :=
  match items with
  | [] => ""
  | [x] => x
  | x :: rest => x +:+ "," +:+ join_comma rest
  end.

Definition encode_strings (items : list string) : string :=
  "[" +:+ join_comma (encode_string <$> items) +:+ "]".

(** The two [omitempty] fields are left out when empty: the description
    when it is the empty string, the tags when the slice has no element. *)
Definition encode_key (name : string) : string :=
  String quote (name +:+ String quote ":").

Definition encode_request (title description url : string)
    (tags : option (list string)) : string :=
  "{" +:+ encode_key "title" +:+ encode_string title
  +:+ (if bool_decide (description = "") then ""
       else "," +:+ encode_key "description" +:+ encode_string description)
  +:+ "," +:+ encode_key "url" +:+ encode_string url
  +:+ (match tags with
       | None | Some [] => ""
       | Some items => "," +:+ encode_key "tags" +:+ encode_strings items
       end)
  +:+ "}".

#[global] Instance CreatePodcastRequest_Marshaler
  : Marshaler CreatePodcastRequest :=
  fun r => inl (encode_request (CreatePodcastRequest_Title r)
                               (CreatePodcastRequest_Description r)
                               (CreatePodcastRequest_URL r)
                               (CreatePodcastRequest_Tags r)).

#[global] Instance CreateArticleRequest_Marshaler
  : Marshaler CreateArticleRequest :=
  fun r => inl (encode_request (CreateArticleRequest_Title r)
                               (CreateArticleRequest_Description r)
                               (CreateArticleRequest_URL r)
                               (CreateArticleRequest_Tags r)).

(** ** The resource operations *)

(** A nil [[]byte] holds no byte. *)
Definition bytes (b : option string) : string := default "" b.

Definition healthEndpoint : string := "/health".
Definition createArticleEndpoint : string := "/api/v1/articles".
Definition getArticleEndpoint : string := "/api/v1/articles/%s".
Definition searchArticlesEndpoint : string := "/api/v1/articles/search/%s".
Definition searchArticlesPaginatedEndpoint : string :=
  "/api/v1/articles/search/%s/paginated".
Definition createPodcastEndpoint : string := "/api/v1/podcasts".
Definition getPodcastEndpoint : string := "/api/v1/podcasts/%s".
Definition searchPodcastsEndpoint : string := "/api/v1/podcasts/search/%s".
Definition searchPodcastsPaginatedEndpoint : string :=
  "/api/v1/podcasts/search/%s/paginated".

Section Operations.
Context `{TimeParser}.

(** health.go *)
Definition GetHealth (c : Client) : IO (option HealthResponse * option error) :=
  '(responseData, err) ← get c healthEndpoint;
  match err with
  | Some err =>
      mret (None, Some (fmt_Errorf_w "error retrieving health status: %w" err))
  | None =>
      match json_Unmarshal (bytes responseData) (zero : HealthResponse) with
      | inr err =>
          mret (None,
                Some (fmt_Errorf_w "error unmarshalling response data: %w" err))
      | inl response => mret (Some response, None)
      end
  end.

(** The article operations. *)
Definition CreateArticle (c : Client) (request : CreateArticleRequest)
  : IO (option Article * option error) :=
  '(responseData, err) ← post c createArticleEndpoint request;
  match err with
  | Some err => mret (None, Some (fmt_Errorf_w "error creating article: %w" err))
  | None =>
      match json_Unmarshal (bytes responseData) (zero : ArticleResponse) with
      | inr err =>
          mret (None,
                Some (fmt_Errorf_w "error unmarshalling response data: %w" err))
      | inl response => mret (ArticleResponse_Article response, None)
      end
  end.

Definition GetArticle (c : Client) (id : string)
  : IO (option Article * option error) :=
  let endpoint := Sprintf getArticleEndpoint [Str id] in
  '(responseData, err) ← get c endpoint;
  match err with
  | Some err =>
      mret (None, Some (fmt_Errorf_w "error retrieving article: %w" err))
  | None =>
      match json_Unmarshal (bytes responseData) (zero : ArticleResponse) with
      | inr err =>
          mret (None,
                Some (fmt_Errorf_w "error unmarshalling response data: %w" err))
      | inl response => mret (ArticleResponse_Article response, None)
      end
  end.

Definition SearchArticles (c : Client) (tag : string)
  : IO (option (list Article) * option error) :=
  let endpoint := Sprintf searchArticlesEndpoint [Str tag] in
  '(responseData, err) ← get c endpoint;
  match err with
  | Some err =>
      mret (None, Some (fmt_Errorf_w "error searching articles: %w" err))
  | None =>
      match json_Unmarshal (bytes responseData) (zero : ArticlesResponse) with
      | inr err =>
          mret (None,
                Some (fmt_Errorf_w "error unmarshalling response data: %w" err))
      | inl response => mret (ArticlesResponse_Articles response, None)
      end
  end.

Definition SearchArticlesPaginated (c : Client) (tag : string)
    (page limit : Z)
  : IO (option PaginatedArticlesResponse * option error) :=
  let endpoint := Sprintf searchArticlesPaginatedEndpoint [Str tag] in
  let endpoint :=
    Sprintf "%s?page=%d&limit=%d" [Str endpoint; Int page; Int limit] in
  '(responseData, err) ← get c endpoint;
  match err with
  | Some err =>
      mret (None,
            Some (fmt_Errorf_w "error searching articles with pagination: %w"
                               err))
  | None =>
      match json_Unmarshal (bytes responseData)
                           (zero : PaginatedArticlesResponse) with
      | inr err =>
          mret (None,
                Some (fmt_Errorf_w "error unmarshalling response data: %w" err))
      | inl response => mret (Some response, None)
      end
  end.

(** The podcast operations. *)
Definition CreatePodcast (c : Client) (request : CreatePodcastRequest)
  : IO (option Podcast * option error) :=
  '(responseData, err) ← post c createPodcastEndpoint request;
  match err with
  | Some err => mret (None, Some (fmt_Errorf_w "error creating podcast: %w" err))
  | None =>
      match json_Unmarshal (bytes responseData) (zero : PodcastResponse) with
      | inr err =>
          mret (None,
                Some (fmt_Errorf_w "error unmarshalling response data: %w" err))
      | inl response => mret (PodcastResponse_Podcast response, None)
      end
  end.

Definition GetPodcast (c : Client) (id : string)
  : IO (option Podcast * option error) :=
  let endpoint := Sprintf getPodcastEndpoint [Str id] in
  '(responseData, err) ← get c endpoint;
  match err with
  | Some err =>
      mret (None, Some (fmt_Errorf_w "error retrieving podcast: %w" err))
  | None =>
      match json_Unmarshal (bytes responseData) (zero : PodcastResponse) with
      | inr err =>
          mret (None,
                Some (fmt_Errorf_w "error unmarshalling response data: %w" err))
      | inl response => mret (PodcastResponse_Podcast response, None)
      end
  end.

Definition SearchPodcasts (c : Client) (tag : string)
  : IO (option (list Podcast) * option error) :=
  let endpoint := Sprintf searchPodcastsEndpoint [Str tag] in
  '(responseData, err) ← get c endpoint;
  match err with
  | Some err =>
      mret (None, Some (fmt_Errorf_w "error searching podcasts: %w" err))
  | None =>
      match json_Unmarshal (bytes responseData) (zero : PodcastsResponse) with
      | inr err =>
          mret (None,
                Some (fmt_Errorf_w "error unmarshalling response data: %w" err))
      | inl response => mret (PodcastsResponse_Podcasts response, None)
      end
  end.

Definition SearchPodcastsPaginated (c : Client) (tag : string)
    (page limit : Z)
  : IO (option PaginatedPodcastsResponse * option error) :=
  let endpoint := Sprintf searchPodcastsPaginatedEndpoint [Str tag] in
  let endpoint :=
    Sprintf "%s?page=%d&limit=%d" [Str endpoint; Int page; Int limit] in
  '(responseData, err) ← get c endpoint;
  match err with
  | Some err =>
      mret (None,
            Some (fmt_Errorf_w "error searching podcasts with pagination: %w"
                               err))
  | None =>
      match json_Unmarshal (bytes responseData)
                           (zero : PaginatedPodcastsResponse) with
      | inr err =>
          mret (None,
                Some (fmt_Errorf_w "error unmarshalling response data: %w" err))
      | inl response => mret (Some response, None)
      end
  end.
End Operations.

(** The older variants of the two create operations take the request
    types of the models module, which is not part of this repository, and
    report only an error.  In podcast.go the statement after the check of
    the error reads [returnnil], which is no Go; it is taken for the
    [return nil] that [CreateArticle] has at that place. *)
Module Legacy.
Section Legacy.
Context {DataWarehouseCreateArticleRequest : Type}
        {DataWarehouseCreatePodcastRequest : Type}
        `{!Marshaler DataWarehouseCreateArticleRequest}
        `{!Marshaler DataWarehouseCreatePodcastRequest}.

Definition CreateArticle (c : Client)
    (request : DataWarehouseCreateArticleRequest) : IO (option error) :=
  '(_, err) ← post c createArticleEndpoint request;
  match err with
  | Some err => mret (Some (fmt_Errorf_w "error creating article: %w" err))
  | None => mret None
  end.

Definition CreatePodcast (c : Client)
    (request : DataWarehouseCreatePodcastRequest) : IO (option error) :=
  '(_, err) ← post c createPodcastEndpoint request;
  match err with
  | Some err => mret (Some (fmt_Errorf_w "error creating podcast: %w" err))
  | None => mret None
  end.
End Legacy.
End Legacy.

(** ** A strict RFC 3339 parser, to run the operations on examples

    Date and time of day with two-digit fields, an optional fraction and
    [Z] or a numeric zone.  Package time accepts these texts and reads
    them this way. *)

Definition two_digits (a b : ascii) : option Z :=
  if is_digit a && is_digit b then Some ((byte a - 48) * 10 + (byte b - 48))
  else None.

Definition is_leap (year : Z) : bool :=
  (year mod 4 =? 0) && (negb (year mod 100 =? 0) || (year mod 400 =? 0)).

Definition daysIn (month year : Z) : Z :=
  if month =? 2 then (if is_leap year then 29 else 28)
  else if bool_decide (month ∈ [4; 6; 9; 11]) then 30 else 31.

(** Days from 1970-01-01 to the given date of the Gregorian calendar. *)
Definition days_from_civil (y m d : Z) : Z :=
  let y' := if m <=? 2 then y - 1 else y in
  let era := y' / 400 in
  let yoe := y' - era * 400 in
  let doy := (153 * (if m <=? 2 then m + 9 else m - 3) + 2) / 5 + d - 1 in
  let doe := yoe * 365 + yoe / 4 - yoe / 100 + doy in
  era * 146097 + doe - 719468.

(** The digits of a fraction, as nanoseconds; digits after the ninth are
    dropped. *)
Fixpoint fraction (scale : Z) (s : string) : Z * string :=
  match s with
  | String c rest =>
      if is_digit c then
        let '(ns, rest') := fraction (scale / 10) rest in
        ((byte c - 48) * scale + ns, rest')
      else (0, s)
  | EmptyString => (0, s)
  end.

Definition zone (s : string) : option Z :=
  match s with
  | String "Z" EmptyString => Some 0
  | String sign (String h1 (String h2 (String ":" (String m1 (String m2
      EmptyString))))) =>
      hh ← two_digits h1 h2;
      mm ← two_digits m1 m2;
      if (hh <=? 23) && (mm <=? 59) then
        if bool_decide (sign = "+"%char) then Some ((hh * 60 + mm) * 60)
        else if bool_decide (sign = "-"%char) then Some (- ((hh * 60 + mm) * 60))
        else None
      else None
  | _ => None
  end.

Definition parseRFC3339 (s : string) : option Time :=
  match s with
  | String y1 (String y2 (String y3 (String y4 (String "-"
      (String mo1 (String mo2 (String "-" (String d1 (String d2 (String "T"
      (String h1 (String h2 (String ":" (String mi1 (String mi2 (String ":"
      (String s1 (String s2 rest)))))))))))))))))) =>
      yh ← two_digits y1 y2;
      yl ← two_digits y3 y4;
      month ← two_digits mo1 mo2;
      day ← two_digits d1 d2;
      hour ← two_digits h1 h2;
      minute ← two_digits mi1 mi2;
      second ← two_digits s1 s2;
      let year := yh * 100 + yl in
      if between 1 12 month && between 1 (daysIn month year) day
         && (hour <=? 23) && (minute <=? 59) && (second <=? 59) then
        let '(ns, rest) :=
          match rest with
          | String "." (String c frac) =>
              if is_digit c then fraction 100000000 (String c frac)
              else (0, rest)
          | _ => (0, rest)
          end in
        off ← zone rest;
        Some {| unix := days_from_civil year month day * 86400
                        + hour * 3600 + minute * 60 + second - off;
                nanosecond := ns; offset := off |}
      else None
  | _ => None
  end.

(** ** Vocabulary of the properties *)

(** The header every request of the client carries. *)
Definition two_headers (token : string) : gmap string (list string) :=
  {[ "Content-Type" := ["application/json"];
     "Authorization" := ["Bearer " +:+ token] ]}.

Definition request_of (method : string) (c : Client) (endpoint : string)
    (body : option string) : Request :=
  {| Method := method; URL := url c +:+ endpoint;
     Header := two_headers (apiKey c); Body := body |}.

(** A response that arrives whole. *)
Definition response_of (code : Z) (body : string) : Response :=
  {| StatusCode := code;
     ResponseBody := {| data := body; failure := None |} |}.

(** The requests an action sends when it runs from [w]. *)
Definition issued {A} (m : IO A) (w : World) : list Request :=
  drop (List.length (sent w)) (sent (m w).2).

Definition contains (part whole : string) : Prop :=
  exists before after, whole = before +:+ part +:+ after.

Definition status_error (code : Z) (body : string) : error :=
  errorString
    ("unexpected status code: " +:+ pretty code +:+ ", body: " +:+ body).

(** What [get] and [post] make of a response; [wrap] is how a failed read
    is reported. *)
Definition outcome (wrap : error -> error) (res : Response)
  : option string * option error :=
  match failure (ResponseBody res) with
  | Some text => (None, Some (wrap (io_Error text)))
  | None =>
      if bool_decide (StatusCode res = 200) then
        (Some (data (ResponseBody res)), None)
      else (None, Some (status_error (StatusCode res) (data (ResponseBody res))))
  end.

Definition log (req : Request) (w : World) : World :=
  {| url_Parse := url_Parse w; RoundTrip := RoundTrip w;
     sent := sent w ++ [req] |}.

(** The JSON texts of the examples are written with an apostrophe where
    the text has a double quote. *)
Fixpoint dq (s : string) : string :=
  match s with
  | EmptyString => EmptyString
  | String c rest =>
      String (if bool_decide (c = "'"%char) then quote else c) (dq rest)
  end.

(** A server that accepts every URL and gives every request the same
    answer. *)
Definition mock (code : Z) (body : string) : World :=
  {| url_Parse := fun _ => None;
     RoundTrip := fun _ _ => inl (response_of code body);
     sent := [] |}.

Definition example_client : Client :=
  {| url := "http://warehouse"; client := http_Client_zero; apiKey := "secret" |}.

Definition example_article_request : CreateArticleRequest :=
  {| CreateArticleRequest_Title := "T";
     CreateArticleRequest_Description := "";
     CreateArticleRequest_URL := "https://x";
     CreateArticleRequest_Tags := Some ["a"; "b"] |}.

(** The shape all the typed operations share: report a failure of the
    primitive under the name of the operation, decode the body into the
    envelope [T], report a failure of that, and hand out what [extract]
    takes from the envelope. *)
Definition wrapper `{Decoder T} `{Zero T} {R} (context : string)
    (extract : T -> option R) (lower : IO (option string * option error))
  : IO (option R * option error) :=
  fun w =>
    let '((responseData, err), w') := lower w in
    (match err with
     | Some err => (None, Some (wrapError context err))
     | None =>
         match json_Unmarshal (bytes responseData) (zero : T) with
         | inr err =>
             (None, Some (wrapError "error unmarshalling response data: " err))
         | inl response => (extract response, None)
         end
     end, w').

(** The world accepts the URL of [req] and answers [req] with the status
    [code] and the body [body]. *)
Definition answers (w : World) (req : Request) (code : Z) (body : string)
  : Prop :=
  url_Parse w (URL req) = None
  /\ RoundTrip w (sent w) req = inl (response_of code body).

(** A JSON value in which the decoder finds nothing for the field [name]:
    [null], or an object none of whose keys is [name] up to case. *)
Definition lacks_key (name : string) (j : json) : Prop :=
  j = JNull
  \/ exists members,
       j = JObject members
       /\ Forall (fun m => foldName (unquote m.1) ≠ foldName name) members.

(** Every error a decoding ends with, saved or not, is of the kind
    [DeserializationError]. *)
Definition sound {T} (r : decoding T) : Prop :=
  match r with
  | Abort err | Continue _ (Some err) => kind_of err = DeserializationError
  | Continue _ None => True
  end.

Class SoundDecoder (T : Type) `{Decoder T} : Prop :=
  decode_sound : forall j v, sound (decode j v).


(** The inside of a string literal as the scanner reads it: plain bytes,
    the byte after a backslash, the four digits after [\u]. *)
Inductive quoted_state : Type :=
| QPlain
| QEscape
| QUnicode (missing : nat).

Definition quoted_step (st : quoted_state) (c : ascii) : option quoted_state :=
  match st with
  | QPlain =>
      if bool_decide (c = quote) then None
      else if bool_decide (c = "\"%char) then Some QEscape
      else if byte c <? 32 then None
      else Some QPlain
  | QEscape =>
      if bool_decide (c ∈ ["b"; "f"; "n"; "r"; "t"; "\"; "/"; quote]%char)
      then Some QPlain
      else if bool_decide (c = "u"%char) then Some (QUnicode 4)
      else None
  | QUnicode missing =>
      if is_hex c then
        match missing with
        | 0%nat | 1%nat => Some QPlain
        | S n => Some (QUnicode n)
        end
      else None
  end.

Fixpoint quoted_run (st : quoted_state) (s : string) : option quoted_state :=
  match s with
  | EmptyString => Some st
  | String c rest => st' ← quoted_step st c; quoted_run st' rest
  end.

(** A text the scanner accepts between two quotes. *)
Definition well_quoted (raw : string) : Prop :=
  quoted_run QPlain raw = Some QPlain.

(** Every string and every key of a JSON value is well quoted. *)
Fixpoint strings_ok (j : json) : Prop :=
  match j with
  | JString raw => well_quoted raw
  | JArray elements =>
      fold_right (fun e rest => strings_ok e /\ rest) True elements
  | JObject members =>
      fold_right (fun m rest =>
                    let '(key, v) := m in
                    well_quoted key /\ strings_ok v /\ rest) True members
  | _ => True
  end.

(** The next [skip] bytes of [s] are there and take the scanner from [st]
    back to plain bytes. *)
Fixpoint accepts (skip : nat) (st : quoted_state) (s : string) : Prop :=
  match skip with
  | O => st = QPlain
  | S n =>
      match s with
      | EmptyString => False
      | String c rest =>
          match quoted_step st c with
          | Some st' => accepts n st' rest
          | None => False
          end
      end
  end.

(** What holds of the tokens, of the states of the two machines and of
    the open containers while a text is read. *)
Definition token_ok (tok : token) : Prop :=
  match tok with
  | TString raw => well_quoted raw
  | _ => True
  end.

Definition lex_ok (st : lex_state) : Prop :=
  match st with
  | LexString acc => quoted_run QPlain (finish acc) = Some QPlain
  | LexEscape acc => quoted_run QPlain (finish acc) = Some QEscape
  | LexUnicode acc missing =>
      quoted_run QPlain (finish acc) = Some (QUnicode missing)
  | LexWord tok _ => token_ok tok
  | _ => True
  end.

Definition frame_ok (f : frame) : Prop :=
  match f with
  | FArray elements => strings_ok (JArray elements)
  | FObject members => strings_ok (JObject members)
  | FMember members key => strings_ok (JObject members) /\ well_quoted key
  end.

Definition parse_ok (st : parse_state) : Prop :=
  match st with
  | PValue _ stack | PKey _ stack | PColon stack | PNext stack =>
      Forall frame_ok stack
  | PEnd v => strings_ok v
  end.

(** The timestamps of the examples are read by [parseRFC3339]. *)
Definition example_times : TimeParser := parseRFC3339.

(** ** Vocabulary of the further properties *)

(** An action that calls [Do] at most once: the request it hands to [Do]
    is added to the log, nothing in the log is touched, and when it ends
    well [Do] has been called exactly once. *)
Definition one_exchange {A} (well : A -> Prop) (op : IO A) : Prop :=
  forall w,
    sent (op w).2 = sent w ++ issued op w
    /\ (List.length (issued op w) <= 1)%nat
    /\ (well (op w).1 -> List.length (issued op w) = 1%nat).

(** A result of an operation without an error. *)
Definition no_error {R} (r : option R * option error) : Prop := r.2 = None.

(** The action sends [method path] with [body] for the client [c], or
    nothing when the URL does not parse. *)
Definition sends {A} (op : IO A) (w : World) (method : string) (c : Client)
    (path : string) (body : option string) : Prop :=
  issued op w
  = match url_Parse w (url c +:+ path) with
    | None => [request_of method c path body]
    | Some _ => []
    end.

(** Exactly one of the result and the error is nil. *)
Definition one_of_two {R} (r : option R * option error) : Prop :=
  match r with
  | (Some _, None) | (None, Some _) => True
  | _ => False
  end.

(** A JSON value in which the decoder finds nothing for any of the fields
    [names]. *)
Definition lacks_keys (names : list string) (j : json) : Prop :=
  j = JNull
  \/ exists members,
       j = JObject members
       /\ Forall (fun m => foldName (unquote m.1) ∉ foldName <$> names) members.

(** A text of white space only, the empty text included. *)
Definition blank (text : string) : Prop := forallb_string is_space text = true.

(** Every error of the operation is of one of the [kinds]. *)
Definition fails_only_with {R} (kinds : list ErrorKind)
    (op : IO (option R * option error)) : Prop :=
  forall w err, (op w).1.2 = Some err -> kind_of err ∈ kinds.

(** What an operation makes of the body of a 200 response. *)
Definition decoded (T : Type) `{Decoder T} `{Zero T} {R}
    (extract : T -> option R) (body : string) : option R * option error :=
  match json_Unmarshal body (zero : T) with
  | inr err => (None, Some (wrapError "error unmarshalling response data: " err))
  | inl response => (extract response, None)
  end.

(** A decoding that ends with an error, saved or not. *)
Definition failed {T} (r : decoding T) : Prop :=
  match r with
  | Continue _ None => False
  | _ => True
  end.

(** The members an object has for the fields of a struct. *)
Definition known_members {T} (fields : field_table T)
    (members : list (string * json)) : list (string * json) :=
  filter (fun m => is_Some (find_field fields (unquote m.1))) members.

(** A podcast with the fields of an article. *)
Definition Article_as_Podcast (a : Article) : Podcast :=
  {| Podcast_ID := Article_ID a; Podcast_Title := Article_Title a;
     Podcast_Description := Article_Description a;
     Podcast_URL := Article_URL a; Podcast_Tags := Article_Tags a;
     Podcast_CreatedAt := Article_CreatedAt a;
     Podcast_UpdatedAt := Article_UpdatedAt a |}.

Definition decoding_map {A B} (f : A -> B) (r : decoding A) : decoding B :=
  match r with
  | Abort err => Abort err
  | Continue v saved => Continue (f v) saved
  end.

(** The next [n] bytes of [s] are there and are bytes of the upper half,
    as the bytes after the first byte of a rune are. *)
Fixpoint tails (n : nat) (s : string) : Prop :=
  match n with
  | O => True
  | S n' =>
      match s with
      | EmptyString => False
      | String c rest => 0x80 <= byte c /\ tails n' rest
      end
  end.

(** The scanner inside a string literal, for a state of [quoted_step]. *)
Definition lex_of (st : quoted_state) (acc : list ascii) : lex_state :=
  match st with
  | QPlain => LexString acc
  | QEscape => LexEscape acc
  | QUnicode missing => LexUnicode acc missing
  end.

(** Between two tokens the scanner reads [text] as the tokens [toks],
    whatever follows. *)
Definition lexes (text : string) (toks : list token) : Prop :=
  forall rest,
    lex LexIdle (text +:+ rest) = (fun more => toks ++ more) <$> lex LexIdle rest.

(** A string of ASCII bytes. *)
Definition ascii_only (s : string) : Prop :=
  forallb_string (fun c => byte c <? 0x80) s = true.

(** The members [json.Marshal] writes for a request, in their order: the
    two fields marked [omitempty] only when they are not empty. *)
Definition request_members (title description url : string)
    (tags : option (list string)) : list (string * json) :=
  [("title", JString (quote_from 0 0 title))]
  ++ (if bool_decide (description = "") then []
      else [("description", JString (quote_from 0 0 description))])
  ++ [("url", JString (quote_from 0 0 url))]
  ++ match tags with
     | None | Some [] => []
     | Some items =>
         [("tags", JArray ((fun s => JString (quote_from 0 0 s)) <$> items))]
     end.

(** The tags as they are read back: an empty slice is not written, so it
    comes back as nil. *)
Definition tags_read_back (tags : option (list string))
  : option (list string) :=
  match tags with
  | None | Some [] => None
  | Some items => Some items
  end.

(** The tokens of what [json.Marshal] writes for a list of strings and
    for a request. *)
Fixpoint string_tokens (items : list string) : list token :=
  match items with
  | [] => []
  | [x] => [TString (quote_from 0 0 x)]
  | x :: rest => TString (quote_from 0 0 x) :: TComma :: string_tokens rest
  end.

Definition request_tokens (title description url : string)
    (tags : option (list string)) : list token :=
  [TLBrace; TString "title"; TColon; TString (quote_from 0 0 title)]
  ++ (if bool_decide (description = "") then []
      else [TComma; TString "description"; TColon;
            TString (quote_from 0 0 description)])
  ++ [TComma; TString "url"; TColon; TString (quote_from 0 0 url)]
  ++ match tags with
     | None | Some [] => []
     | Some items =>
         [TComma; TString "tags"; TColon; TLBracket] ++ string_tokens items
         ++ [TRBracket]
     end
  ++ [TRBrace].

(** A member whose key is [name] up to case, written with the key [name]. *)
Definition canonical_key (name : string) (m : string * json) : string * json :=
  if bool_decide (foldName (unquote m.1) = foldName name) then (name, m.2)
  else m.

(** The error an operation named [context] gives for a response with the
    status [code] and the body [body]: its text and its kind. *)
Definition status_failure (describe : error -> string) (context : string)
    (code : Z) (body : string) (err : option error) : Prop :=
  exists e,
    err = Some e
    /\ Error describe e
       = context +:+ "unexpected status code: " +:+ pretty code +:+ ", body: "
         +:+ body
    /\ kind_of e = UnexpectedStatus.

(** * Properties *)

Lemma append_empty_r (s : string) : s +:+ "" = s.
Proof.
  induction s as [|x s' IH]; [done |].
  change (String x (s' +:+ "") = String x s'). by rewrite IH.
Qed.

Lemma append_assoc (a b c : string) : (a +:+ b) +:+ c = a +:+ (b +:+ c).
Proof.
  induction a as [|x a' IH]; [done |].
  change (String x ((a' +:+ b) +:+ c) = String x (a' +:+ (b +:+ c))).
  by rewrite IH.
Qed.

Lemma Sprintf_join (a b : string) : Sprintf "%s%s" [Str a; Str b] = a +:+ b.
Proof. simpl. by rewrite append_empty_r. Qed.

Lemma Sprintf_bearer (token : string) :
  Sprintf "Bearer %s" [Str token] = "Bearer " +:+ token.
Proof. simpl. by rewrite append_empty_r. Qed.

Lemma Sprintf_status (code : Z) (body : string) :
  fmt_Errorf "unexpected status code: %d, body: %s" [Int code; Str body]
  = status_error code body.
Proof.
  unfold fmt_Errorf, status_error. simpl. by rewrite append_empty_r.
Qed.

Lemma headers_set (method u : string) (body : option string) (token : string) :
  Header_Set "Authorization" ("Bearer " +:+ token)
    (Header_Set "Content-Type" "application/json"
       {| Method := method; URL := u; Header := ∅; Body := body |})
  = {| Method := method; URL := u; Header := two_headers token; Body := body |}.
Proof.
  unfold Header_Set, two_headers; simpl. by f_equal.
Qed.

(** [get], step by step: the URL is parsed, the request sent and logged,
    the response turned into a result. *)
Lemma get_run (c : Client) (endpoint : string) (w : World) :
  get c endpoint w =
  match url_Parse w (url c +:+ endpoint) with
  | Some text => ((None, Some (url_Error text)), w)
  | None =>
      let req := request_of http_MethodGet c endpoint None in
      match RoundTrip w (sent w) req with
      | inr text => ((None, Some (url_Error text)), log req w)
      | inl res => (outcome (fun err => err) res, log req w)
      end
  end.
Proof.
  unfold get, mbind, IO_bind, http_NewRequest.
  rewrite Sprintf_join, Sprintf_bearer.
  destruct (url_Parse w _) as [text|]; [done |].
  rewrite headers_set. unfold Do. fold (request_of http_MethodGet c endpoint None).
  fold (log (request_of http_MethodGet c endpoint None) w).
  destruct (RoundTrip w _ _) as [res|text]; [| done].
  destruct res as [code [body [text|]]]; unfold outcome, io_ReadAll; simpl;
    [done |].
  rewrite Sprintf_status. unfold http_StatusOK.
  destruct (decide (code = 200)) as [Heq|Hne].
  - rewrite bool_decide_eq_false_2, bool_decide_eq_true_2 by tauto. done.
  - rewrite bool_decide_eq_true_2, bool_decide_eq_false_2 by tauto. done.
Qed.

Lemma post_run `{Marshaler A} (c : Client) (endpoint : string) (payload : A)
    (w : World) :
  post c endpoint payload w =
  match json_Marshal payload with
  | inr text =>
      ((None, Some (wrapError "error marshalling data to JSON: "
                              (json_MarshalError text))), w)
  | inl jsonData =>
      match url_Parse w (url c +:+ endpoint) with
      | Some text =>
          ((None, Some (wrapError "error creating request: " (url_Error text))),
           w)
      | None =>
          let req := request_of http_MethodPost c endpoint (Some jsonData) in
          match RoundTrip w (sent w) req with
          | inr text =>
              ((None,
                Some (wrapError "error sending request: " (url_Error text))),
               log req w)
          | inl res =>
              (outcome (wrapError "error reading response body: ") res,
               log req w)
          end
      end
  end.
Proof.
  unfold post, mbind, IO_bind, http_NewRequest.
  destruct (json_Marshal payload) as [jsonData|text]; [| done].
  rewrite Sprintf_join, Sprintf_bearer.
  destruct (url_Parse w _) as [text|]; [done |].
  rewrite headers_set. unfold Do.
  fold (request_of http_MethodPost c endpoint (Some jsonData)).
  fold (log (request_of http_MethodPost c endpoint (Some jsonData)) w).
  destruct (RoundTrip w _ _) as [res|text]; [| done].
  destruct res as [code [body [text|]]]; unfold outcome, io_ReadAll; simpl;
    [done |].
  rewrite Sprintf_status. unfold http_StatusOK.
  destruct (decide (code = 200)) as [Heq|Hne].
  - rewrite bool_decide_eq_false_2, bool_decide_eq_true_2 by tauto. done.
  - rewrite bool_decide_eq_true_2, bool_decide_eq_false_2 by tauto. done.
Qed.

Lemma issued_nothing {A} (m : IO A) (w : World) :
  (m w).2 = w -> issued m w = [].
Proof. unfold issued. intros ->. apply drop_all. Qed.

Lemma issued_one {A} (m : IO A) (w : World) (req : Request) :
  (m w).2 = log req w -> issued m w = [req].
Proof.
  unfold issued. intros ->. simpl.
  by rewrite drop_app_length.
Qed.

Lemma issued_get (c : Client) (endpoint : string) (w : World) :
  issued (get c endpoint) w =
  match url_Parse w (url c +:+ endpoint) with
  | None => [request_of http_MethodGet c endpoint None]
  | Some _ => []
  end.
Proof.
  pose proof (get_run c endpoint w) as Hrun.
  destruct (url_Parse w _).
  - apply issued_nothing. by rewrite Hrun.
  - apply issued_one. rewrite Hrun. simpl. by destruct (RoundTrip w _ _).
Qed.

Lemma issued_post `{Marshaler A} (c : Client) (endpoint : string)
    (payload : A) (w : World) :
  issued (post c endpoint payload) w =
  match json_Marshal payload, url_Parse w (url c +:+ endpoint) with
  | inl jsonData, None =>
      [request_of http_MethodPost c endpoint (Some jsonData)]
  | _, _ => []
  end.
Proof.
  pose proof (post_run c endpoint payload w) as Hrun.
  destruct (json_Marshal payload); [destruct (url_Parse w _) |].
  - apply issued_nothing. by rewrite Hrun.
  - apply issued_one. rewrite Hrun. simpl. by destruct (RoundTrip w _ _).
  - apply issued_nothing. by rewrite Hrun.
Qed.

Lemma contains_middle (a b c : string) : contains b (a +:+ b +:+ c).
Proof. by exists a, c. Qed.

Lemma contains_end (a b : string) : contains b (a +:+ b).
Proof. exists a, "". by rewrite append_empty_r. Qed.

Lemma status_error_kind (code : Z) (body : string) :
  kind_of (status_error code body) = UnexpectedStatus.
Proof. reflexivity. Qed.

(** C1.  Whatever the body, a response whose status code is not 200 makes
    [get] and [post] fail: no bytes are returned, and the error is of the
    kind [UnexpectedStatus], with a text that holds the code in decimal
    and the body as it was received. *)
Theorem unexpected_status_fails `{Marshaler A} (c : Client)
    (endpoint : string) (payload : A) (jsonData : string) (w : World)
    (code : Z) (body : string) :
  code ≠ 200 ->
  url_Parse w (url c +:+ endpoint) = None ->
  json_Marshal payload = inl jsonData ->
  RoundTrip w (sent w) (request_of http_MethodGet c endpoint None)
    = inl (response_of code body) ->
  RoundTrip w (sent w) (request_of http_MethodPost c endpoint (Some jsonData))
    = inl (response_of code body) ->
  let message :=
    "unexpected status code: " +:+ pretty code +:+ ", body: " +:+ body in
  (get c endpoint w).1 = (None, Some (errorString message))
  /\ (post c endpoint payload w).1 = (None, Some (errorString message))
  /\ kind_of (errorString message) = UnexpectedStatus
  /\ (forall describe, Error describe (errorString message) = message)
  /\ contains (pretty code) message
  /\ contains body message.
Proof.
  intros Hcode Hurl Hjson Hget Hpost message.
  assert (Hout : forall wrap,
             outcome wrap (response_of code body)
             = (None, Some (errorString message))).
  { intros wrap. unfold outcome; simpl.
    by rewrite bool_decide_eq_false_2. }
  repeat split.
  - rewrite get_run, Hurl. simpl. by rewrite Hget, Hout.
  - rewrite post_run, Hjson, Hurl. simpl. by rewrite Hpost, Hout.
  - apply contains_middle.
  - subst message. rewrite <- !append_assoc. apply contains_end.
Qed.

Lemma unexpected_status_fails_witness :
  let failed : option string * option error :=
    (None,
     Some (errorString
             "unexpected status code: 503, body: <html>down</html>")) in
  (get example_client "/health" (mock 503 "<html>down</html>")).1 = failed
  /\ (post example_client "/api/v1/articles" example_article_request
            (mock 503 "<html>down</html>")).1 = failed.
Proof.
  pose proof (unexpected_status_fails (A := CreateArticleRequest)
                example_client "/health" example_article_request
                (dq "{'title':'T','url':'https://x','tags':['a','b']}")
                (mock 503 "<html>down</html>") 503 "<html>down</html>")
    as Hget.
  pose proof (unexpected_status_fails (A := CreateArticleRequest)
                example_client "/api/v1/articles" example_article_request
                (dq "{'title':'T','url':'https://x','tags':['a','b']}")
                (mock 503 "<html>down</html>") 503 "<html>down</html>")
    as Hpost.
  split.
  - apply Hget; first lia; reflexivity.
  - apply Hpost; first lia; reflexivity.
Defined.

(** C2.  [New] refuses an empty URL and an empty API key with an error of
    the kind [InvalidConfiguration] and no client; given two strings that
    are not empty it returns a client that holds exactly them and no
    error.  In both cases the world is left as it was: nothing is sent. *)
Theorem New_checks_configuration (u k : string) (w : World) :
  ((u = "" \/ k = "") ->
     exists err, New u k w = ((None, Some err), w)
                 /\ kind_of err = InvalidConfiguration)
  /\ (u ≠ "" -> k ≠ "" ->
     exists c, New u k w = ((Some c, None), w)
               /\ url c = u /\ apiKey c = k)
  /\ issued (New u k) w = [].
Proof.
  unfold New. repeat split.
  - intros Hempty.
    destruct (decide (u = "")) as [Hu|Hu].
    + rewrite bool_decide_eq_true_2 by done. by eexists.
    + rewrite bool_decide_eq_false_2 by done.
      destruct Hempty as [?|Hk]; [done |].
      rewrite bool_decide_eq_true_2 by done. by eexists.
  - intros Hu Hk. rewrite !bool_decide_eq_false_2 by done.
    by eexists.
  - apply issued_nothing.
    destruct (bool_decide (u = "")); [done |].
    by destruct (bool_decide (k = "")).
Qed.

Lemma New_checks_configuration_witness :
  (exists err, New "" "secret" (mock 200 "") = ((None, Some err), mock 200 "")
               /\ kind_of err = InvalidConfiguration)
  /\ (exists err, New "http://warehouse" "" (mock 200 "")
                  = ((None, Some err), mock 200 "")
                  /\ kind_of err = InvalidConfiguration)
  /\ (exists err, New "" "" (mock 200 "") = ((None, Some err), mock 200 "")
                  /\ kind_of err = InvalidConfiguration)
  /\ New "http://warehouse" "secret" (mock 200 "")
     = ((Some example_client, None), mock 200 "").
Proof.
  split; [| split; [| split]].
  - apply (New_checks_configuration "" "secret"). by left.
  - apply (New_checks_configuration "http://warehouse" ""). by right.
  - apply (New_checks_configuration "" ""). by left.
  - destruct (proj1 (proj2 (New_checks_configuration
                              "http://warehouse" "secret" (mock 200 ""))))
      as [c [Hnew [Hurl Hkey]]]; [done | done |].
    rewrite Hnew. by destruct c as [? [] ?]; simpl in *; subst.
Defined.

(** C3.  For a client made by [New u k]: [post] sends the encoding
    [json.Marshal] gives for the payload, unchanged, as the body of one
    POST request, and [get] sends one GET request without a body; both
    requests go to [u] followed by the endpoint and carry exactly the
    headers [Content-Type: application/json] and
    [Authorization: Bearer k].  Nothing is sent when the payload cannot be
    encoded or the URL does not parse. *)
Theorem requests_carry_payload_and_headers `{Marshaler A} (u k : string)
    (w0 : World) (c : Client) (endpoint : string) (payload : A) (w : World) :
  (New u k w0).1 = (Some c, None) ->
  issued (post c endpoint payload) w
  = match json_Marshal payload, url_Parse w (u +:+ endpoint) with
    | inl jsonData, None =>
        [ {| Method := "POST"; URL := u +:+ endpoint;
             Header := {[ "Content-Type" := ["application/json"];
                          "Authorization" := ["Bearer " +:+ k] ]};
             Body := Some jsonData |} ]
    | _, _ => []
    end
  /\ issued (get c endpoint) w
     = match url_Parse w (u +:+ endpoint) with
       | None =>
           [ {| Method := "GET"; URL := u +:+ endpoint;
                Header := {[ "Content-Type" := ["application/json"];
                             "Authorization" := ["Bearer " +:+ k] ]};
                Body := None |} ]
       | Some _ => []
       end.
Proof.
  intros Hnew.
  assert (url c = u /\ apiKey c = k) as [<- <-].
  { unfold New in Hnew.
    destruct (bool_decide (u = "")); [done |].
    destruct (bool_decide (k = "")); [done |].
    by injection Hnew as <-. }
  by rewrite issued_post, issued_get.
Qed.

Lemma requests_carry_payload_and_headers_witness :
  issued (post example_client "/api/v1/articles" example_article_request)
         (mock 200 "{}")
  = [ {| Method := "POST"; URL := "http://warehouse/api/v1/articles";
         Header := {[ "Content-Type" := ["application/json"];
                      "Authorization" := ["Bearer secret"] ]};
         Body := Some (dq "{'title':'T','url':'https://x','tags':['a','b']}")
      |} ].
Proof.
  refine (proj1 (requests_carry_payload_and_headers
                   "http://warehouse" "secret" (mock 200 "") example_client
                   "/api/v1/articles" example_article_request (mock 200 "{}")
                   _)).
  reflexivity.
Defined.

(** ** The endpoints *)

Lemma getArticle_path (id : string) :
  Sprintf getArticleEndpoint [Str id] = "/api/v1/articles/" +:+ id.
Proof. simpl. by rewrite append_empty_r. Qed.

Lemma getPodcast_path (id : string) :
  Sprintf getPodcastEndpoint [Str id] = "/api/v1/podcasts/" +:+ id.
Proof. simpl. by rewrite append_empty_r. Qed.

Lemma searchArticles_path (tag : string) :
  Sprintf searchArticlesEndpoint [Str tag] = "/api/v1/articles/search/" +:+ tag.
Proof. simpl. by rewrite append_empty_r. Qed.

Lemma searchPodcasts_path (tag : string) :
  Sprintf searchPodcastsEndpoint [Str tag] = "/api/v1/podcasts/search/" +:+ tag.
Proof. simpl. by rewrite append_empty_r. Qed.

Lemma query_path (path : string) (page limit : Z) :
  Sprintf "%s?page=%d&limit=%d" [Str path; Int page; Int limit]
  = path +:+ "?page=" +:+ pretty page +:+ "&limit=" +:+ pretty limit.
Proof. simpl. by rewrite append_empty_r. Qed.

Lemma searchArticlesPaginated_path (tag : string) (page limit : Z) :
  Sprintf "%s?page=%d&limit=%d"
          [Str (Sprintf searchArticlesPaginatedEndpoint [Str tag]);
           Int page; Int limit]
  = "/api/v1/articles/search/" +:+ tag +:+ "/paginated?page=" +:+ pretty page
    +:+ "&limit=" +:+ pretty limit.
Proof.
  rewrite query_path.
  change (Sprintf searchArticlesPaginatedEndpoint [Str tag])
    with ("/api/v1/articles/search/" +:+ tag +:+ "/paginated" +:+ "").
  by rewrite append_empty_r, !append_assoc.
Qed.

Lemma searchPodcastsPaginated_path (tag : string) (page limit : Z) :
  Sprintf "%s?page=%d&limit=%d"
          [Str (Sprintf searchPodcastsPaginatedEndpoint [Str tag]);
           Int page; Int limit]
  = "/api/v1/podcasts/search/" +:+ tag +:+ "/paginated?page=" +:+ pretty page
    +:+ "&limit=" +:+ pretty limit.
Proof.
  rewrite query_path.
  change (Sprintf searchPodcastsPaginatedEndpoint [Str tag])
    with ("/api/v1/podcasts/search/" +:+ tag +:+ "/paginated" +:+ "").
  by rewrite append_empty_r, !append_assoc.
Qed.

(** ** Every typed operation is a [wrapper] *)

Ltac by_cases_of_run :=
  unfold wrapper, mbind, IO_bind, healthEndpoint, createArticleEndpoint,
    createPodcastEndpoint;
  match goal with
  | |- _ = (let '(_, _) := ?lower in _) =>
      destruct lower as [[? [?|]] ?]; [done |];
      by destruct (json_Unmarshal _ _)
  end.

Section Wrappers.
Context `{TimeParser}.

Lemma GetHealth_wrapper c w :
  GetHealth c w
  = wrapper "error retrieving health status: " Some (get c "/health") w.
Proof. unfold GetHealth. by_cases_of_run. Qed.

Lemma CreateArticle_wrapper c request w :
  CreateArticle c request w
  = wrapper "error creating article: " ArticleResponse_Article
            (post c "/api/v1/articles" request) w.
Proof.
  unfold CreateArticle. by_cases_of_run.
Qed.

Lemma GetArticle_wrapper c id w :
  GetArticle c id w
  = wrapper "error retrieving article: " ArticleResponse_Article
            (get c ("/api/v1/articles/" +:+ id)) w.
Proof.
  unfold GetArticle. rewrite getArticle_path.
  by_cases_of_run.
Qed.

Lemma SearchArticles_wrapper c tag w :
  SearchArticles c tag w
  = wrapper "error searching articles: " ArticlesResponse_Articles
            (get c ("/api/v1/articles/search/" +:+ tag)) w.
Proof.
  unfold SearchArticles. rewrite searchArticles_path.
  by_cases_of_run.
Qed.

Lemma SearchArticlesPaginated_wrapper c tag page limit w :
  SearchArticlesPaginated c tag page limit w
  = wrapper "error searching articles with pagination: " Some
            (get c ("/api/v1/articles/search/" +:+ tag +:+ "/paginated?page="
                    +:+ pretty page +:+ "&limit=" +:+ pretty limit)) w.
Proof.
  unfold SearchArticlesPaginated. rewrite searchArticlesPaginated_path.
  by_cases_of_run.
Qed.

Lemma CreatePodcast_wrapper c request w :
  CreatePodcast c request w
  = wrapper "error creating podcast: " PodcastResponse_Podcast
            (post c "/api/v1/podcasts" request) w.
Proof.
  unfold CreatePodcast. by_cases_of_run.
Qed.

Lemma GetPodcast_wrapper c id w :
  GetPodcast c id w
  = wrapper "error retrieving podcast: " PodcastResponse_Podcast
            (get c ("/api/v1/podcasts/" +:+ id)) w.
Proof.
  unfold GetPodcast. rewrite getPodcast_path.
  by_cases_of_run.
Qed.

Lemma SearchPodcasts_wrapper c tag w :
  SearchPodcasts c tag w
  = wrapper "error searching podcasts: " PodcastsResponse_Podcasts
            (get c ("/api/v1/podcasts/search/" +:+ tag)) w.
Proof.
  unfold SearchPodcasts. rewrite searchPodcasts_path.
  by_cases_of_run.
Qed.

Lemma SearchPodcastsPaginated_wrapper c tag page limit w :
  SearchPodcastsPaginated c tag page limit w
  = wrapper "error searching podcasts with pagination: " Some
            (get c ("/api/v1/podcasts/search/" +:+ tag +:+ "/paginated?page="
                    +:+ pretty page +:+ "&limit=" +:+ pretty limit)) w.
Proof.
  unfold SearchPodcastsPaginated. rewrite searchPodcastsPaginated_path.
  by_cases_of_run.
Qed.

Lemma wrapper_world `{Decoder T} `{Zero T} {R} context
    (extract : T -> option R) lower w :
  (wrapper context extract lower w).2 = (lower w).2.
Proof. unfold wrapper. by destruct (lower w) as [[? ?] ?]. Qed.

Lemma wrapper_issued `{Decoder T} `{Zero T} {R} context
    (extract : T -> option R) lower w :
  issued (wrapper context extract lower) w = issued lower w.
Proof. unfold issued. by rewrite wrapper_world. Qed.

Lemma issued_ext {A} (m m' : IO A) w : m w = m' w -> issued m w = issued m' w.
Proof. unfold issued. by intros ->. Qed.

(** C8.  The URL of a request is the base URL followed by the endpoint,
    byte for byte, for [get] and for [post]; [SearchArticles] and
    [SearchPodcasts] put the tag into the path as it is.  Nothing is
    escaped on the way: the string that is parsed and sent is this
    concatenation. *)
Theorem urls_are_concatenations `{Marshaler A} (c : Client) (w : World) :
  (forall endpoint,
     URL <$> issued (get c endpoint) w
     = match url_Parse w (url c +:+ endpoint) with
       | None => [url c +:+ endpoint]
       | Some _ => []
       end)
  /\ (forall endpoint (payload : A) jsonData,
        json_Marshal payload = inl jsonData ->
        URL <$> issued (post c endpoint payload) w
        = match url_Parse w (url c +:+ endpoint) with
          | None => [url c +:+ endpoint]
          | Some _ => []
          end)
  /\ (forall tag,
        URL <$> issued (SearchArticles c tag) w
        = match url_Parse w (url c +:+ "/api/v1/articles/search/" +:+ tag) with
          | None => [url c +:+ "/api/v1/articles/search/" +:+ tag]
          | Some _ => []
          end)
  /\ (forall tag,
        URL <$> issued (SearchPodcasts c tag) w
        = match url_Parse w (url c +:+ "/api/v1/podcasts/search/" +:+ tag) with
          | None => [url c +:+ "/api/v1/podcasts/search/" +:+ tag]
          | Some _ => []
          end).
Proof.
  split; [| split; [| split]].
  - intros endpoint. rewrite issued_get. by destruct (url_Parse w _).
  - intros endpoint payload jsonData Hjson.
    rewrite issued_post, Hjson. by destruct (url_Parse w _).
  - intros tag.
    rewrite (issued_ext _ _ _ (SearchArticles_wrapper c tag w)).
    rewrite wrapper_issued, issued_get. by destruct (url_Parse w _).
  - intros tag.
    rewrite (issued_ext _ _ _ (SearchPodcasts_wrapper c tag w)).
    rewrite wrapper_issued, issued_get. by destruct (url_Parse w _).
Qed.
End Wrappers.


Lemma urls_are_concatenations_witness :
  URL <$> issued (SearchArticles (H := example_times) example_client
                                 "a b/c?d=%&é")
                 (mock 200 "{}")
  = ["http://warehouse/api/v1/articles/search/a b/c?d=%&é"]
  /\ URL <$> issued (post example_client "/api/v1/articles"
                          example_article_request) (mock 200 "{}")
     = ["http://warehouse/api/v1/articles"].
Proof.
  pose proof (urls_are_concatenations (H := example_times)
                (A := CreateArticleRequest) example_client (mock 200 "{}"))
    as [_ [Hpost [Hsearch _]]].
  split.
  - apply Hsearch.
  - by apply (Hpost "/api/v1/articles" example_article_request
                (dq "{'title':'T','url':'https://x','tags':['a','b']}")).
Defined.

(** ** Answered requests *)

Lemma answered_get (c : Client) (endpoint : string) (w : World)
    (code : Z) (body : string) :
  answers w (request_of http_MethodGet c endpoint None) code body ->
  get c endpoint w
  = (outcome (fun err => err) (response_of code body),
     log (request_of http_MethodGet c endpoint None) w).
Proof.
  intros [Hurl Hanswer]. rewrite get_run. simpl in Hurl. rewrite Hurl.
  simpl. by rewrite Hanswer.
Qed.

Lemma answered_post `{Marshaler A} (c : Client) (endpoint : string)
    (payload : A) (jsonData : string) (w : World) (code : Z) (body : string) :
  json_Marshal payload = inl jsonData ->
  answers w (request_of http_MethodPost c endpoint (Some jsonData)) code body ->
  post c endpoint payload w
  = (outcome (wrapError "error reading response body: ")
             (response_of code body),
     log (request_of http_MethodPost c endpoint (Some jsonData)) w).
Proof.
  intros Hjson [Hurl Hanswer]. rewrite post_run, Hjson. simpl in Hurl.
  rewrite Hurl. simpl. by rewrite Hanswer.
Qed.

Lemma outcome_200 (wrap : error -> error) (body : string) :
  outcome wrap (response_of 200 body) = (Some body, None).
Proof. reflexivity. Qed.

Lemma wrapper_decoded `{Decoder T} `{Zero T} {R} (context : string)
    (extract : T -> option R) (lower : IO (option string * option error))
    (w w' : World) (body : string) (response : T) :
  lower w = ((Some body, None), w') ->
  json_Unmarshal body (zero : T) = inl response ->
  wrapper context extract lower w = ((extract response, None), w').
Proof. unfold wrapper. intros -> Hjson. simpl. by rewrite Hjson. Qed.

Lemma wrapper_undecoded `{Decoder T} `{Zero T} {R} (context : string)
    (extract : T -> option R) (lower : IO (option string * option error))
    (w w' : World) (body : string) (err : error) :
  lower w = ((Some body, None), w') ->
  json_Unmarshal body (zero : T) = inr err ->
  wrapper context extract lower w
  = ((None, Some (wrapError "error unmarshalling response data: " err)), w').
Proof. unfold wrapper. intros -> Hjson. simpl. by rewrite Hjson. Qed.

(** ** The decoder *)

Lemma decoding_left_id {A B} (v : A) (f : A -> decoding B) :
  (Continue v None ≫= f) = f v.
Proof. unfold mbind, decoding_bind. by destruct (f v). Qed.

Lemma decode_members_cons {T} (fields : field_table T) (key : string)
    (j : json) (rest : list (string * json)) (v v' : T) :
  match find_field fields (unquote key) with
  | Some f => f j v
  | None => mret v
  end = Continue v' None ->
  decode_members fields ((key, j) :: rest) v = decode_members fields rest v'.
Proof. simpl. intros ->. apply decoding_left_id. Qed.

Lemma find_field_elem {T} (fields : field_table T) (key : string) f :
  find_field fields key = Some f ->
  exists name, (name, f) ∈ fields /\ foldName name = foldName key.
Proof.
  unfold find_field. intros Hfind.
  destruct (list_find (fun f => f.1 = key) fields) as [[i [name g]]|] eqn:Hexact.
  - apply list_find_Some in Hexact as (Hi & Hname & _).
    simpl in *. injection Hfind as <-. subst key.
    exists name. split; [| done]. eapply list_elem_of_lookup_2, Hi.
  - destruct (list_find (fun f => foldName f.1 = foldName key) fields)
      as [[i [name g]]|] eqn:Hfold; [| done].
    apply list_find_Some in Hfold as (Hi & Hname & _).
    simpl in *. injection Hfind as <-.
    exists name. split; [| done]. eapply list_elem_of_lookup_2, Hi.
Qed.

Lemma find_field_none {T} (fields : field_table T) (key : string) :
  Forall (fun f => foldName f.1 ≠ foldName key) fields ->
  find_field fields key = None.
Proof.
  intros Hnone. destruct (find_field fields key) as [f|] eqn:Hfind; [| done].
  apply find_field_elem in Hfind as (name & Hin & Hname).
  rewrite Forall_forall in Hnone. by destruct (Hnone _ Hin).
Qed.

(** Keys that select no field leave the value as it is, without error. *)
Lemma decode_members_no_field {T} (fields : field_table T)
    (members : list (string * json)) (v : T) :
  Forall (fun m => find_field fields (unquote m.1) = None) members ->
  decode_members fields members v = Continue v None.
Proof.
  induction 1 as [|[key j] members Hkey _ IH]; [done |].
  rewrite (decode_members_cons fields key j members v v); [done |].
  simpl in Hkey. by rewrite Hkey.
Qed.

(** What every field that the keys can select preserves, decoding the
    members preserves. *)
Lemma decode_members_invariant {T} (fields : field_table T) (P : T -> Prop)
    (members : list (string * json)) :
  (forall key j f u u' saved,
     (key, j) ∈ members -> find_field fields (unquote key) = Some f ->
     P u -> f j u = Continue u' saved -> P u') ->
  forall v v' saved,
    P v -> decode_members fields members v = Continue v' saved -> P v'.
Proof.
  induction members as [|[key j] members IH]; intros Hfields v v' saved Hv.
  - by intros [= <- _].
  - simpl. unfold mbind at 1, decoding_bind.
    destruct (find_field fields (unquote key)) as [f|] eqn:Hfind.
    + destruct (f j v) as [|u s] eqn:Hf; [done |].
      destruct (decode_members fields members u) as [|u' s'] eqn:Hrest; [done |].
      intros [= <- _]. eapply IH; [| | exact Hrest].
      * intros. eapply Hfields; eauto. by right.
      * eapply Hfields; eauto. by left.
    + simpl.
      destruct (decode_members fields members v) as [|u' s'] eqn:Hrest; [done |].
      intros [= <- _]. eapply IH; [| exact Hv | exact Hrest].
      intros. eapply Hfields; eauto. by right.
Qed.

(** ** Decoding errors have the kind [DeserializationError] *)

Lemma sound_bind {A B} (m : decoding A) (f : A -> decoding B) :
  sound m -> (forall v, sound (f v)) -> sound (m ≫= f).
Proof.
  intros Hm Hf. unfold mbind, decoding_bind.
  destruct m as [err|v [err|]]; [done | |];
    specialize (Hf v); by destruct (f v) as [err'|v' [err'|]].
Qed.

Lemma sound_mismatch {A} (j : json) (v : A) : sound (mismatch j v).
Proof. done. Qed.

#[local] Instance string_sound : SoundDecoder string.
Proof. intros j v. by destruct j. Qed.

#[local] Instance int_sound : SoundDecoder Z.
Proof.
  intros j v. destruct j; try done.
  unfold decode, int_Decoder. by destruct (ParseInt _).
Qed.

#[local] Instance Time_sound `{TimeParser} : SoundDecoder Time.
Proof.
  intros j v. destruct j; try done.
  unfold decode, Time_Decoder. by destruct (parseStrictRFC3339 _).
Qed.

#[local] Instance pointer_sound `{SoundDecoder T} `{!Zero T}
  : SoundDecoder (option T).
Proof.
  intros j v. unfold decode, pointer_Decoder.
  destruct j; try done; (apply sound_bind; [apply decode_sound | done]).
Qed.

Lemma decode_elements_sound `{SoundDecoder T} `{!Zero T} elements old :
  sound (decode_elements elements old).
Proof.
  revert old. induction elements as [|j elements IH]; intros old; [done |].
  simpl. apply sound_bind; [apply decode_sound |].
  intros x. apply sound_bind; [apply IH | done].
Qed.

#[local] Instance slice_sound `{SoundDecoder T} `{!Zero T}
  : SoundDecoder (option (list T)).
Proof.
  intros j v. unfold decode, slice_Decoder. destruct j; try done.
  apply sound_bind; [apply decode_elements_sound | done].
Qed.

Lemma field_sound {T} `{SoundDecoder F} (get : T -> F) (set : F -> T -> T)
    j v :
  sound (field get set j v).
Proof. unfold field. apply sound_bind; [apply decode_sound | done]. Qed.

Lemma decode_struct_sound {T} (fields : field_table T) :
  Forall (fun f => forall j v, sound (f.2 j v)) fields ->
  @SoundDecoder T (decode_struct fields).
Proof.
  intros Hfields j v. unfold decode, decode_struct. destruct j; try done.
  revert v. induction members as [|[key j] members IH]; intros v; [done |].
  simpl. apply sound_bind; [| done].
  destruct (find_field fields (unquote key)) as [f|] eqn:Hfind; [| done].
  apply find_field_elem in Hfind as (name & Hin & _).
  rewrite Forall_forall in Hfields. apply (Hfields _ Hin).
Qed.

Ltac sound_table :=
  apply decode_struct_sound;
  repeat (apply Forall_cons; split; [intros; apply field_sound |]);
  by apply Forall_nil.

#[local] Instance Podcast_sound `{TimeParser} : SoundDecoder Podcast.
Proof. sound_table. Qed.
#[local] Instance Article_sound `{TimeParser} : SoundDecoder Article.
Proof. sound_table. Qed.
#[local] Instance PodcastResponse_sound `{TimeParser} : SoundDecoder PodcastResponse.
Proof. sound_table. Qed.
#[local] Instance ArticleResponse_sound `{TimeParser} : SoundDecoder ArticleResponse.
Proof. sound_table. Qed.
#[local] Instance PodcastsResponse_sound `{TimeParser} : SoundDecoder PodcastsResponse.
Proof. sound_table. Qed.
#[local] Instance ArticlesResponse_sound `{TimeParser} : SoundDecoder ArticlesResponse.
Proof. sound_table. Qed.
#[local] Instance PaginatedPodcastsResponse_sound `{TimeParser}
  : SoundDecoder PaginatedPodcastsResponse.
Proof. sound_table. Qed.
#[local] Instance PaginatedArticlesResponse_sound `{TimeParser}
  : SoundDecoder PaginatedArticlesResponse.
Proof. sound_table. Qed.
#[local] Instance HealthResponse_sound `{TimeParser} : SoundDecoder HealthResponse.
Proof. sound_table. Qed.

Lemma json_Unmarshal_kind `{SoundDecoder T} (text : string) (v : T)
    (err : error) :
  json_Unmarshal text v = inr err -> kind_of err = DeserializationError.
Proof.
  unfold json_Unmarshal. destruct (parse_json text) as [j|]; [| by intros [= <-]].
  pose proof (decode_sound j v) as Hsound.
  destruct (decode j v) as [e|v' [e|]]; [| | done]; by intros [= <-].
Qed.

Lemma json_Unmarshal_syntax `{Decoder T} (text : string) (v : T) :
  parse_json text = None -> json_Unmarshal text v = inr json_SyntaxError.
Proof. unfold json_Unmarshal. by intros ->. Qed.

(** ** The errors of the primitives *)

Lemma outcome_kind (wrap : error -> error) (res : Response) (err : error) :
  (forall e, kind_of (wrap e) = kind_of e) ->
  (outcome wrap res).2 = Some err ->
  kind_of err = TransportError \/ kind_of err = UnexpectedStatus.
Proof.
  intros Hwrap. unfold outcome.
  destruct (failure (ResponseBody res)) as [text|].
  - intros [= <-]. left. by rewrite Hwrap.
  - destruct (bool_decide (StatusCode res = 200)); [done |].
    intros [= <-]. by right.
Qed.

Lemma get_error_kind (c : Client) (endpoint : string) (w : World)
    (err : error) :
  (get c endpoint w).1.2 = Some err ->
  kind_of err = TransportError \/ kind_of err = UnexpectedStatus.
Proof.
  rewrite get_run. destruct (url_Parse w _) as [text|].
  - intros [= <-]. by left.
  - simpl. destruct (RoundTrip w _ _) as [res|text].
    + by apply outcome_kind.
    + intros [= <-]. by left.
Qed.


Lemma got_200 (c : Client) (endpoint : string) (w : World) (body : string) :
  answers w (request_of http_MethodGet c endpoint None) 200 body ->
  get c endpoint w
  = ((Some body, None), log (request_of http_MethodGet c endpoint None) w).
Proof. intros Hanswer. by rewrite (answered_get _ _ _ _ _ Hanswer). Qed.

Lemma posted_200 `{Marshaler A} (c : Client) (endpoint : string)
    (payload : A) (jsonData : string) (w : World) (body : string) :
  json_Marshal payload = inl jsonData ->
  answers w (request_of http_MethodPost c endpoint (Some jsonData)) 200 body ->
  post c endpoint payload w
  = ((Some body, None),
     log (request_of http_MethodPost c endpoint (Some jsonData)) w).
Proof.
  intros Hjson Hanswer. by rewrite (answered_post _ _ _ _ _ _ _ Hjson Hanswer).
Qed.

Section Results.
Context `{TimeParser}.

(** C5.  A 200 response whose body is the object with the one member
    [articles], an empty array, makes [SearchArticles] return a slice that
    is empty and not nil, and no error. *)
Theorem empty_search_is_not_an_error (c : Client) (tag : string) (w : World)
    (body : string) :
  answers w (request_of "GET" c ("/api/v1/articles/search/" +:+ tag) None)
          200 body ->
  parse_json body = Some (JObject [("articles", JArray [])]) ->
  (SearchArticles c tag w).1 = (Some [], None).
Proof.
  intros Hanswer Hparse.
  pose proof (got_200 _ _ _ _ Hanswer) as Hget.
  rewrite SearchArticles_wrapper.
  rewrite (wrapper_decoded _ _ _ _ _ _
             {| ArticlesResponse_Articles := Some [] |} Hget); [done |].
  unfold json_Unmarshal. by rewrite Hparse.
Qed.

(** C7.  [SearchPodcastsPaginated] sends its GET request to
    [/api/v1/podcasts/search/{tag}/paginated?page={page}&limit={limit}]
    for every tag, page and limit, the two numbers in decimal; it checks
    neither.  When the answer is a 200 response whose body is the object
    with two podcasts, total 37, page 1 and limit 20, the call for
    [tech], page 1, limit 20 returns these two podcasts and these three
    numbers, and no error. *)
Theorem paginated_podcast_search (c : Client) (w : World) :
  (forall tag page limit,
     issued (SearchPodcastsPaginated c tag page limit) w
     = let path := "/api/v1/podcasts/search/" +:+ tag +:+ "/paginated?page="
                   +:+ pretty page +:+ "&limit=" +:+ pretty limit in
       match url_Parse w (url c +:+ path) with
       | None => [request_of "GET" c path None]
       | Some _ => []
       end)
  /\ (forall body j1 j2 p1 p2,
        answers w (request_of "GET" c
                     "/api/v1/podcasts/search/tech/paginated?page=1&limit=20"
                     None) 200 body ->
        parse_json body
        = Some (JObject [("podcasts", JArray [j1; j2]);
                         ("total", JNumber "37"); ("page", JNumber "1");
                         ("limit", JNumber "20")]) ->
        decode j1 (zero : Podcast) = Continue p1 None ->
        decode j2 (zero : Podcast) = Continue p2 None ->
        (SearchPodcastsPaginated c "tech" 1 20 w).1
        = (Some {| PaginatedPodcastsResponse_Podcasts := Some [p1; p2];
                   PaginatedPodcastsResponse_Total := 37;
                   PaginatedPodcastsResponse_Page := 1;
                   PaginatedPodcastsResponse_Limit := 20 |}, None)).
Proof.
  split.
  - intros tag page limit.
    rewrite (issued_ext _ _ _ (SearchPodcastsPaginated_wrapper c tag page limit w)).
    by rewrite wrapper_issued, issued_get.
  - intros body j1 j2 p1 p2 Hanswer Hparse Hp1 Hp2.
    pose proof (got_200 _ _ _ _ Hanswer) as Hget.
    rewrite SearchPodcastsPaginated_wrapper.
    rewrite (wrapper_decoded _ _ _ _ _ _
               {| PaginatedPodcastsResponse_Podcasts := Some [p1; p2];
                  PaginatedPodcastsResponse_Total := 37;
                  PaginatedPodcastsResponse_Page := 1;
                  PaginatedPodcastsResponse_Limit := 20 |} Hget); [done |].
    unfold json_Unmarshal. rewrite Hparse.
    unfold decode, PaginatedPodcastsResponse_Decoder, decode_struct.
    erewrite decode_members_cons; cycle 1.
    { change (find_field _ (unquote "podcasts")) with
        (Some (field PaginatedPodcastsResponse_Podcasts (fun x r =>
         {| PaginatedPodcastsResponse_Podcasts := x;
            PaginatedPodcastsResponse_Total := PaginatedPodcastsResponse_Total r;
            PaginatedPodcastsResponse_Page := PaginatedPodcastsResponse_Page r;
            PaginatedPodcastsResponse_Limit := PaginatedPodcastsResponse_Limit r
         |}))).
      unfold field, decode at 1, slice_Decoder. simpl decode_elements.
      change (default zero (head (default [] _))) with (zero : Podcast).
      rewrite Hp1, decoding_left_id.
      change (default zero (head (tail (default [] _)))) with (zero : Podcast).
      rewrite Hp2, !decoding_left_id. reflexivity. }
    reflexivity.
Qed.
End Results.
Section Articles.
Context `{TimeParser}.

(** The fields of an article other than [id], [title] and [tags] leave
    these three as they are. *)
Lemma Article_fields_keep (key : string) (j : json) f (u u' : Article) saved :
  find_field Article_fields key = Some f ->
  foldName key ∉ ["ID"; "TITLE"; "TAGS"] ->
  f j u = Continue u' saved ->
  Article_ID u' = Article_ID u /\ Article_Title u' = Article_Title u
  /\ Article_Tags u' = Article_Tags u.
Proof.
  intros Hfind Hkey Hf.
  apply find_field_elem in Hfind as (name & Hin & Hname).
  unfold Article_fields in Hin.
  repeat (apply elem_of_cons in Hin as [Hin|Hin]);
    try (by apply elem_of_nil in Hin);
    injection Hin as -> ->;
    try (exfalso; apply Hkey; rewrite <- Hname; set_solver);
    unfold field in Hf;
    match type of Hf with
    | (?m ≫= _) = _ => destruct m as [|x s]; [done |]
    end;
    by injection Hf as <- _.
Qed.

(** C4.  A 200 response whose body is the envelope of an article with the
    members [id] 1, [title] T, [url] https://x and [tags] a, b, followed
    by any members that are not one of [id], [title], [tags] again and
    that decode without error, makes [GetArticle] return that article,
    with ID 1, title T and tags a, b, and no error. *)
Theorem GetArticle_round_trip (c : Client) (w : World) (body : string)
    (rest : list (string * json)) (a : Article) :
  answers w (request_of "GET" c "/api/v1/articles/1" None) 200 body ->
  parse_json body
  = Some (JObject
            [("article",
              JObject ([("id", JString "1"); ("title", JString "T");
                        ("url", JString "https://x");
                        ("tags", JArray [JString "a"; JString "b"])]
                       ++ rest))]) ->
  Forall (fun m => foldName (unquote m.1) ∉ ["ID"; "TITLE"; "TAGS"]) rest ->
  decode_members Article_fields rest
    {| Article_ID := "1"; Article_Title := "T"; Article_Description := "";
       Article_URL := "https://x"; Article_Tags := Some ["a"; "b"];
       Article_CreatedAt := zero; Article_UpdatedAt := zero |}
  = Continue a None ->
  (GetArticle c "1" w).1 = (Some a, None)
  /\ Article_ID a = "1" /\ Article_Title a = "T"
  /\ Article_Tags a = Some ["a"; "b"].
Proof.
  intros Hanswer Hparse Hkeys Hrest. split.
  - pose proof (got_200 _ _ _ _ Hanswer) as Hget.
    rewrite GetArticle_wrapper.
    rewrite (wrapper_decoded _ _ _ _ _ _
               {| ArticleResponse_Article := Some a |} Hget); [done |].
    unfold json_Unmarshal. rewrite Hparse.
    assert (decode (JObject ([("id", JString "1"); ("title", JString "T");
                              ("url", JString "https://x");
                              ("tags", JArray [JString "a"; JString "b"])]
                             ++ rest)) (zero : Article)
            = Continue a None) as Harticle.
    { unfold decode at 1, Article_Decoder, decode_struct. simpl app.
      do 4 (erewrite decode_members_cons; [| vm_compute; reflexivity]).
      exact Hrest. }
    unfold decode, ArticleResponse_Decoder, decode_struct.
    erewrite decode_members_cons; [reflexivity |].
    change (find_field _ (unquote "article")) with
      (Some (field ArticleResponse_Article (fun x (_ : ArticleResponse) =>
               {| ArticleResponse_Article := x |}))).
    unfold field, decode at 1, pointer_Decoder.
    change (default zero (ArticleResponse_Article zero)) with (zero : Article).
    by rewrite Harticle.
  - revert Hrest.
    apply (decode_members_invariant Article_fields
             (fun u => Article_ID u = "1" /\ Article_Title u = "T"
                       /\ Article_Tags u = Some ["a"; "b"])); [| done].
    intros key j f u u' saved Hin Hfind (Hid & Htitle & Htags) Hf.
    rewrite Forall_forall in Hkeys.
    destruct (Article_fields_keep _ _ _ _ _ _ Hfind (Hkeys _ Hin) Hf)
      as (-> & -> & ->).
    done.
Qed.
End Articles.

(** ** Failures *)



Section Failures.
Context `{TimeParser}.

End Failures.

(** ** Envelopes without their key *)

Lemma envelope_without_key {T} (name : string) f (j : json) (v : T) :
  lacks_key name j -> decode_struct [(name, f)] j v = Continue v None.
Proof.
  intros [-> | (members & -> & Hkeys)]; [done |].
  unfold decode_struct. apply decode_members_no_field.
  eapply Forall_impl; [exact Hkeys |].
  intros [key j] Hkey. apply find_field_none.
  apply Forall_cons. split; [| by apply Forall_nil].
  simpl in *. congruence.
Qed.

(** Two payloads that are encoded, and whose requests the world answers
    alike, have the same result of [post]. *)
Lemma post_answered_alike {A B : Type} `{!Marshaler A} `{!Marshaler B}
    (c : Client) (endpoint : string) (a : A) (b : B) (da db : string)
    (w : World) :
  json_Marshal a = inl da -> json_Marshal b = inl db ->
  RoundTrip w (sent w) (request_of "POST" c endpoint (Some da))
  = RoundTrip w (sent w) (request_of "POST" c endpoint (Some db)) ->
  (post c endpoint a w).1 = (post c endpoint b w).1.
Proof.
  intros Ha Hb Halike. rewrite !post_run, Ha, Hb.
  destruct (url_Parse w _); [done |].
  unfold http_MethodPost. simpl. rewrite Halike. clear Halike.
  by destruct (RoundTrip w _ _).
Qed.

Section Envelopes.
Context `{TimeParser}.

Lemma ArticleResponse_without_key (body : string) (j : json) :
  parse_json body = Some j -> lacks_key "article" j ->
  json_Unmarshal body (zero : ArticleResponse) = inl zero.
Proof.
  intros Hparse Hlacks. unfold json_Unmarshal. rewrite Hparse.
  unfold decode, ArticleResponse_Decoder.
  by rewrite (envelope_without_key _ _ _ _ Hlacks).
Qed.

Lemma PodcastResponse_without_key (body : string) (j : json) :
  parse_json body = Some j -> lacks_key "podcast" j ->
  json_Unmarshal body (zero : PodcastResponse) = inl zero.
Proof.
  intros Hparse Hlacks. unfold json_Unmarshal. rewrite Hparse.
  unfold decode, PodcastResponse_Decoder.
  by rewrite (envelope_without_key _ _ _ _ Hlacks).
Qed.

(** C9.  When the body of a 200 response is a JSON text without the key
    of the envelope, [GetArticle], [CreateArticle], [GetPodcast] and
    [CreatePodcast] return a nil entity and a nil error.  A text without
    the key is one the decoder finds no value for the field in: a JSON
    object none of whose keys is the key of the envelope, keys being
    compared as encoding/json compares them, or [null]. *)
Theorem missing_envelope_key_gives_nil (c : Client) (w : World)
    (body : string) (j : json) :
  parse_json body = Some j ->
  (lacks_key "article" j ->
     (forall id,
        answers w (request_of "GET" c ("/api/v1/articles/" +:+ id) None)
                200 body ->
        (GetArticle c id w).1 = (None, None))
     /\ (forall request jsonData,
           json_Marshal request = inl jsonData ->
           answers w (request_of "POST" c "/api/v1/articles" (Some jsonData))
                   200 body ->
           (CreateArticle c request w).1 = (None, None)))
  /\ (lacks_key "podcast" j ->
        (forall id,
           answers w (request_of "GET" c ("/api/v1/podcasts/" +:+ id) None)
                   200 body ->
           (GetPodcast c id w).1 = (None, None))
        /\ (forall request jsonData,
              json_Marshal request = inl jsonData ->
              answers w (request_of "POST" c "/api/v1/podcasts" (Some jsonData))
                      200 body ->
              (CreatePodcast c request w).1 = (None, None))).
Proof.
  intros Hparse. split; intros Hlacks; split.
  - intros id Hanswer. rewrite GetArticle_wrapper.
    by rewrite (wrapper_decoded _ _ _ _ _ _ _ (got_200 _ _ _ _ Hanswer)
                  (ArticleResponse_without_key _ _ Hparse Hlacks)).
  - intros request jsonData Hjson Hanswer. rewrite CreateArticle_wrapper.
    by rewrite (wrapper_decoded _ _ _ _ _ _ _
                  (posted_200 _ _ _ _ _ _ Hjson Hanswer)
                  (ArticleResponse_without_key _ _ Hparse Hlacks)).
  - intros id Hanswer. rewrite GetPodcast_wrapper.
    by rewrite (wrapper_decoded _ _ _ _ _ _ _ (got_200 _ _ _ _ Hanswer)
                  (PodcastResponse_without_key _ _ Hparse Hlacks)).
  - intros request jsonData Hjson Hanswer. rewrite CreatePodcast_wrapper.
    by rewrite (wrapper_decoded _ _ _ _ _ _ _
                  (posted_200 _ _ _ _ _ _ Hjson Hanswer)
                  (PodcastResponse_without_key _ _ Hparse Hlacks)).
Qed.

(** C10.  Take a request of the older [CreateArticle] that
    [json.Marshal] encodes, a request of the typed [CreateArticle], and a
    world that answers the two requests alike.  Whenever the older
    variant fails, the typed one fails with the same error, a wrapping
    under [error creating article: ].  The older variant succeeds exactly
    when [post] does; the typed one succeeds exactly when [post] does and
    the body decodes into the envelope.  So the typed variant fails
    wherever the older one does.  A request of the older variant that
    [json.Marshal] refuses is left out: on it the older variant fails
    alone. *)
Theorem typed_CreateArticle_refines_legacy {L : Type} `{!Marshaler L}
    (c : Client) (legacy : L) (jsonData : string)
    (typed : CreateArticleRequest) (w : World) :
  let typedData :=
    encode_request (CreateArticleRequest_Title typed)
                   (CreateArticleRequest_Description typed)
                   (CreateArticleRequest_URL typed)
                   (CreateArticleRequest_Tags typed) in
  json_Marshal legacy = inl jsonData ->
  RoundTrip w (sent w) (request_of "POST" c "/api/v1/articles" (Some jsonData))
  = RoundTrip w (sent w)
              (request_of "POST" c "/api/v1/articles" (Some typedData)) ->
  (forall err,
     (Legacy.CreateArticle c legacy w).1 = Some err ->
     (CreateArticle c typed w).1 = (None, Some err)
     /\ exists cause, err = wrapError "error creating article: " cause)
  /\ ((Legacy.CreateArticle c legacy w).1 = None
      <-> (post c "/api/v1/articles" legacy w).1.2 = None)
  /\ ((CreateArticle c typed w).1.2 = None
      <-> exists response,
            (post c "/api/v1/articles" typed w).1.2 = None
            /\ json_Unmarshal (bytes (post c "/api/v1/articles" typed w).1.1)
                              (zero : ArticleResponse) = inl response)
  /\ ((Legacy.CreateArticle c legacy w).1 ≠ None ->
      (CreateArticle c typed w).1.2 ≠ None).
Proof.
  intros typedData Hjson Halike.
  pose proof (post_answered_alike c "/api/v1/articles" legacy typed jsonData
                typedData w Hjson eq_refl Halike) as Hsame.
  rewrite CreateArticle_wrapper.
  unfold Legacy.CreateArticle, wrapper, mbind, IO_bind, createArticleEndpoint.
  destruct (post c "/api/v1/articles" legacy w) as [[data1 err1] w1].
  destruct (post c "/api/v1/articles" typed w) as [[data2 err2] w2].
  simpl in *. injection Hsame as -> ->.
  destruct err2 as [err|]; simpl.
  - repeat match goal with |- _ /\ _ => split end.
    + intros ? [= <-]. eauto.
    + done.
    + split; [done | by intros (? & ? & ?)].
    + done.
  - destruct (json_Unmarshal (bytes data2) zero) as [response|err] eqn:Hdecode;
      simpl; repeat match goal with |- _ /\ _ => split end; try done.
    + split; [eauto | done].
    + split; [done | by intros (? & _ & ?)].
Qed.
End Envelopes.

(** ** The decoder can unquote what the scanner has accepted *)

Lemma quoted_step_high (c : ascii) :
  0x80 <= byte c -> quoted_step QPlain c = Some QPlain.
Proof.
  intros Hhigh. unfold quoted_step.
  rewrite !bool_decide_eq_false_2.
  - destruct (Z.ltb_spec (byte c) 32); [lia | done].
  - intros ->. vm_compute in Hhigh. by apply Hhigh.
  - intros ->. vm_compute in Hhigh. by apply Hhigh.
Qed.

Lemma between_high (lo hi b : Z) :
  0x80 <= lo -> between lo hi b = true -> 0x80 <= b.
Proof. unfold between. intros Hlo [Hb _]%andb_prop. lia. Qed.

Lemma first_byte_high (b : Z) (size : nat) (lo hi : Z) :
  first_byte b = Some (size, lo, hi) ->
  0x80 <= lo /\ (size = 2 \/ size = 3 \/ size = 4)%nat.
Proof.
  unfold first_byte.
  repeat case_match; intros [= <- <- <-]; split; lia.
Qed.

(** After the first byte of a rune of several bytes come its other bytes,
    all of them plain to the scanner. *)
Lemma DecodeRune_accepts (c : ascii) (rest : string) (rr : Z) (size : nat) :
  0x80 <= byte c ->
  DecodeRune (String c rest) = (rr, size) ->
  accepts (size - 1) QPlain rest.
Proof.
  intros Hhigh. unfold DecodeRune.
  destruct (Z.ltb_spec (byte c) 0x80) as [|_]; [lia |].
  destruct (first_byte (byte c)) as [[[n lo] hi]|] eqn:Hfirst;
    [| by intros [= <- <-]].
  apply first_byte_high in Hfirst as [Hlo [-> | [-> | ->]]].
  - destruct rest as [|c1 rest]; [by intros [= <- <-] |].
    destruct (between lo hi (byte c1)) eqn:H1; intros [= <- <-]; [| done].
    cbn [accepts Nat.sub]. by rewrite (quoted_step_high c1 (between_high _ _ _ Hlo H1)).
  - destruct rest as [|c1 [|c2 rest]]; try by intros [= <- <-].
    destruct (between lo hi (byte c1)) eqn:H1; simpl;
      [| by intros [= <- <-]].
    destruct (is_tail c2) eqn:H2; intros [= <- <-]; [| done].
    cbn [accepts Nat.sub]. rewrite (quoted_step_high c1 (between_high _ _ _ Hlo H1)).
    by rewrite (quoted_step_high c2 (between_high 0x80 _ _ ltac:(lia) H2)).
  - destruct rest as [|c1 [|c2 [|c3 rest]]]; try by intros [= <- <-].
    destruct (between lo hi (byte c1)) eqn:H1; simpl;
      [| by intros [= <- <-]].
    destruct (is_tail c2) eqn:H2; simpl; [| by intros [= <- <-]].
    destruct (is_tail c3) eqn:H3; intros [= <- <-]; [| done].
    cbn [accepts Nat.sub]. rewrite (quoted_step_high c1 (between_high _ _ _ Hlo H1)).
    rewrite (quoted_step_high c2 (between_high 0x80 _ _ ltac:(lia) H2)).
    by rewrite (quoted_step_high c3 (between_high 0x80 _ _ ltac:(lia) H3)).
Qed.

Lemma accepts_chain (n m : nat) (st : quoted_state) (s : string) :
  accepts n st s -> accepts m QPlain (drop_string n s) ->
  accepts (n + m) st s.
Proof.
  revert st s. induction n as [|n IH]; intros st s.
  - simpl. intros ->. by destruct s.
  - destruct s as [|c rest]; [done |]. cbn [accepts drop_string Nat.add].
    destruct (quoted_step st c); [apply IH | done].
Qed.

(** A [\u] escape with its four digits is six bytes the scanner reads
    from a plain byte to a plain byte. *)
Lemma getu4_accepts (s : string) (rr : Z) :
  getu4 s = Some rr -> accepts 6 QPlain s.
Proof.
  unfold getu4.
  destruct s as [|c0 [|c1 [|h1 [|h2 [|h3 [|h4 rest]]]]]]; try done.
  repeat case_bool_decide; simpl; try done. subst c0 c1.
  destruct (is_hex h1) eqn:H1, (is_hex h2) eqn:H2, (is_hex h3) eqn:H3,
           (is_hex h4) eqn:H4; simpl; try done.
  intros _.
  change (accepts 4 (QUnicode 4)
            (String h1 (String h2 (String h3 (String h4 rest))))).
  cbn [accepts quoted_step]. rewrite H1.
  cbn [accepts quoted_step]. rewrite H2.
  cbn [accepts quoted_step]. rewrite H3.
  cbn [accepts quoted_step]. by rewrite H4.
Qed.

Lemma quoted_digits_getu4 (rest : string) :
  quoted_run (QUnicode 4) rest = Some QPlain ->
  is_Some (getu4 (String "\" (String "u" rest))).
Proof.
  destruct rest as [|h1 [|h2 [|h3 [|h4 rest]]]];
    cbn [quoted_run quoted_step mbind option_bind]; try done;
    destruct (is_hex h1) eqn:H1; cbn [mbind option_bind quoted_run quoted_step];
    try done;
    destruct (is_hex h2) eqn:H2; cbn [mbind option_bind quoted_run quoted_step];
    try done;
    destruct (is_hex h3) eqn:H3; cbn [mbind option_bind quoted_run quoted_step];
    try done.
  destruct (is_hex h4) eqn:H4; [| done]. intros _.
  unfold getu4. rewrite H1, H2, H3, H4. by eexists.
Qed.

Lemma fmap_is_Some_2 {A B} (f : A -> B) (x : option A) :
  is_Some x -> is_Some (f <$> x).
Proof. intros [a ->]. by eexists. Qed.

(** Where the scanner has accepted the inside of a string literal,
    [unquoteBytes] does not give up. *)
Lemma unquoteBytes_from_accepted (s : string) :
  forall skip st,
    accepts skip st s -> quoted_run st s = Some QPlain ->
    is_Some (unquoteBytes_from skip s).
Proof.
  induction s as [|c rest IH]; intros skip st Haccepts Hrun; [by eexists |].
  cbn [quoted_run] in Hrun.
  destruct (quoted_step st c) as [st1|] eqn:Hstep; [| done].
  cbn [mbind option_bind] in Hrun.
  destruct skip as [|n].
  - cbn [accepts] in Haccepts. subst st. cbn [unquoteBytes_from].
    unfold quoted_step in Hstep.
    case_bool_decide as Hquote; [done |].
    case_bool_decide as Hbackslash.
    + injection Hstep as <-.
      destruct rest as [|e rest']; [done |].
      cbn [quoted_run] in Hrun.
      destruct (quoted_step QEscape e) as [st2|] eqn:Hescape; [| done].
      cbn [mbind option_bind] in Hrun.
      unfold quoted_step in Hescape.
      case_bool_decide as Hsimple.
      * injection Hescape as <-.
        assert (e ≠ "u"%char) as Hu.
        { intros ->.
          assert (bool_decide ("u"%char ∈ ["b"; "f"; "n"; "r"; "t"; "\"; "/";
                                           quote]%char) = false) as Hno
            by reflexivity.
          by apply bool_decide_eq_false in Hno. }
        rewrite (bool_decide_eq_false_2 _ Hu).
        assert (bool_decide (e ∈ [quote; "\"; "/"; "'"; "b"; "f"; "n"; "r";
                                  "t"]%char) = true) as ->.
        { clear -Hsimple.
          repeat (apply elem_of_cons in Hsimple as [-> | Hsimple]);
            try reflexivity.
          by apply elem_of_nil in Hsimple. }
        assert (quoted_step QEscape e = Some QPlain) as Hescape.
        { unfold quoted_step. by rewrite (bool_decide_eq_true_2 _ Hsimple). }
        clear Hsimple.
        apply fmap_is_Some_2, (IH 1%nat QEscape).
        -- cbn [accepts]. by rewrite Hescape.
        -- cbn [quoted_run]. by rewrite Hescape.
      * case_bool_decide as Hu; [| done]. injection Hescape as <-. subst c e.
        destruct (quoted_digits_getu4 rest' Hrun) as [rr Hrr]. rewrite Hrr.
        assert (accepts 5 QEscape (String "u" rest')) as Hfive.
        { apply getu4_accepts in Hrr. exact Hrr. }
        assert (quoted_run QEscape (String "u" rest') = Some QPlain) as Hrest.
        { exact Hrun. }
        destruct (utf16_IsSurrogate rr); [| by apply fmap_is_Some_2, (IH 5%nat QEscape)].
        case_bool_decide as Hpair; [| by apply fmap_is_Some_2, (IH 5%nat QEscape)].
        apply fmap_is_Some_2, (IH 11%nat QEscape); [| done].
        destruct (getu4 (drop_string 6 (String "\" (String "u" rest'))))
          as [rr1|] eqn:Hrr1; [| done].
        apply getu4_accepts in Hrr1.
        by apply (accepts_chain 5 6).
    + destruct (Z.ltb_spec (byte c) 32) as [|Hprint]; [done |].
      injection Hstep as <-. cbn [orb].
      destruct (Z.ltb_spec (byte c) 0x80) as [|Hhigh].
      * by apply fmap_is_Some_2, (IH 0%nat QPlain).
      * destruct (DecodeRune (String c rest)) as [rr size] eqn:Hrune.
        apply fmap_is_Some_2, (IH (size - 1)%nat QPlain); [| done].
        by apply (DecodeRune_accepts c rest rr size).
  - cbn [accepts] in Haccepts. rewrite Hstep in Haccepts.
    cbn [unquoteBytes_from]. by apply (IH n st1).
Qed.

Lemma well_quoted_unquotes (raw : string) :
  well_quoted raw -> unquoteBytes raw = Some (unquote raw).
Proof.
  intros Hraw. unfold unquote, unquoteBytes.
  by destruct (unquoteBytes_from_accepted raw 0%nat QPlain eq_refl Hraw)
    as [s ->].
Qed.

(** The scanner hands on only well quoted strings. *)

Lemma string_of_list_snoc (l : list ascii) (c : ascii) :
  string_of_list_ascii (l ++ [c])
  = string_of_list_ascii l +:+ String c EmptyString.
Proof.
  induction l as [|x l IH]; [done |].
  change (String x (string_of_list_ascii (l ++ [c]))
          = String x (string_of_list_ascii l +:+ String c EmptyString)).
  by rewrite IH.
Qed.

Lemma finish_cons (c : ascii) (acc : list ascii) :
  finish (c :: acc) = finish acc +:+ String c EmptyString.
Proof. unfold finish. simpl. apply string_of_list_snoc. Qed.

Lemma quoted_run_snoc (s : string) (c : ascii) :
  forall st,
    quoted_run st (s +:+ String c EmptyString)
    = quoted_run st s ≫= fun st' => quoted_step st' c.
Proof.
  induction s as [|x s IH]; intros st.
  - change (quoted_run st (String c EmptyString)
            = Some st ≫= fun st' => quoted_step st' c).
    cbn [quoted_run mbind option_bind]. by destruct (quoted_step st c).
  - change (quoted_run st (String x (s +:+ String c EmptyString))
            = quoted_run st (String x s) ≫= fun st' => quoted_step st' c).
    cbn [quoted_run]. destruct (quoted_step st x); [apply IH | done].
Qed.

Lemma quoted_run_cons (acc : list ascii) (c : ascii) (st st' : quoted_state) :
  quoted_run QPlain (finish acc) = Some st ->
  quoted_step st c = Some st' ->
  quoted_run QPlain (finish (c :: acc)) = Some st'.
Proof. intros Hrun Hstep. by rewrite finish_cons, quoted_run_snoc, Hrun. Qed.

Lemma lex_idle_ok (c : ascii) (st : lex_state) (toks : list token) :
  lex_idle c = Some (st, toks) -> lex_ok st /\ Forall token_ok toks.
Proof.
  unfold lex_idle.
  repeat case_match; intros [= <- <-]; split; try done;
    by repeat constructor.
Qed.

Lemma lex_step_ok (st : lex_state) (c : ascii) (st' : lex_state)
    (toks : list token) :
  lex_ok st -> lex_step st c = Some (st', toks) ->
  lex_ok st' /\ Forall token_ok toks.
Proof.
  destruct st as [|acc|acc|acc missing|acc num|tok expect]; simpl; intros Hok.
  - apply lex_idle_ok.
  - case_bool_decide as Hquote; [intros [= <- <-]; by repeat constructor |].
    case_bool_decide as Hbackslash.
    + intros [= <- <-]. split; [| done]. simpl.
      apply (quoted_run_cons _ _ _ _ Hok). unfold quoted_step.
      by rewrite bool_decide_eq_false_2, bool_decide_eq_true_2.
    + destruct (byte c <? 32) eqn:Hprint; [done |].
      intros [= <- <-]. split; [| done]. simpl.
      apply (quoted_run_cons _ _ _ _ Hok). unfold quoted_step.
      by rewrite !bool_decide_eq_false_2, Hprint.
  - case_bool_decide as Hsimple.
    + intros [= <- <-]. split; [| done]. simpl.
      apply (quoted_run_cons _ _ _ _ Hok). unfold quoted_step.
      by rewrite bool_decide_eq_true_2.
    + case_bool_decide as Hu; [| done].
      intros [= <- <-]. split; [| done]. simpl.
      apply (quoted_run_cons _ _ _ _ Hok). unfold quoted_step.
      by rewrite bool_decide_eq_false_2, bool_decide_eq_true_2.
  - destruct (is_hex c) eqn:Hhex; [| done].
    destruct missing as [|[|n]]; intros [= <- <-]; (split; [| done]); simpl;
      apply (quoted_run_cons _ _ _ _ Hok); unfold quoted_step;
      by rewrite Hhex.
  - destruct (num_step num c); [by intros [= <- <-] |].
    destruct (num_done num); [| done].
    destruct (lex_idle c) as [[st1 toks1]|] eqn:Hidle; [| done].
    simpl. intros [= <- <-].
    apply lex_idle_ok in Hidle as [? ?]. split; [done |].
    by constructor.
  - destruct expect as [|e rest]; [done |].
    case_bool_decide; [| done].
    destruct rest; intros [= <- <-]; split; try done; by constructor.
Qed.

Lemma lex_tokens_ok (text : string) :
  forall st toks,
    lex_ok st -> lex st text = Some toks -> Forall token_ok toks.
Proof.
  induction text as [|c text IH]; intros st toks Hok.
  - simpl. unfold lex_end.
    destruct st; try done; try by intros [= <-].
    destruct (num_done st); [| done]. intros [= <-]. by repeat constructor.
  - simpl. destruct (lex_step st c) as [[st1 toks1]|] eqn:Hstep; [| done].
    simpl. destruct (lex st1 text) as [toks2|] eqn:Hrest; [| done].
    simpl. intros [= <-].
    apply (lex_step_ok _ _ _ _ Hok) in Hstep as [Hok1 Htoks1].
    apply Forall_app. split; [done |]. by apply (IH st1).
Qed.

(** The parser puts these strings, and no other, into the value. *)

Lemma strings_ok_array (elements : list json) :
  strings_ok (JArray elements) <-> Forall strings_ok elements.
Proof.
  induction elements as [|e elements IH]; [done |].
  rewrite Forall_cons. cbn [strings_ok fold_right] in *. by rewrite IH.
Qed.

Lemma strings_ok_object (members : list (string * json)) :
  strings_ok (JObject members)
  <-> Forall (fun m => well_quoted m.1 /\ strings_ok m.2) members.
Proof.
  induction members as [|[key v] members IH]; [done |].
  rewrite Forall_cons. cbn [strings_ok fold_right] in *. rewrite IH.
  simpl. tauto.
Qed.

Lemma strings_ok_array_rev (elements : list json) :
  strings_ok (JArray elements) -> strings_ok (JArray (rev elements)).
Proof.
  rewrite !strings_ok_array. apply List.Forall_rev.
Qed.

Lemma strings_ok_object_rev (members : list (string * json)) :
  strings_ok (JObject members) -> strings_ok (JObject (rev members)).
Proof.
  rewrite !strings_ok_object. apply List.Forall_rev.
Qed.

Lemma deliver_ok (v : json) (stack : list frame) (st : parse_state) :
  strings_ok v -> Forall frame_ok stack ->
  deliver v stack = Some st -> parse_ok st.
Proof.
  intros Hv Hstack. destruct stack as [|[elements|members|members key] outer];
    simpl; try done; intros [= <-]; simpl; try done;
    apply Forall_cons in Hstack as [Hframe Houter];
    apply Forall_cons; (split; [| done]); simpl in *.
  - done.
  - destruct Hframe as [Hmembers Hkey].
    by cbn [strings_ok fold_right] in *.
Qed.

Lemma open_ok (f : frame) (stack stack' : list frame) :
  frame_ok f -> Forall frame_ok stack ->
  open f stack = Some stack' -> Forall frame_ok stack'.
Proof.
  unfold open. intros Hf Hstack. case_match; [| done].
  intros [= <-]. by constructor.
Qed.

Lemma parse_step_ok (st : parse_state) (tok : token) (st' : parse_state) :
  parse_ok st -> token_ok tok -> parse_step st tok = Some st' -> parse_ok st'.
Proof.
  intros Hst Htok Hstep.
  destruct st as [first stack|first stack|stack|stack|v]; simpl in *;
    repeat case_match; simplify_eq; simpl;
    repeat match goal with
           | H : Forall frame_ok (_ :: _) |- _ =>
               apply Forall_cons in H as [? ?]
           | H : _ <$> open _ _ = Some _ |- _ =>
               apply fmap_Some in H as (? & ?%open_ok & ->); [| done | done]
           end;
    simpl in *;
    try (by eapply deliver_ok; [| | eassumption]);
    try (by eapply deliver_ok; [by apply strings_ok_array_rev | | eassumption]);
    try (by eapply deliver_ok; [by apply strings_ok_object_rev | | eassumption]);
    try (by apply Forall_cons); done.
Qed.

Lemma parse_tokens_ok (toks : list token) :
  forall st j,
    parse_ok st -> Forall token_ok toks ->
    parse_tokens st toks = Some j -> strings_ok j.
Proof.
  induction toks as [|tok toks IH]; intros st j Hst Htoks.
  - simpl. destruct st; try done. by intros [= <-].
  - simpl. destruct (parse_step st tok) as [st'|] eqn:Hstep; [| done].
    simpl. apply Forall_cons in Htoks as [Htok Htoks].
    apply (IH st' j); [| done].
    by apply (parse_step_ok st tok).
Qed.

(** Every string and key of a value the scanner has let through is one
    [unquoteBytes] can read; the decoder never gives up on it. *)
Theorem scanned_strings_unquote (text : string) (j : json) :
  parse_json text = Some j -> strings_ok j.
Proof.
  unfold parse_json. destruct (lex LexIdle text) as [toks|] eqn:Hlex; [| done].
  simpl. apply parse_tokens_ok; [by constructor |].
  by apply (lex_tokens_ok text LexIdle).
Qed.

Corollary scanned_keys_unquote (text : string)
    (members : list (string * json)) (key : string) (v : json) :
  parse_json text = Some (JObject members) -> (key, v) ∈ members ->
  unquoteBytes key = Some (unquote key).
Proof.
  intros Hmembers%scanned_strings_unquote%strings_ok_object Hin.
  apply well_quoted_unquotes.
  by apply (proj1 (Forall_forall _ _) Hmembers (key, v) Hin).
Qed.

(** ** The properties at work on examples *)

Lemma GetArticle_round_trip_witness :
  exists a,
    (GetArticle (H := example_times) example_client "1"
       (mock 200
          (dq "{'article':{'id':'1','title':'T','url':'https://x','tags':['a','b'],'description':'D','created_at':'2024-01-01T00:00:00Z','updated_at':'2024-01-02T03:04:05.5+02:00'}}"))).1
    = (Some a, None)
    /\ Article_ID a = "1" /\ Article_Title a = "T"
    /\ Article_Tags a = Some ["a"; "b"].
Proof.
  eexists.
  eapply (GetArticle_round_trip (H := example_times) example_client
            (mock 200 _)
            (dq "{'article':{'id':'1','title':'T','url':'https://x','tags':['a','b'],'description':'D','created_at':'2024-01-01T00:00:00Z','updated_at':'2024-01-02T03:04:05.5+02:00'}}")
            [("description", JString "D");
             ("created_at", JString "2024-01-01T00:00:00Z");
             ("updated_at", JString "2024-01-02T03:04:05.5+02:00")]).
  - split; reflexivity.
  - vm_compute. reflexivity.
  - refine (bool_decide_unpack _ _). vm_compute. exact I.
  - vm_compute. reflexivity.
Defined.

Lemma empty_search_is_not_an_error_witness :
  (SearchArticles (H := example_times) example_client "go"
     (mock 200 (dq "{'articles':[]}"))).1
  = (Some [], None).
Proof.
  apply (empty_search_is_not_an_error (H := example_times) _ _ _
           (dq "{'articles':[]}")).
  - split; reflexivity.
  - vm_compute. reflexivity.
Defined.

Lemma paginated_podcast_search_witness :
  exists p1 p2,
    (SearchPodcastsPaginated (H := example_times) example_client "tech" 1 20
       (mock 200
          (dq "{'podcasts':[{'id':'7','title':'P'},{'id':'8','tags':['tech']}],'total':37,'page':1,'limit':20}"))).1
    = (Some {| PaginatedPodcastsResponse_Podcasts := Some [p1; p2];
               PaginatedPodcastsResponse_Total := 37;
               PaginatedPodcastsResponse_Page := 1;
               PaginatedPodcastsResponse_Limit := 20 |}, None).
Proof.
  do 2 eexists.
  eapply (proj2 (paginated_podcast_search (H := example_times) example_client
                   (mock 200 _))
            (dq "{'podcasts':[{'id':'7','title':'P'},{'id':'8','tags':['tech']}],'total':37,'page':1,'limit':20}")).
  - split; reflexivity.
  - vm_compute. reflexivity.
  - vm_compute. reflexivity.
  - vm_compute. reflexivity.
Defined.


Lemma missing_envelope_key_gives_nil_witness :
  (GetArticle (H := example_times) example_client "1" (mock 200 "{}")).1
  = (None, None)
  /\ (CreatePodcast (H := example_times) example_client
        {| CreatePodcastRequest_Title := "P";
           CreatePodcastRequest_Description := "";
           CreatePodcastRequest_URL := "https://p";
           CreatePodcastRequest_Tags := None |}
        (mock 200 "{}")).1
     = (None, None).
Proof.
  assert (forall name, lacks_key name (JObject [])) as Hlacks.
  { intros name. right. exists []. split; [reflexivity | constructor]. }
  destruct (missing_envelope_key_gives_nil (H := example_times) example_client
              (mock 200 "{}") "{}" (JObject []) eq_refl)
    as [Harticle Hpodcast].
  split.
  - apply (proj1 (Harticle (Hlacks _))). split; reflexivity.
  - eapply (proj2 (Hpodcast (Hlacks _))); [reflexivity |].
    split; reflexivity.
Defined.

(** A JSON text that is no object cannot be taken for an envelope: the
    decoder refuses it, as C6 says. *)
Example array_is_no_envelope :
  parse_json "[]" = Some (JArray [])
  /\ (GetArticle (H := example_times) example_client "1" (mock 200 "[]")).1
     = (None,
        Some (wrapError "error unmarshalling response data: "
                (json_UnmarshalTypeError "array"))).
Proof. split; vm_compute; reflexivity. Qed.

(** A key that differs from the key of the envelope only in case selects
    the field all the same. *)
Example keys_match_without_regard_to_case :
  Article_ID
  <$> (GetArticle (H := example_times) example_client "7"
         (mock 200 (dq "{'ARTICLE':{'Id':'7'}}"))).1.1
  = Some "7".
Proof. vm_compute. reflexivity. Qed.

(** A request of the older kind: a title and a URL, written as the typed
    request with these two is. *)
Lemma typed_CreateArticle_refines_legacy_witness :
  let older : Marshaler (string * string) :=
    fun r => inl (encode_request r.1 "" r.2 None) in
  let failure :=
    wrapError "error creating article: "
              (errorString "unexpected status code: 500, body: oops") in
  (Legacy.CreateArticle (Marshaler0 := older) example_client
     ("T", "https://x") (mock 500 "oops")).1 = Some failure
  /\ (CreateArticle (H := example_times) example_client example_article_request
        (mock 500 "oops")).1 = (None, Some failure)
  /\ (Legacy.CreateArticle (Marshaler0 := older) example_client
        ("T", "https://x") (mock 200 "<html>")).1 = None
  /\ (CreateArticle (H := example_times) example_client example_article_request
        (mock 200 "<html>")).1
     = (None, Some (wrapError "error unmarshalling response data: "
                              json_SyntaxError)).
Proof.
  intros older failure.
  pose proof (typed_CreateArticle_refines_legacy (H := example_times)
                (Marshaler0 := older) example_client ("T", "https://x")
                (dq "{'title':'T','url':'https://x'}") example_article_request
                (mock 500 "oops") eq_refl eq_refl) as (Hfails & _).
  split; [reflexivity | split; [| split; reflexivity]].
  by apply Hfails.
Defined.

(** A request of the older kind that [json.Marshal] refuses: the older
    variant fails before anything is sent, and the typed variant, with a
    request of its own, gets the article. *)
Lemma legacy_CreateArticle_fails_alone :
  (Legacy.CreateArticle
     (Marshaler0 := fun _ : unit => inr "json: unsupported type: chan int")
     example_client tt (mock 200 (dq "{'article':{'id':'1'}}"))).1
  = Some (wrapError "error creating article: "
            (wrapError "error marshalling data to JSON: "
               (json_MarshalError "json: unsupported type: chan int")))
  /\ (CreateArticle (H := example_times) example_client example_article_request
        (mock 200 (dq "{'article':{'id':'1'}}"))).1
     = (Some {| Article_ID := "1"; Article_Title := "";
                Article_Description := ""; Article_URL := "";
                Article_Tags := None; Article_CreatedAt := zero;
                Article_UpdatedAt := zero |}, None).
Proof. split; reflexivity. Qed.

(** The health check of the specification. *)
Example GetHealth_scenario :
  (GetHealth (H := example_times) example_client
     (mock 200
        (dq "{'status':'ok','database':'connected','timestamp':'2024-01-01T00:00:00Z'}"))).1
  = (Some {| HealthResponse_Status := "ok";
             HealthResponse_Database := "connected";
             HealthResponse_Timestamp :=
               {| unix := 1704067200; nanosecond := 0; offset := 0 |} |},
     None).
Proof. vm_compute. reflexivity. Qed.

(** * Further properties *)

Lemma outcome_success (wrap : error -> error) (res : Response) (body : string) :
  outcome wrap res = (Some body, None) <-> res = response_of 200 body.
Proof.
  split; [| by intros ->].
  unfold outcome. destruct res as [code [data [text|]]]; simpl; [done |].
  case_bool_decide; [| done]. by intros [= ->]; subst.
Qed.

Lemma outcome_one_of_two (wrap : error -> error) (res : Response) :
  one_of_two (outcome wrap res).
Proof.
  unfold outcome. destruct (failure _); [done |]. by case_bool_decide.
Qed.

Lemma get_one_of_two (c : Client) (endpoint : string) (w : World) :
  one_of_two (get c endpoint w).1.
Proof.
  rewrite get_run. destruct (url_Parse w _); [done |]. simpl.
  destruct (RoundTrip w _ _); [apply outcome_one_of_two | done].
Qed.

Lemma post_one_of_two `{Marshaler A} (c : Client) (endpoint : string)
    (payload : A) (w : World) :
  one_of_two (post c endpoint payload w).1.
Proof.
  rewrite post_run. destruct (json_Marshal payload); [| done].
  destruct (url_Parse w _); [done |]. simpl.
  destruct (RoundTrip w _ _); [apply outcome_one_of_two | done].
Qed.

(** X1.  [get] returns bytes and no error exactly when the URL parses and
    the server answers the request with the status 200 and a body that is
    read to its end; the bytes are that body.  [post] does so exactly when,
    besides, the payload has an encoding, which is the body of the request
    that is answered.  In every other case they return no bytes and an
    error: of the two results exactly one is nil. *)
Theorem primitives_succeed_exactly_on_200 `{Marshaler A} (c : Client)
    (endpoint : string) (payload : A) (w : World) :
  (forall body,
     (get c endpoint w).1 = (Some body, None)
     <-> answers w (request_of "GET" c endpoint None) 200 body)
  /\ (forall body,
        (post c endpoint payload w).1 = (Some body, None)
        <-> exists jsonData,
              json_Marshal payload = inl jsonData
              /\ answers w (request_of "POST" c endpoint (Some jsonData))
                         200 body)
  /\ one_of_two (get c endpoint w).1
  /\ one_of_two (post c endpoint payload w).1.
Proof.
  split; [| split; [| split; [apply get_one_of_two | apply post_one_of_two]]].
  - rewrite get_run. unfold answers, http_MethodGet. simpl.
    intros body. destruct (url_Parse w _) as [text|]; simpl.
    + split; [done | by intros [? _]].
    + destruct (RoundTrip w _ _) as [res|text]; simpl.
      * rewrite outcome_success. split; [by intros -> | by intros [_ [= ->]]].
      * split; [done | by intros [_ ?]].
  - rewrite post_run. unfold answers, http_MethodPost. simpl.
    intros body. destruct (json_Marshal payload) as [jsonData|text]; simpl.
    + destruct (url_Parse w _) as [text|]; simpl.
      * split; [done | by intros (? & [= <-] & ? & _)].
      * destruct (RoundTrip w _ _) as [res|text] eqn:Htrip; simpl.
        -- rewrite outcome_success. split.
           ++ intros ->. by exists jsonData.
           ++ intros (? & [= <-] & _ & Hres). rewrite Htrip in Hres.
              by injection Hres.
        -- split; [done |]. intros (? & [= <-] & _ & Hres).
           by rewrite Htrip in Hres.
    + split; [done | by intros (? & ? & _)].
Qed.

(** X2.  Where the errors of [get] and [post] come from.  [get] hands on
    the error of [http.NewRequest], of [Do] and of [io.ReadAll] as it is;
    [post] puts the name of the stage before each of them and before the
    error of [json.Marshal].  The error for a status other than 200 is the
    same in both and carries no stage. *)
Theorem primitive_errors_by_stage `{Marshaler A} (c : Client)
    (endpoint : string) (payload : A) (w : World) :
  (forall err,
     (get c endpoint w).1.2 = Some err ->
     (exists text, err = url_Error text)
     \/ (exists text, err = io_Error text)
     \/ (exists code body, code ≠ 200 /\ err = status_error code body))
  /\ (forall err,
        (post c endpoint payload w).1.2 = Some err ->
        (exists text,
           err = wrapError "error marshalling data to JSON: "
                           (json_MarshalError text))
        \/ (exists text,
              err = wrapError "error creating request: " (url_Error text))
        \/ (exists text,
              err = wrapError "error sending request: " (url_Error text))
        \/ (exists text,
              err = wrapError "error reading response body: " (io_Error text))
        \/ (exists code body, code ≠ 200 /\ err = status_error code body)).
Proof.
  rewrite get_run, post_run. split; intros err.
  - destruct (url_Parse w _) as [text|]; simpl; [intros [= <-]; eauto |].
    destruct (RoundTrip w _ _) as [res|text]; simpl; [| intros [= <-]; eauto].
    unfold outcome. destruct (failure _) as [text|]; [intros [= <-]; eauto |].
    case_bool_decide; [done |]. intros [= <-]. eauto 10.
  - destruct (json_Marshal payload) as [jsonData|text]; simpl;
      [| intros [= <-]; eauto].
    destruct (url_Parse w _) as [text|]; simpl; [intros [= <-]; eauto |].
    destruct (RoundTrip w _ _) as [res|text]; simpl; [| intros [= <-]; eauto 6].
    unfold outcome. destruct (failure _) as [text|]; [intros [= <-]; eauto 8 |].
    case_bool_decide; [done |]. intros [= <-]. eauto 12.
Qed.

(** X3.  A response whose body cannot be read to its end is a failure
    whatever its status code.  With the status 200 too no bytes are
    returned: what was read is dropped; with another status the error of
    the read is reported, not the status.  The error is of the kind
    [TransportError], bare from [get] and under
    [error reading response body: ] from [post], and the request has gone
    out. *)
Theorem unreadable_body_fails `{Marshaler A} (c : Client) (endpoint : string)
    (payload : A) (jsonData : string) (w : World) (code : Z)
    (partial text : string) :
  let res := {| StatusCode := code;
                ResponseBody := {| data := partial; failure := Some text |} |} in
  url_Parse w (url c +:+ endpoint) = None ->
  json_Marshal payload = inl jsonData ->
  RoundTrip w (sent w) (request_of "GET" c endpoint None) = inl res ->
  RoundTrip w (sent w) (request_of "POST" c endpoint (Some jsonData))
    = inl res ->
  (get c endpoint w).1 = (None, Some (io_Error text))
  /\ (post c endpoint payload w).1
     = (None, Some (wrapError "error reading response body: " (io_Error text)))
  /\ kind_of (io_Error text) = TransportError
  /\ kind_of (wrapError "error reading response body: " (io_Error text))
     = TransportError
  /\ issued (get c endpoint) w = [request_of "GET" c endpoint None]
  /\ issued (post c endpoint payload) w
     = [request_of "POST" c endpoint (Some jsonData)].
Proof.
  intros res Hurl Hjson Hget Hpost.
  rewrite get_run, post_run, issued_get, issued_post, Hjson, Hurl.
  unfold http_MethodGet, http_MethodPost. simpl. by rewrite Hget, Hpost.
Qed.

Lemma unreadable_body_fails_witness :
  let w := {| url_Parse := fun _ => None;
              RoundTrip := fun _ _ =>
                inl {| StatusCode := 200;
                       ResponseBody := {| data := "{";
                                          failure := Some "unexpected EOF" |} |};
              sent := [] |} in
  (get example_client "/health" w).1 = (None, Some (io_Error "unexpected EOF"))
  /\ (post example_client "/api/v1/articles" example_article_request w).1
     = (None, Some (wrapError "error reading response body: "
                              (io_Error "unexpected EOF"))).
Proof.
  intros w.
  pose proof (unreadable_body_fails (A := CreateArticleRequest)
                example_client "/health" example_article_request
                (dq "{'title':'T','url':'https://x','tags':['a','b']}")
                w 200 "{" "unexpected EOF") as Hget.
  pose proof (unreadable_body_fails (A := CreateArticleRequest)
                example_client "/api/v1/articles" example_article_request
                (dq "{'title':'T','url':'https://x','tags':['a','b']}")
                w 200 "{" "unexpected EOF") as Hpost.
  split.
  - apply Hget; reflexivity.
  - apply Hpost; reflexivity.
Defined.

Lemma log_sent (req : Request) (w : World) : sent (log req w) = sent w ++ [req].
Proof. done. Qed.

Lemma one_exchange_get (c : Client) (endpoint : string) :
  one_exchange no_error (get c endpoint).
Proof.
  intros w. rewrite issued_get.
  pose proof (get_run c endpoint w) as Hrun.
  destruct (url_Parse w _) as [text|]; rewrite Hrun; simpl.
  - split; [by rewrite app_nil_r | split; [lia | done]].
  - split; [by destruct (RoundTrip w _ _) | done].
Qed.

Lemma one_exchange_post `{Marshaler A} (c : Client) (endpoint : string)
    (payload : A) :
  one_exchange no_error (post c endpoint payload).
Proof.
  intros w. rewrite issued_post.
  pose proof (post_run c endpoint payload w) as Hrun.
  destruct (json_Marshal payload) as [jsonData|text]; rewrite Hrun; simpl.
  - destruct (url_Parse w _) as [text|]; simpl.
    + split; [by rewrite app_nil_r | split; [lia | done]].
    + split; [by destruct (RoundTrip w _ _) | done].
  - split; [by rewrite app_nil_r | split; [lia | done]].
Qed.

Lemma one_exchange_wrapper `{Decoder T} `{Zero T} {R} (context : string)
    (extract : T -> option R) (lower : IO (option string * option error)) :
  one_exchange no_error lower ->
  one_exchange no_error (wrapper context extract lower).
Proof.
  intros Hlower w. destruct (Hlower w) as (Hsent & Hmost & Hwell).
  rewrite wrapper_issued, wrapper_world. split; [done | split; [done |]].
  intros Hop. apply Hwell. revert Hop. unfold no_error, wrapper.
  by destruct (lower w) as [[? [?|]] ?].
Qed.

Lemma one_exchange_ext {A} (well : A -> Prop) (op op' : IO A) :
  (forall w, op w = op' w) -> one_exchange well op' -> one_exchange well op.
Proof.
  intros Hext Hop w. rewrite (issued_ext _ _ _ (Hext w)), Hext. apply Hop.
Qed.

Section Exchanges.
Context `{TimeParser}.

(** X4.  No operation calls [Do] twice.  [get], [post], the nine typed
    operations and the older [CreateArticle] each hand at most one
    request to the HTTP client, which is added to the requests handed
    over before, and those are left as they were; an operation that ends
    without an error has called [Do] exactly once.  The package retries
    nothing.  What the HTTP client does inside one call of [Do] is not
    counted. *)
Theorem operations_call_Do_once {L : Type} `{!Marshaler L} (c : Client) :
  (forall endpoint, one_exchange no_error (get c endpoint))
  /\ (forall endpoint (payload : L),
        one_exchange no_error (post c endpoint payload))
  /\ one_exchange no_error (GetHealth c)
  /\ (forall request, one_exchange no_error (CreateArticle c request))
  /\ (forall id, one_exchange no_error (GetArticle c id))
  /\ (forall tag, one_exchange no_error (SearchArticles c tag))
  /\ (forall tag page limit,
        one_exchange no_error (SearchArticlesPaginated c tag page limit))
  /\ (forall request, one_exchange no_error (CreatePodcast c request))
  /\ (forall id, one_exchange no_error (GetPodcast c id))
  /\ (forall tag, one_exchange no_error (SearchPodcasts c tag))
  /\ (forall tag page limit,
        one_exchange no_error (SearchPodcastsPaginated c tag page limit))
  /\ (forall request : L,
        one_exchange (fun err => err = None) (Legacy.CreateArticle c request)).
Proof.
  repeat match goal with |- _ /\ _ => split end; intros.
  - apply one_exchange_get.
  - apply one_exchange_post.
  - eapply one_exchange_ext; [apply GetHealth_wrapper |].
    apply one_exchange_wrapper, one_exchange_get.
  - eapply one_exchange_ext; [apply CreateArticle_wrapper |].
    apply one_exchange_wrapper, one_exchange_post.
  - eapply one_exchange_ext; [apply GetArticle_wrapper |].
    apply one_exchange_wrapper, one_exchange_get.
  - eapply one_exchange_ext; [apply SearchArticles_wrapper |].
    apply one_exchange_wrapper, one_exchange_get.
  - eapply one_exchange_ext; [apply SearchArticlesPaginated_wrapper |].
    apply one_exchange_wrapper, one_exchange_get.
  - eapply one_exchange_ext; [apply CreatePodcast_wrapper |].
    apply one_exchange_wrapper, one_exchange_post.
  - eapply one_exchange_ext; [apply GetPodcast_wrapper |].
    apply one_exchange_wrapper, one_exchange_get.
  - eapply one_exchange_ext; [apply SearchPodcasts_wrapper |].
    apply one_exchange_wrapper, one_exchange_get.
  - eapply one_exchange_ext; [apply SearchPodcastsPaginated_wrapper |].
    apply one_exchange_wrapper, one_exchange_get.
  - intros w.
    destruct (one_exchange_post c createArticleEndpoint request w)
      as (Hsent & Hmost & Hwell).
    unfold issued, Legacy.CreateArticle, mbind, IO_bind in *.
    destruct (post c createArticleEndpoint request w) as [[? [?|]] ?]; simpl in *;
      (split; [done | split; [done |]]); [done | intros _; by apply Hwell].
Qed.
End Exchanges.

(** ** What the operations make of a 200 response *)

Lemma wrapper_answered `{Decoder T} `{Zero T} {R} (context : string)
    (extract : T -> option R) (lower : IO (option string * option error))
    (w w' : World) (body : string) :
  lower w = ((Some body, None), w') ->
  (wrapper context extract lower w).1 = decoded T extract body.
Proof.
  unfold wrapper, decoded. intros ->. simpl.
  by destruct (json_Unmarshal body zero).
Qed.

Section Answered.
Context `{TimeParser}.

Lemma GetHealth_answered c w body :
  answers w (request_of "GET" c "/health" None) 200 body ->
  (GetHealth c w).1 = decoded HealthResponse Some body.
Proof.
  intros Hanswer. rewrite GetHealth_wrapper.
  apply (wrapper_answered _ _ _ _ _ _ (got_200 _ _ _ _ Hanswer)).
Qed.

Lemma GetArticle_answered c id w body :
  answers w (request_of "GET" c ("/api/v1/articles/" +:+ id) None) 200 body ->
  (GetArticle c id w).1 = decoded ArticleResponse ArticleResponse_Article body.
Proof.
  intros Hanswer. rewrite GetArticle_wrapper.
  apply (wrapper_answered _ _ _ _ _ _ (got_200 _ _ _ _ Hanswer)).
Qed.

Lemma GetPodcast_answered c id w body :
  answers w (request_of "GET" c ("/api/v1/podcasts/" +:+ id) None) 200 body ->
  (GetPodcast c id w).1 = decoded PodcastResponse PodcastResponse_Podcast body.
Proof.
  intros Hanswer. rewrite GetPodcast_wrapper.
  apply (wrapper_answered _ _ _ _ _ _ (got_200 _ _ _ _ Hanswer)).
Qed.

Lemma SearchArticles_answered c tag w body :
  answers w (request_of "GET" c ("/api/v1/articles/search/" +:+ tag) None)
          200 body ->
  (SearchArticles c tag w).1
  = decoded ArticlesResponse ArticlesResponse_Articles body.
Proof.
  intros Hanswer. rewrite SearchArticles_wrapper.
  apply (wrapper_answered _ _ _ _ _ _ (got_200 _ _ _ _ Hanswer)).
Qed.

Lemma SearchPodcasts_answered c tag w body :
  answers w (request_of "GET" c ("/api/v1/podcasts/search/" +:+ tag) None)
          200 body ->
  (SearchPodcasts c tag w).1
  = decoded PodcastsResponse PodcastsResponse_Podcasts body.
Proof.
  intros Hanswer. rewrite SearchPodcasts_wrapper.
  apply (wrapper_answered _ _ _ _ _ _ (got_200 _ _ _ _ Hanswer)).
Qed.

Lemma SearchArticlesPaginated_answered c tag page limit w body :
  answers w (request_of "GET" c
               ("/api/v1/articles/search/" +:+ tag +:+ "/paginated?page="
                +:+ pretty page +:+ "&limit=" +:+ pretty limit) None)
          200 body ->
  (SearchArticlesPaginated c tag page limit w).1
  = decoded PaginatedArticlesResponse Some body.
Proof.
  intros Hanswer. rewrite SearchArticlesPaginated_wrapper.
  apply (wrapper_answered _ _ _ _ _ _ (got_200 _ _ _ _ Hanswer)).
Qed.

Lemma SearchPodcastsPaginated_answered c tag page limit w body :
  answers w (request_of "GET" c
               ("/api/v1/podcasts/search/" +:+ tag +:+ "/paginated?page="
                +:+ pretty page +:+ "&limit=" +:+ pretty limit) None)
          200 body ->
  (SearchPodcastsPaginated c tag page limit w).1
  = decoded PaginatedPodcastsResponse Some body.
Proof.
  intros Hanswer. rewrite SearchPodcastsPaginated_wrapper.
  apply (wrapper_answered _ _ _ _ _ _ (got_200 _ _ _ _ Hanswer)).
Qed.

Lemma CreateArticle_answered c request w body :
  answers w (request_of "POST" c "/api/v1/articles"
               (Some (encode_request (CreateArticleRequest_Title request)
                        (CreateArticleRequest_Description request)
                        (CreateArticleRequest_URL request)
                        (CreateArticleRequest_Tags request)))) 200 body ->
  (CreateArticle c request w).1
  = decoded ArticleResponse ArticleResponse_Article body.
Proof.
  intros Hanswer. rewrite CreateArticle_wrapper.
  apply (wrapper_answered _ _ _ _ _ _
           (posted_200 _ _ _ _ _ _ eq_refl Hanswer)).
Qed.

Lemma CreatePodcast_answered c request w body :
  answers w (request_of "POST" c "/api/v1/podcasts"
               (Some (encode_request (CreatePodcastRequest_Title request)
                        (CreatePodcastRequest_Description request)
                        (CreatePodcastRequest_URL request)
                        (CreatePodcastRequest_Tags request)))) 200 body ->
  (CreatePodcast c request w).1
  = decoded PodcastResponse PodcastResponse_Podcast body.
Proof.
  intros Hanswer. rewrite CreatePodcast_wrapper.
  apply (wrapper_answered _ _ _ _ _ _
           (posted_200 _ _ _ _ _ _ eq_refl Hanswer)).
Qed.

(** X5.  The request of each operation: [GetHealth] gets [/health];
    [GetArticle] and [GetPodcast] get the identifier under
    [/api/v1/articles/] and [/api/v1/podcasts/]; the searches get the tag
    under [search/], the paginated search of articles with
    [/paginated?page=..&limit=..] after it; all without a body.  The two
    typed create operations post the encoding of the request, the two
    older ones whatever [json.Marshal] gives for theirs, to
    [/api/v1/articles] and [/api/v1/podcasts].  Each sends nothing when the
    URL does not parse. *)
Theorem requests_of_the_operations {L1 L2 : Type} `{!Marshaler L1}
    `{!Marshaler L2} (c : Client) (w : World) :
  sends (GetHealth c) w "GET" c "/health" None
  /\ (forall request,
        sends (CreateArticle c request) w "POST" c "/api/v1/articles"
          (Some (encode_request (CreateArticleRequest_Title request)
                   (CreateArticleRequest_Description request)
                   (CreateArticleRequest_URL request)
                   (CreateArticleRequest_Tags request))))
  /\ (forall id,
        sends (GetArticle c id) w "GET" c ("/api/v1/articles/" +:+ id) None)
  /\ (forall tag,
        sends (SearchArticles c tag) w "GET" c
          ("/api/v1/articles/search/" +:+ tag) None)
  /\ (forall tag page limit,
        sends (SearchArticlesPaginated c tag page limit) w "GET" c
          ("/api/v1/articles/search/" +:+ tag +:+ "/paginated?page="
           +:+ pretty page +:+ "&limit=" +:+ pretty limit) None)
  /\ (forall request,
        sends (CreatePodcast c request) w "POST" c "/api/v1/podcasts"
          (Some (encode_request (CreatePodcastRequest_Title request)
                   (CreatePodcastRequest_Description request)
                   (CreatePodcastRequest_URL request)
                   (CreatePodcastRequest_Tags request))))
  /\ (forall id,
        sends (GetPodcast c id) w "GET" c ("/api/v1/podcasts/" +:+ id) None)
  /\ (forall tag,
        sends (SearchPodcasts c tag) w "GET" c
          ("/api/v1/podcasts/search/" +:+ tag) None)
  /\ (forall (request : L1),
        match json_Marshal request with
        | inl jsonData =>
            sends (Legacy.CreateArticle c request) w "POST" c
                  "/api/v1/articles" (Some jsonData)
        | inr _ => issued (Legacy.CreateArticle c request) w = []
        end)
  /\ (forall (request : L2),
        match json_Marshal request with
        | inl jsonData =>
            sends (Legacy.CreatePodcast c request) w "POST" c
                  "/api/v1/podcasts" (Some jsonData)
        | inr _ => issued (Legacy.CreatePodcast c request) w = []
        end).
Proof.
  unfold sends.
  repeat match goal with |- _ /\ _ => split end; intros.
  - by rewrite (issued_ext _ _ _ (GetHealth_wrapper c w)), wrapper_issued,
      issued_get.
  - by rewrite (issued_ext _ _ _ (CreateArticle_wrapper c request w)),
      wrapper_issued, issued_post.
  - by rewrite (issued_ext _ _ _ (GetArticle_wrapper c id w)), wrapper_issued,
      issued_get.
  - by rewrite (issued_ext _ _ _ (SearchArticles_wrapper c tag w)),
      wrapper_issued, issued_get.
  - by rewrite (issued_ext _ _ _ (SearchArticlesPaginated_wrapper c tag page
                                    limit w)), wrapper_issued, issued_get.
  - by rewrite (issued_ext _ _ _ (CreatePodcast_wrapper c request w)),
      wrapper_issued, issued_post.
  - by rewrite (issued_ext _ _ _ (GetPodcast_wrapper c id w)), wrapper_issued,
      issued_get.
  - by rewrite (issued_ext _ _ _ (SearchPodcasts_wrapper c tag w)),
      wrapper_issued, issued_get.
  - pose proof (issued_post c createArticleEndpoint request w) as Hpost.
    unfold issued, Legacy.CreateArticle, mbind, IO_bind in *.
    destruct (post c createArticleEndpoint request w) as [[? [?|]] ?];
      simpl in *; rewrite Hpost; by destruct (json_Marshal request).
  - pose proof (issued_post c createPodcastEndpoint request w) as Hpost.
    unfold issued, Legacy.CreatePodcast, mbind, IO_bind in *.
    destruct (post c createPodcastEndpoint request w) as [[? [?|]] ?];
      simpl in *; rewrite Hpost; by destruct (json_Marshal request).
Qed.

(** X6.  Identifiers and tags go into the path as they are, so they
    reach other endpoints: [GetArticle] with the identifier [search/t]
    sends what [SearchArticles] sends for the tag [t], and
    [SearchArticles] with a tag that ends in
    [/paginated?page=p&limit=l] sends what [SearchArticlesPaginated]
    sends for that page and limit.  The same holds of the podcast
    operations. *)
Theorem identifiers_can_address_other_endpoints (c : Client) (w : World) :
  (forall tag,
     issued (GetArticle c ("search/" +:+ tag)) w
     = issued (SearchArticles c tag) w)
  /\ (forall tag page limit,
        issued (SearchArticles c (tag +:+ "/paginated?page=" +:+ pretty page
                                  +:+ "&limit=" +:+ pretty limit)) w
        = issued (SearchArticlesPaginated c tag page limit) w)
  /\ (forall tag,
        issued (GetPodcast c ("search/" +:+ tag)) w
        = issued (SearchPodcasts c tag) w)
  /\ (forall tag page limit,
        issued (SearchPodcasts c (tag +:+ "/paginated?page=" +:+ pretty page
                                  +:+ "&limit=" +:+ pretty limit)) w
        = issued (SearchPodcastsPaginated c tag page limit) w).
Proof.
  repeat match goal with |- _ /\ _ => split end; intros.
  - by rewrite (issued_ext _ _ _ (GetArticle_wrapper c _ w)),
      (issued_ext _ _ _ (SearchArticles_wrapper c tag w)), !wrapper_issued.
  - by rewrite (issued_ext _ _ _ (SearchArticles_wrapper c _ w)),
      (issued_ext _ _ _ (SearchArticlesPaginated_wrapper c tag page limit w)),
      !wrapper_issued.
  - by rewrite (issued_ext _ _ _ (GetPodcast_wrapper c _ w)),
      (issued_ext _ _ _ (SearchPodcasts_wrapper c tag w)), !wrapper_issued.
  - by rewrite (issued_ext _ _ _ (SearchPodcasts_wrapper c _ w)),
      (issued_ext _ _ _ (SearchPodcastsPaginated_wrapper c tag page limit w)),
      !wrapper_issued.
Qed.
End Answered.

(** ** Bodies without the fields of the envelope *)

Lemma decode_struct_lacks_keys {T} (fields : field_table T) (j : json) (v : T) :
  lacks_keys fields.*1 j -> decode_struct fields j v = Continue v None.
Proof.
  intros [-> | (members & -> & Hkeys)]; [done |].
  unfold decode_struct. apply decode_members_no_field.
  eapply Forall_impl; [exact Hkeys |].
  intros [key j] Hkey. apply find_field_none. simpl in *.
  apply Forall_forall. intros [name f] Hin Hname. apply Hkey.
  rewrite <- Hname. apply list_elem_of_fmap. exists name. split; [done |].
  apply list_elem_of_fmap. by exists (name, f).
Qed.

Lemma decoded_zero `{Decoder T} `{Zero T} {R} (extract : T -> option R)
    (body : string) (j : json) :
  parse_json body = Some j -> decode j (zero : T) = Continue zero None ->
  decoded T extract body = (extract zero, None).
Proof. unfold decoded, json_Unmarshal. by intros -> ->. Qed.

Section Zeroes.
Context `{TimeParser}.

(** X7.  [GetHealth] and the two paginated searches never return a nil
    response together with a nil error: of response and error exactly one
    is nil.  A 200 response whose body is [null], or an object none of
    whose keys is a key of the envelope, gives the zero response (for the
    searches: a nil list, total, page and limit 0) and no error. *)
Theorem responses_are_never_nil (c : Client) (w : World) :
  one_of_two (GetHealth c w).1
  /\ (forall tag page limit,
        one_of_two (SearchArticlesPaginated c tag page limit w).1)
  /\ (forall tag page limit,
        one_of_two (SearchPodcastsPaginated c tag page limit w).1)
  /\ (forall body j,
        parse_json body = Some j ->
        (lacks_keys ["status"; "database"; "timestamp"] j ->
         answers w (request_of "GET" c "/health" None) 200 body ->
         (GetHealth c w).1 = (Some zero, None))
        /\ (lacks_keys ["articles"; "total"; "page"; "limit"] j ->
            forall tag page limit,
              answers w (request_of "GET" c
                           ("/api/v1/articles/search/" +:+ tag
                            +:+ "/paginated?page=" +:+ pretty page
                            +:+ "&limit=" +:+ pretty limit) None) 200 body ->
              (SearchArticlesPaginated c tag page limit w).1
              = (Some zero, None))
        /\ (lacks_keys ["podcasts"; "total"; "page"; "limit"] j ->
            forall tag page limit,
              answers w (request_of "GET" c
                           ("/api/v1/podcasts/search/" +:+ tag
                            +:+ "/paginated?page=" +:+ pretty page
                            +:+ "&limit=" +:+ pretty limit) None) 200 body ->
              (SearchPodcastsPaginated c tag page limit w).1
              = (Some zero, None))).
Proof.
  split; [| split; [| split]]; intros.
  - rewrite GetHealth_wrapper. unfold wrapper.
    destruct (get c "/health" w) as [[? [?|]] ?]; simpl; [done |].
    by destruct (json_Unmarshal _ _).
  - rewrite SearchArticlesPaginated_wrapper. unfold wrapper.
    destruct (get c _ w) as [[? [?|]] ?]; simpl; [done |].
    by destruct (json_Unmarshal _ _).
  - rewrite SearchPodcastsPaginated_wrapper. unfold wrapper.
    destruct (get c _ w) as [[? [?|]] ?]; simpl; [done |].
    by destruct (json_Unmarshal _ _).
  - split; [| split]; intros Hlacks; intros.
    + rewrite (GetHealth_answered _ _ body) by done.
      eapply decoded_zero; [done |]. by apply decode_struct_lacks_keys.
    + rewrite (SearchArticlesPaginated_answered _ _ _ _ _ body) by done.
      eapply decoded_zero; [done |]. by apply decode_struct_lacks_keys.
    + rewrite (SearchPodcastsPaginated_answered _ _ _ _ _ body) by done.
      eapply decoded_zero; [done |]. by apply decode_struct_lacks_keys.
Qed.

(** X8.  [SearchArticles] and [SearchPodcasts] return a nil slice and a
    nil error when the body of the 200 response has no list: when it is
    [null], an object without the key of the list, or an object whose one
    member is [null]. *)
Theorem search_without_a_list_gives_nil (c : Client) (w : World)
    (body : string) (j : json) :
  parse_json body = Some j ->
  (lacks_keys ["articles"] j \/ (exists key, j = JObject [(key, JNull)]) ->
   forall tag,
     answers w (request_of "GET" c ("/api/v1/articles/search/" +:+ tag) None)
             200 body ->
     (SearchArticles c tag w).1 = (None, None))
  /\ (lacks_keys ["podcasts"] j \/ (exists key, j = JObject [(key, JNull)]) ->
      forall tag,
        answers w (request_of "GET" c ("/api/v1/podcasts/search/" +:+ tag) None)
                200 body ->
        (SearchPodcasts c tag w).1 = (None, None)).
Proof.
  intros Hparse. split; intros Hj tag Hanswer.
  - rewrite (SearchArticles_answered _ _ _ body) by done.
    unfold decoded, json_Unmarshal. rewrite Hparse.
    destruct Hj as [Hlacks | [key ->]].
    + unfold decode, ArticlesResponse_Decoder.
      by rewrite decode_struct_lacks_keys.
    + unfold decode, ArticlesResponse_Decoder, decode_struct, decode_members.
      by destruct (find_field _ _) as [f|] eqn:Hfind;
        [apply find_field_elem in Hfind as (name & Hin & _);
         apply list_elem_of_singleton in Hin; injection Hin as _ -> |].
  - rewrite (SearchPodcasts_answered _ _ _ body) by done.
    unfold decoded, json_Unmarshal. rewrite Hparse.
    destruct Hj as [Hlacks | [key ->]].
    + unfold decode, PodcastsResponse_Decoder.
      by rewrite decode_struct_lacks_keys.
    + unfold decode, PodcastsResponse_Decoder, decode_struct, decode_members.
      by destruct (find_field _ _) as [f|] eqn:Hfind;
        [apply find_field_elem in Hfind as (name & Hin & _);
         apply list_elem_of_singleton in Hin; injection Hin as _ -> |].
Qed.
End Zeroes.

Lemma search_without_a_list_gives_nil_witness :
  (SearchArticles (H := example_times) example_client "go"
     (mock 200 (dq "{'items':[{'id':'1'}]}"))).1 = (None, None)
  /\ (SearchPodcasts (H := example_times) example_client "go"
        (mock 200 (dq " {'Podcasts' : null} "))).1 = (None, None).
Proof.
  split.
  - refine (proj1 (search_without_a_list_gives_nil (H := example_times)
                     example_client (mock 200 (dq "{'items':[{'id':'1'}]}"))
                     (dq "{'items':[{'id':'1'}]}")
                     (JObject [("items", JArray [JObject [("id", JString "1")]])])
                     _) _ "go" _).
    + reflexivity.
    + left. right. eexists. split; [reflexivity |].
      apply Forall_cons. split; [| by apply Forall_nil].
      intros Hin. apply list_elem_of_fmap in Hin as (name & Heq & Hname).
      apply list_elem_of_singleton in Hname as ->. by vm_compute in Heq.
    + split; reflexivity.
  - refine (proj2 (search_without_a_list_gives_nil (H := example_times)
                     example_client (mock 200 (dq " {'Podcasts' : null} "))
                     (dq " {'Podcasts' : null} ")
                     (JObject [("Podcasts", JNull)]) _) _ "go" _).
    + reflexivity.
    + right. by eexists.
    + split; reflexivity.
Defined.

(** ** Blank bodies *)

Lemma lex_blank (text : string) : blank text -> lex LexIdle text = Some [].
Proof.
  unfold blank. induction text as [|c text IH]; [done |].
  simpl. intros Hblank. apply andb_prop in Hblank as [Hc Hrest].
  unfold lex_idle. rewrite Hc. simpl. by rewrite IH.
Qed.

Lemma parse_blank (text : string) : blank text -> parse_json text = None.
Proof. intros Hblank. unfold parse_json. by rewrite lex_blank. Qed.

Lemma decoded_blank `{Decoder T} `{Zero T} {R} (extract : T -> option R)
    (body : string) :
  blank body ->
  decoded T extract body
  = (None, Some (wrapError "error unmarshalling response data: "
                           json_SyntaxError)).
Proof.
  intros Hblank. unfold decoded.
  by rewrite (json_Unmarshal_syntax _ _ (parse_blank _ Hblank)).
Qed.

Section Blank.
Context `{TimeParser}.

(** X9.  A 200 response with an empty body, or one of white space only,
    makes each of the nine typed operations fail: the result is nil and
    the error is the syntax error of the decoder under
    [error unmarshalling response data: ], of the kind
    [DeserializationError].  The older [CreateArticle], which does not
    read the body, succeeds on the same response. *)
Theorem blank_body_is_refused {L : Type} `{!Marshaler L} (c : Client)
    (w : World) (body : string) :
  blank body ->
  let refused {R} : option R * option error :=
    (None, Some (wrapError "error unmarshalling response data: "
                           json_SyntaxError)) in
  kind_of (wrapError "error unmarshalling response data: " json_SyntaxError)
  = DeserializationError
  /\ (answers w (request_of "GET" c "/health" None) 200 body ->
      (GetHealth c w).1 = refused)
  /\ (forall id,
        answers w (request_of "GET" c ("/api/v1/articles/" +:+ id) None)
                200 body ->
        (GetArticle c id w).1 = refused)
  /\ (forall id,
        answers w (request_of "GET" c ("/api/v1/podcasts/" +:+ id) None)
                200 body ->
        (GetPodcast c id w).1 = refused)
  /\ (forall tag,
        answers w (request_of "GET" c ("/api/v1/articles/search/" +:+ tag) None)
                200 body ->
        (SearchArticles c tag w).1 = refused)
  /\ (forall tag,
        answers w (request_of "GET" c ("/api/v1/podcasts/search/" +:+ tag) None)
                200 body ->
        (SearchPodcasts c tag w).1 = refused)
  /\ (forall tag page limit,
        answers w (request_of "GET" c
                     ("/api/v1/articles/search/" +:+ tag +:+ "/paginated?page="
                      +:+ pretty page +:+ "&limit=" +:+ pretty limit) None)
                200 body ->
        (SearchArticlesPaginated c tag page limit w).1 = refused)
  /\ (forall tag page limit,
        answers w (request_of "GET" c
                     ("/api/v1/podcasts/search/" +:+ tag +:+ "/paginated?page="
                      +:+ pretty page +:+ "&limit=" +:+ pretty limit) None)
                200 body ->
        (SearchPodcastsPaginated c tag page limit w).1 = refused)
  /\ (forall request,
        answers w (request_of "POST" c "/api/v1/articles"
                     (Some (encode_request
                              (CreateArticleRequest_Title request)
                              (CreateArticleRequest_Description request)
                              (CreateArticleRequest_URL request)
                              (CreateArticleRequest_Tags request)))) 200 body ->
        (CreateArticle c request w).1 = refused)
  /\ (forall request,
        answers w (request_of "POST" c "/api/v1/podcasts"
                     (Some (encode_request
                              (CreatePodcastRequest_Title request)
                              (CreatePodcastRequest_Description request)
                              (CreatePodcastRequest_URL request)
                              (CreatePodcastRequest_Tags request)))) 200 body ->
        (CreatePodcast c request w).1 = refused)
  /\ (forall (request : L) jsonData,
        json_Marshal request = inl jsonData ->
        answers w (request_of "POST" c "/api/v1/articles" (Some jsonData))
                200 body ->
        (Legacy.CreateArticle c request w).1 = None).
Proof.
  intros Hblank refused.
  repeat match goal with |- _ /\ _ => split end; try done; intros.
  - rewrite (GetHealth_answered _ _ body) by done. by apply decoded_blank.
  - rewrite (GetArticle_answered _ _ _ body) by done. by apply decoded_blank.
  - rewrite (GetPodcast_answered _ _ _ body) by done. by apply decoded_blank.
  - rewrite (SearchArticles_answered _ _ _ body) by done.
    by apply decoded_blank.
  - rewrite (SearchPodcasts_answered _ _ _ body) by done.
    by apply decoded_blank.
  - rewrite (SearchArticlesPaginated_answered _ _ _ _ _ body) by done.
    by apply decoded_blank.
  - rewrite (SearchPodcastsPaginated_answered _ _ _ _ _ body) by done.
    by apply decoded_blank.
  - rewrite (CreateArticle_answered _ _ _ body) by done.
    by apply decoded_blank.
  - rewrite (CreatePodcast_answered _ _ _ body) by done.
    by apply decoded_blank.
  - match goal with
    | Hjson : json_Marshal _ = _, Hanswer : answers _ _ _ _ |- _ =>
        unfold Legacy.CreateArticle, mbind, IO_bind, createArticleEndpoint;
        by rewrite (posted_200 _ _ _ _ _ _ Hjson Hanswer)
    end.
Qed.
End Blank.

Lemma blank_body_is_refused_witness :
  (GetHealth (H := example_times) example_client (mock 200 "")).1
  = (None, Some (wrapError "error unmarshalling response data: "
                           json_SyntaxError))
  /\ (CreateArticle (H := example_times) example_client
        example_article_request (mock 200 "")).1
     = (None, Some (wrapError "error unmarshalling response data: "
                              json_SyntaxError))
  /\ (Legacy.CreateArticle example_client example_article_request
        (mock 200 "")).1 = None.
Proof.
  pose proof (blank_body_is_refused (H := example_times)
                (L := CreateArticleRequest) example_client (mock 200 "") ""
                eq_refl)
    as (_ & Hhealth & _ & _ & _ & _ & _ & _ & Hcreate & _ & Hlegacy).
  split; [| split].
  - apply Hhealth. split; reflexivity.
  - apply Hcreate. split; reflexivity.
  - apply (Hlegacy example_article_request _ eq_refl). split; reflexivity.
Defined.

(** ** The kinds of the errors of the typed operations *)

Lemma wrapper_fails_only_with `{SoundDecoder T} `{!Zero T} {R}
    (context : string) (extract : T -> option R)
    (lower : IO (option string * option error)) :
  fails_only_with [TransportError; UnexpectedStatus] lower ->
  fails_only_with [TransportError; UnexpectedStatus; DeserializationError]
                  (wrapper context extract lower).
Proof.
  intros Hlower w err. specialize (Hlower w). unfold wrapper.
  destruct (lower w) as [[responseData [cause|]] w']; simpl in *.
  - intros [= <-]. specialize (Hlower cause eq_refl).
    change (kind_of (wrapError context cause)) with (kind_of cause).
    apply elem_of_cons in Hlower as [-> | Hlower]; [by repeat constructor |].
    apply list_elem_of_singleton in Hlower as ->. by repeat constructor.
  - destruct (json_Unmarshal _ _) as [response|cause] eqn:Hjson; [done |].
    intros [= <-].
    change (kind_of (wrapError "error unmarshalling response data: " cause))
      with (kind_of cause).
    rewrite (json_Unmarshal_kind _ _ _ Hjson). by repeat constructor.
Qed.

Lemma get_fails_only_with (c : Client) (endpoint : string) :
  fails_only_with [TransportError; UnexpectedStatus] (get c endpoint).
Proof.
  intros w err Herr.
  destruct (get_error_kind _ _ _ _ Herr) as [-> | ->]; by repeat constructor.
Qed.

Lemma post_fails_only_with `{Marshaler A} (c : Client) (endpoint : string)
    (payload : A) (jsonData : string) :
  json_Marshal payload = inl jsonData ->
  fails_only_with [TransportError; UnexpectedStatus] (post c endpoint payload).
Proof.
  intros Hjson w err. rewrite post_run, Hjson.
  destruct (url_Parse w _) as [text|]; [intros [= <-]; by repeat constructor |].
  simpl. destruct (RoundTrip w _ _) as [res|text];
    [| intros [= <-]; by repeat constructor].
  intros Hout. apply outcome_kind in Hout as [-> | ->]; [| | done]; by repeat constructor.
Qed.

Lemma fails_only_with_ext {R} (kinds : list ErrorKind)
    (op op' : IO (option R * option error)) :
  (forall w, op w = op' w) -> fails_only_with kinds op' ->
  fails_only_with kinds op.
Proof. intros Hext Hop w. rewrite Hext. apply Hop. Qed.

Section Kinds.
Context `{TimeParser}.

(** X10.  Every error of a typed operation is of the kind
    [TransportError], [UnexpectedStatus] or [DeserializationError].  In
    particular [CreateArticle] and [CreatePodcast] never fail with a
    [SerializationError], their requests always having an encoding, and no
    operation fails with [InvalidConfiguration]. *)
Theorem typed_operations_fail_in_three_ways (c : Client) :
  let kinds := [TransportError; UnexpectedStatus; DeserializationError] in
  fails_only_with kinds (GetHealth c)
  /\ (forall request, fails_only_with kinds (CreateArticle c request))
  /\ (forall id, fails_only_with kinds (GetArticle c id))
  /\ (forall tag, fails_only_with kinds (SearchArticles c tag))
  /\ (forall tag page limit,
        fails_only_with kinds (SearchArticlesPaginated c tag page limit))
  /\ (forall request, fails_only_with kinds (CreatePodcast c request))
  /\ (forall id, fails_only_with kinds (GetPodcast c id))
  /\ (forall tag, fails_only_with kinds (SearchPodcasts c tag))
  /\ (forall tag page limit,
        fails_only_with kinds (SearchPodcastsPaginated c tag page limit)).
Proof.
  intros kinds.
  repeat match goal with |- _ /\ _ => split end; intros.
  - eapply fails_only_with_ext; [apply GetHealth_wrapper |].
    apply wrapper_fails_only_with, get_fails_only_with.
  - eapply fails_only_with_ext; [apply CreateArticle_wrapper |].
    eapply wrapper_fails_only_with, post_fails_only_with. reflexivity.
  - eapply fails_only_with_ext; [apply GetArticle_wrapper |].
    apply wrapper_fails_only_with, get_fails_only_with.
  - eapply fails_only_with_ext; [apply SearchArticles_wrapper |].
    apply wrapper_fails_only_with, get_fails_only_with.
  - eapply fails_only_with_ext; [apply SearchArticlesPaginated_wrapper |].
    apply wrapper_fails_only_with, get_fails_only_with.
  - eapply fails_only_with_ext; [apply CreatePodcast_wrapper |].
    eapply wrapper_fails_only_with, post_fails_only_with. reflexivity.
  - eapply fails_only_with_ext; [apply GetPodcast_wrapper |].
    apply wrapper_fails_only_with, get_fails_only_with.
  - eapply fails_only_with_ext; [apply SearchPodcasts_wrapper |].
    apply wrapper_fails_only_with, get_fails_only_with.
  - eapply fails_only_with_ext; [apply SearchPodcastsPaginated_wrapper |].
    apply wrapper_fails_only_with, get_fails_only_with.
Qed.

(** X11.  What comes back is not compared with what was asked for.  Two
    calls of the same operation that are answered with the status 200 and
    the same body return the same, whatever the identifiers, tags, pages,
    limits, requests, clients and worlds of the two calls. *)
Theorem answers_are_not_checked_against_requests (c c' : Client)
    (w w' : World) (body : string) :
  (forall id id',
     answers w (request_of "GET" c ("/api/v1/articles/" +:+ id) None)
             200 body ->
     answers w' (request_of "GET" c' ("/api/v1/articles/" +:+ id') None)
             200 body ->
     (GetArticle c id w).1 = (GetArticle c' id' w').1)
  /\ (forall id id',
        answers w (request_of "GET" c ("/api/v1/podcasts/" +:+ id) None)
                200 body ->
        answers w' (request_of "GET" c' ("/api/v1/podcasts/" +:+ id') None)
                200 body ->
        (GetPodcast c id w).1 = (GetPodcast c' id' w').1)
  /\ (forall tag tag',
        answers w (request_of "GET" c ("/api/v1/articles/search/" +:+ tag) None)
                200 body ->
        answers w' (request_of "GET" c' ("/api/v1/articles/search/" +:+ tag')
                      None) 200 body ->
        (SearchArticles c tag w).1 = (SearchArticles c' tag' w').1)
  /\ (forall tag tag',
        answers w (request_of "GET" c ("/api/v1/podcasts/search/" +:+ tag) None)
                200 body ->
        answers w' (request_of "GET" c' ("/api/v1/podcasts/search/" +:+ tag')
                      None) 200 body ->
        (SearchPodcasts c tag w).1 = (SearchPodcasts c' tag' w').1)
  /\ (forall tag page limit tag' page' limit',
        answers w (request_of "GET" c
                     ("/api/v1/articles/search/" +:+ tag +:+ "/paginated?page="
                      +:+ pretty page +:+ "&limit=" +:+ pretty limit) None)
                200 body ->
        answers w' (request_of "GET" c'
                      ("/api/v1/articles/search/" +:+ tag'
                       +:+ "/paginated?page=" +:+ pretty page'
                       +:+ "&limit=" +:+ pretty limit') None)
                200 body ->
        (SearchArticlesPaginated c tag page limit w).1
        = (SearchArticlesPaginated c' tag' page' limit' w').1)
  /\ (forall tag page limit tag' page' limit',
        answers w (request_of "GET" c
                     ("/api/v1/podcasts/search/" +:+ tag +:+ "/paginated?page="
                      +:+ pretty page +:+ "&limit=" +:+ pretty limit) None)
                200 body ->
        answers w' (request_of "GET" c'
                      ("/api/v1/podcasts/search/" +:+ tag'
                       +:+ "/paginated?page=" +:+ pretty page'
                       +:+ "&limit=" +:+ pretty limit') None)
                200 body ->
        (SearchPodcastsPaginated c tag page limit w).1
        = (SearchPodcastsPaginated c' tag' page' limit' w').1)
  /\ (forall request request',
        answers w (request_of "POST" c "/api/v1/articles"
                     (Some (encode_request
                              (CreateArticleRequest_Title request)
                              (CreateArticleRequest_Description request)
                              (CreateArticleRequest_URL request)
                              (CreateArticleRequest_Tags request)))) 200 body ->
        answers w' (request_of "POST" c' "/api/v1/articles"
                      (Some (encode_request
                               (CreateArticleRequest_Title request')
                               (CreateArticleRequest_Description request')
                               (CreateArticleRequest_URL request')
                               (CreateArticleRequest_Tags request'))))
                200 body ->
        (CreateArticle c request w).1 = (CreateArticle c' request' w').1)
  /\ (forall request request',
        answers w (request_of "POST" c "/api/v1/podcasts"
                     (Some (encode_request
                              (CreatePodcastRequest_Title request)
                              (CreatePodcastRequest_Description request)
                              (CreatePodcastRequest_URL request)
                              (CreatePodcastRequest_Tags request)))) 200 body ->
        answers w' (request_of "POST" c' "/api/v1/podcasts"
                      (Some (encode_request
                               (CreatePodcastRequest_Title request')
                               (CreatePodcastRequest_Description request')
                               (CreatePodcastRequest_URL request')
                               (CreatePodcastRequest_Tags request'))))
                200 body ->
        (CreatePodcast c request w).1 = (CreatePodcast c' request' w').1).
Proof.
  repeat match goal with |- _ /\ _ => split end; intros.
  - by rewrite !(GetArticle_answered _ _ _ body).
  - by rewrite !(GetPodcast_answered _ _ _ body).
  - by rewrite !(SearchArticles_answered _ _ _ body).
  - by rewrite !(SearchPodcasts_answered _ _ _ body).
  - by rewrite !(SearchArticlesPaginated_answered _ _ _ _ _ body).
  - by rewrite !(SearchPodcastsPaginated_answered _ _ _ _ _ body).
  - by rewrite !(CreateArticle_answered _ _ _ body).
  - by rewrite !(CreatePodcast_answered _ _ _ body).
Qed.
End Kinds.

(** ** Lists of entities *)

Lemma decode_elements_all `{Decoder T} `{Zero T} (elements : list json)
    (items : list T) :
  Forall2 (fun j x => decode j (zero : T) = Continue x None) elements items ->
  decode_elements elements [] = Continue items None.
Proof.
  induction 1 as [|j x elements items Hx _ IH]; [done |].
  simpl. change (default zero (head [])) with (zero : T).
  by rewrite Hx, decoding_left_id, IH, decoding_left_id.
Qed.

Lemma decode_list_field `{Decoder T} `{Zero T} {S} (get : S -> option (list T))
    (set : option (list T) -> S -> S) (elements : list json) (items : list T)
    (v : S) :
  get v = None ->
  Forall2 (fun j x => decode j (zero : T) = Continue x None) elements items ->
  field get set (JArray elements) v = Continue (set (Some items) v) None.
Proof.
  intros Hget Hitems. unfold field, decode at 1, slice_Decoder.
  rewrite Hget. change (default [] None) with (@nil T).
  by rewrite (decode_elements_all _ _ Hitems), !decoding_left_id.
Qed.

Lemma decode_int_field {S} (get : S -> Z) (set : Z -> S -> S)
    (literal : string) (n : Z) (v : S) :
  ParseInt literal = Some n ->
  field get set (JNumber literal) v = Continue (set n v) None.
Proof.
  intros Hn. unfold field, decode, int_Decoder. by rewrite Hn, decoding_left_id.
Qed.

Section Lists.
Context `{TimeParser}.

(** X12.  The searches return the items of the list in the order of the
    body, as many as there are: when the body of the 200 response is the
    object with the list, and for the paginated searches with [total],
    [page] and [limit] as integers, and every element decodes into an
    entity, the result holds these entities in that order, with the three
    numbers of the body. *)
Theorem searches_return_the_items_in_order (c : Client) (w : World)
    (body : string) (elements : list json) :
  (forall items tag,
     parse_json body = Some (JObject [("articles", JArray elements)]) ->
     Forall2 (fun j a => decode j (zero : Article) = Continue a None)
             elements items ->
     answers w (request_of "GET" c ("/api/v1/articles/search/" +:+ tag) None)
             200 body ->
     (SearchArticles c tag w).1 = (Some items, None))
  /\ (forall items tag,
        parse_json body = Some (JObject [("podcasts", JArray elements)]) ->
        Forall2 (fun j p => decode j (zero : Podcast) = Continue p None)
                elements items ->
        answers w (request_of "GET" c ("/api/v1/podcasts/search/" +:+ tag) None)
                200 body ->
        (SearchPodcasts c tag w).1 = (Some items, None))
  /\ (forall items tag page limit total page' limit' n m k,
        parse_json body
        = Some (JObject [("articles", JArray elements);
                         ("total", JNumber total); ("page", JNumber page');
                         ("limit", JNumber limit')]) ->
        Forall2 (fun j a => decode j (zero : Article) = Continue a None)
                elements items ->
        ParseInt total = Some n -> ParseInt page' = Some m ->
        ParseInt limit' = Some k ->
        answers w (request_of "GET" c
                     ("/api/v1/articles/search/" +:+ tag +:+ "/paginated?page="
                      +:+ pretty page +:+ "&limit=" +:+ pretty limit) None)
                200 body ->
        (SearchArticlesPaginated c tag page limit w).1
        = (Some {| PaginatedArticlesResponse_Articles := Some items;
                   PaginatedArticlesResponse_Total := n;
                   PaginatedArticlesResponse_Page := m;
                   PaginatedArticlesResponse_Limit := k |}, None))
  /\ (forall items tag page limit total page' limit' n m k,
        parse_json body
        = Some (JObject [("podcasts", JArray elements);
                         ("total", JNumber total); ("page", JNumber page');
                         ("limit", JNumber limit')]) ->
        Forall2 (fun j p => decode j (zero : Podcast) = Continue p None)
                elements items ->
        ParseInt total = Some n -> ParseInt page' = Some m ->
        ParseInt limit' = Some k ->
        answers w (request_of "GET" c
                     ("/api/v1/podcasts/search/" +:+ tag +:+ "/paginated?page="
                      +:+ pretty page +:+ "&limit=" +:+ pretty limit) None)
                200 body ->
        (SearchPodcastsPaginated c tag page limit w).1
        = (Some {| PaginatedPodcastsResponse_Podcasts := Some items;
                   PaginatedPodcastsResponse_Total := n;
                   PaginatedPodcastsResponse_Page := m;
                   PaginatedPodcastsResponse_Limit := k |}, None)).
Proof.
  repeat match goal with |- _ /\ _ => split end.
  - intros items tag Hparse Hitems Hanswer.
    rewrite (SearchArticles_answered _ _ _ body) by done.
    unfold decoded, json_Unmarshal. rewrite Hparse.
    unfold decode, ArticlesResponse_Decoder, decode_struct.
    erewrite decode_members_cons;
      [| by apply (decode_list_field (T := Article))].
    reflexivity.
  - intros items tag Hparse Hitems Hanswer.
    rewrite (SearchPodcasts_answered _ _ _ body) by done.
    unfold decoded, json_Unmarshal. rewrite Hparse.
    unfold decode, PodcastsResponse_Decoder, decode_struct.
    erewrite decode_members_cons;
      [| by apply (decode_list_field (T := Podcast))].
    reflexivity.
  - intros items tag page limit total page' limit' n m k Hparse Hitems Hn Hm Hk
      Hanswer.
    rewrite (SearchArticlesPaginated_answered _ _ _ _ _ body) by done.
    unfold decoded, json_Unmarshal. rewrite Hparse.
    unfold decode, PaginatedArticlesResponse_Decoder, decode_struct.
    erewrite decode_members_cons;
      [| by apply (decode_list_field (T := Article))].
    erewrite decode_members_cons; [| by apply decode_int_field].
    erewrite decode_members_cons; [| by apply decode_int_field].
    erewrite decode_members_cons; [| by apply decode_int_field].
    reflexivity.
  - intros items tag page limit total page' limit' n m k Hparse Hitems Hn Hm Hk
      Hanswer.
    rewrite (SearchPodcastsPaginated_answered _ _ _ _ _ body) by done.
    unfold decoded, json_Unmarshal. rewrite Hparse.
    unfold decode, PaginatedPodcastsResponse_Decoder, decode_struct.
    erewrite decode_members_cons;
      [| by apply (decode_list_field (T := Podcast))].
    erewrite decode_members_cons; [| by apply decode_int_field].
    erewrite decode_members_cons; [| by apply decode_int_field].
    erewrite decode_members_cons; [| by apply decode_int_field].
    reflexivity.
Qed.
End Lists.

(** ** The health check *)

Section Health.
Context `{TimeParser}.

(** X14.  When the body of the 200 response is the object with the
    members [status], [database] and [timestamp], all strings,
    [GetHealth] returns the first two unquoted and the timestamp as the
    time its text denotes; when the text of the timestamp is not a
    timestamp, it returns no response and the error of the time parser
    under [error unmarshalling response data: ]. *)
Theorem GetHealth_reads_the_three_members (c : Client) (w : World)
    (body status database timestamp : string) :
  answers w (request_of "GET" c "/health" None) 200 body ->
  parse_json body
  = Some (JObject [("status", JString status); ("database", JString database);
                   ("timestamp", JString timestamp)]) ->
  (GetHealth c w).1
  = match parseStrictRFC3339 timestamp with
    | Some t =>
        (Some {| HealthResponse_Status := unquote status;
                 HealthResponse_Database := unquote database;
                 HealthResponse_Timestamp := t |}, None)
    | None =>
        (None, Some (wrapError "error unmarshalling response data: "
                               time_ParseError))
    end.
Proof.
  intros Hanswer Hparse.
  rewrite (GetHealth_answered _ _ body) by done.
  unfold decoded, json_Unmarshal. rewrite Hparse.
  unfold decode, HealthResponse_Decoder, decode_struct.
  do 2 (erewrite decode_members_cons; [| reflexivity]).
  unfold decode_members.
  change (find_field _ (unquote "timestamp")) with
    (Some (field HealthResponse_Timestamp (fun x r =>
       {| HealthResponse_Status := HealthResponse_Status r;
          HealthResponse_Database := HealthResponse_Database r;
          HealthResponse_Timestamp := x |}))).
  unfold field, decode, Time_Decoder.
  by destruct (parseStrictRFC3339 timestamp).
Qed.
End Health.

Lemma GetHealth_reads_the_three_members_witness :
  (GetHealth (H := example_times) example_client
     (mock 200 (dq "{'status':'ok','database':'up','timestamp':'2024-05-06T07:08:09Z'}"))).1
  = (Some {| HealthResponse_Status := "ok"; HealthResponse_Database := "up";
             HealthResponse_Timestamp :=
               {| unix := 1714979289; nanosecond := 0; offset := 0 |} |}, None)
  /\ (GetHealth (H := example_times) example_client
        (mock 200 (dq "{'status':'ok','database':'up','timestamp':'today'}"))).1
     = (None, Some (wrapError "error unmarshalling response data: "
                              time_ParseError)).
Proof.
  split.
  - apply (GetHealth_reads_the_three_members (H := example_times)
             example_client
             (mock 200 (dq "{'status':'ok','database':'up','timestamp':'2024-05-06T07:08:09Z'}"))
             (dq "{'status':'ok','database':'up','timestamp':'2024-05-06T07:08:09Z'}")
             "ok" "up" "2024-05-06T07:08:09Z");
      [split |]; reflexivity.
  - apply (GetHealth_reads_the_three_members (H := example_times)
             example_client
             (mock 200 (dq "{'status':'ok','database':'up','timestamp':'today'}"))
             (dq "{'status':'ok','database':'up','timestamp':'today'}")
             "ok" "up" "today"); [split |]; reflexivity.
Defined.

(** ** Members the struct has no field for, and members it cannot take *)

Lemma decoding_assoc {A B C} (m : decoding A) (f : A -> decoding B)
    (g : B -> decoding C) :
  ((m ≫= f) ≫= g) = (m ≫= fun x => f x ≫= g).
Proof.
  unfold mbind, decoding_bind. destruct m as [err|x saved]; [done |].
  destruct (f x) as [err|y later]; [done |].
  destruct (g y) as [err|z last]; [done |].
  by destruct saved, later.
Qed.

Lemma decoding_bind_ext {A B} (m : decoding A) (f g : A -> decoding B) :
  (forall x, f x = g x) -> (m ≫= f) = (m ≫= g).
Proof.
  intros Hfg. unfold mbind, decoding_bind. destruct m as [err|x saved]; [done |].
  by rewrite Hfg.
Qed.

Lemma decode_members_app {T} (fields : field_table T)
    (before after : list (string * json)) (v : T) :
  decode_members fields (before ++ after) v
  = (decode_members fields before v ≫= decode_members fields after).
Proof.
  revert v. induction before as [|[key j] before IH]; intros v.
  - exact (eq_sym (decoding_left_id v _)).
  - simpl. rewrite decoding_assoc. by apply decoding_bind_ext.
Qed.

Lemma failed_bind_l {A B} (m : decoding A) (f : A -> decoding B) :
  failed m -> failed (m ≫= f).
Proof.
  unfold mbind, decoding_bind. destruct m as [err|x [err|]]; [done | | done].
  intros _. by destruct (f x).
Qed.

Lemma failed_bind_r {A B} (m : decoding A) (f : A -> decoding B) :
  (forall x, failed (f x)) -> failed (m ≫= f).
Proof.
  intros Hf. unfold mbind, decoding_bind. destruct m as [err|x saved]; [done |].
  specialize (Hf x). destruct (f x) as [err|y [err|]]; [done | | done].
  by destruct saved.
Qed.

Lemma failed_member {T} (fields : field_table T)
    (before after : list (string * json)) (key : string) (j : json) (v : T) f :
  find_field fields (unquote key) = Some f ->
  (forall u, failed (f j u)) ->
  failed (decode_members fields (before ++ (key, j) :: after) v).
Proof.
  intros Hfind Hf. rewrite decode_members_app. apply failed_bind_r.
  intros u. simpl. rewrite Hfind. apply failed_bind_l, Hf.
Qed.

Lemma decoded_failed `{Decoder T} `{Zero T} {R} (extract : T -> option R)
    (body : string) (j : json) :
  parse_json body = Some j -> failed (decode j (zero : T)) ->
  exists err,
    decoded T extract body
    = (None, Some (wrapError "error unmarshalling response data: " err)).
Proof.
  intros Hparse Hfailed. unfold decoded, json_Unmarshal. rewrite Hparse.
  destruct (decode j zero) as [err|v [err|]]; [| | done]; by exists err.
Qed.

Lemma find_field_is_Some {T} (fields : field_table T) (key : string) :
  is_Some (find_field fields key) <-> foldName key ∈ foldName <$> fields.*1.
Proof.
  split.
  - intros [f Hfind]. apply find_field_elem in Hfind as (name & Hin & Hname).
    rewrite <- Hname. apply list_elem_of_fmap. exists name. split; [done |].
    apply list_elem_of_fmap. by exists (name, f).
  - intros Hin. apply list_elem_of_fmap in Hin as (name & Hname & Hin).
    apply list_elem_of_fmap in Hin as ([name' f] & -> & Hin).
    unfold find_field.
    destruct (list_find (fun f => f.1 = key) fields) as [[i g]|]; [done |].
    destruct (list_find_elem_of (fun f => foldName f.1 = foldName key) fields
                (name', f) Hin) as [[i g] ->]; [done | done].
Qed.

(** X15.  Members a struct has no field for are ignored: decoding an
    object into a struct gives what decoding the object without them
    gives, value and error.  A member stays exactly when its key, read as
    a string, is the name of a field up to case. *)
Theorem unknown_members_are_ignored {T} (fields : field_table T)
    (members : list (string * json)) (v : T) :
  decode_struct fields (JObject members) v
  = decode_struct fields (JObject (known_members fields members)) v
  /\ forall key j,
       (key, j) ∈ known_members fields members
       <-> (key, j) ∈ members
           /\ foldName (unquote key) ∈ foldName <$> fields.*1.
Proof.
  split.
  - unfold decode_struct, known_members. revert v.
    induction members as [|[key j] members IH]; intros v; [done |].
    destruct (find_field fields (unquote key)) as [f|] eqn:Hfind.
    + rewrite filter_cons_True by (simpl; by rewrite Hfind).
      simpl. rewrite Hfind. unfold mbind, decoding_bind.
      destruct (f j v) as [err|u saved]; [done |]. by rewrite IH.
    + rewrite filter_cons_False by (simpl; rewrite Hfind; by intros [? ?]).
      simpl. rewrite Hfind. etrans; [apply decoding_left_id | apply IH].
  - intros key j. unfold known_members.
    rewrite list_elem_of_filter. simpl. rewrite find_field_is_Some. tauto.
Qed.

Section Counts.
Context `{TimeParser}.

(** X16.  One count the decoder cannot take fails a paginated search.
    When the body of the 200 response is an object with a member [total],
    [page] or [limit] whose value does not decode into an integer, the
    search returns no response and an error under
    [error unmarshalling response data: ], whatever the other members
    are. *)
Theorem a_bad_count_fails_the_search (c : Client) (w : World) (body : string)
    (before after : list (string * json)) (key : string) (j : json) :
  key ∈ ["total"; "page"; "limit"] ->
  (forall n : Z, failed (decode j n)) ->
  parse_json body = Some (JObject (before ++ (key, j) :: after)) ->
  (forall tag page limit,
     answers w (request_of "GET" c
                  ("/api/v1/articles/search/" +:+ tag +:+ "/paginated?page="
                   +:+ pretty page +:+ "&limit=" +:+ pretty limit) None)
             200 body ->
     exists err,
       (SearchArticlesPaginated c tag page limit w).1
       = (None, Some (wrapError "error unmarshalling response data: " err)))
  /\ (forall tag page limit,
        answers w (request_of "GET" c
                     ("/api/v1/podcasts/search/" +:+ tag +:+ "/paginated?page="
                      +:+ pretty page +:+ "&limit=" +:+ pretty limit) None)
                200 body ->
        exists err,
          (SearchPodcastsPaginated c tag page limit w).1
          = (None, Some (wrapError "error unmarshalling response data: " err))).
Proof.
  intros Hkey Hj Hparse. split; intros tag page limit Hanswer.
  - rewrite (SearchArticlesPaginated_answered _ _ _ _ _ body) by done.
    eapply decoded_failed; [done |].
    unfold decode, PaginatedArticlesResponse_Decoder, decode_struct.
    repeat (apply elem_of_cons in Hkey as [-> | Hkey]);
      try (by apply elem_of_nil in Hkey);
      (eapply failed_member; [reflexivity |]);
      intros u; apply failed_bind_l, Hj.
  - rewrite (SearchPodcastsPaginated_answered _ _ _ _ _ body) by done.
    eapply decoded_failed; [done |].
    unfold decode, PaginatedPodcastsResponse_Decoder, decode_struct.
    repeat (apply elem_of_cons in Hkey as [-> | Hkey]);
      try (by apply elem_of_nil in Hkey);
      (eapply failed_member; [reflexivity |]);
      intros u; apply failed_bind_l, Hj.
Qed.
End Counts.

Lemma a_bad_count_fails_the_search_witness :
  exists err,
    (SearchPodcastsPaginated (H := example_times) example_client "go" 1 20
       (mock 200 (dq "{'podcasts':[],'total':1.5,'page':1,'limit':20}"))).1
    = (None, Some (wrapError "error unmarshalling response data: " err)).
Proof.
  refine (proj2 (a_bad_count_fails_the_search (H := example_times)
                   example_client
                   (mock 200 (dq "{'podcasts':[],'total':1.5,'page':1,'limit':20}"))
                   (dq "{'podcasts':[],'total':1.5,'page':1,'limit':20}")
                   [("podcasts", JArray [])]
                   [("page", JNumber "1"); ("limit", JNumber "20")]
                   "total" (JNumber "1.5") _ _ _) "go" 1 20 _).
  - by left.
  - intros n. exact I.
  - reflexivity.
  - split; reflexivity.
Defined.

(** ** Articles and podcasts are decoded alike *)

Lemma decoding_map_bind {A B A' B'} (f : A -> A') (g : B -> B')
    (m : decoding A) (k : A -> decoding B) (k' : A' -> decoding B') :
  (forall x, k' (f x) = decoding_map g (k x)) ->
  (decoding_map f m ≫= k') = decoding_map g (m ≫= k).
Proof.
  intros Hk. unfold mbind, decoding_bind. destruct m as [err|x saved]; [done |].
  simpl. rewrite Hk. by destruct (k x).
Qed.

Lemma field_as `{Decoder F} {S S'} (f : S -> S') (get : S -> F)
    (set : F -> S -> S) (get' : S' -> F) (set' : F -> S' -> S') (j : json)
    (v : S) :
  get' (f v) = get v -> (forall x, set' x (f v) = f (set x v)) ->
  field get' set' j (f v) = decoding_map f (field get set j v).
Proof.
  intros Hget Hset. unfold field. rewrite Hget.
  unfold mbind, decoding_bind. destruct (decode j (get v)); [done |].
  simpl. by rewrite Hset.
Qed.

Section Alike.
Context `{TimeParser}.

Lemma find_field_alike (key : string) :
  match find_field Article_fields key, find_field Podcast_fields key with
  | Some f, Some g =>
      forall j a, g j (Article_as_Podcast a) = decoding_map Article_as_Podcast (f j a)
  | None, None => True
  | _, _ => False
  end.
Proof.
  unfold find_field, Article_fields, Podcast_fields.
  cbn [list_find fst snd].
  repeat (case_decide; [simpl; intros; by apply field_as |]).
  simpl.
  repeat (case_decide; [simpl; intros; by apply field_as |]).
  done.
Qed.

(** X17.  Articles and podcasts are decoded alike: a JSON value decoded
    into a podcast that has the fields of an article gives the podcast
    that has the fields of the decoded article, with the same error, if
    any. *)
Theorem podcasts_are_decoded_as_articles (j : json) (a : Article) :
  decode j (Article_as_Podcast a)
  = decoding_map Article_as_Podcast (decode j a).
Proof.
  unfold decode, Podcast_Decoder, Article_Decoder, decode_struct.
  destruct j; try done. revert a.
  induction members as [|[key j] members IH]; intros a; [done |].
  simpl.
  pose proof (find_field_alike (unquote key)) as Halike.
  destruct (find_field Article_fields (unquote key)) as [f|],
    (find_field Podcast_fields (unquote key)) as [g|]; try done.
  - rewrite Halike. by apply decoding_map_bind.
  - by apply (decoding_map_bind Article_as_Podcast Article_as_Podcast
                (Continue a None)).
Qed.
End Alike.

(** ** What [json.Marshal] writes is a JSON text *)

Lemma DecodeRune_tails (c : ascii) (rest : string) (rr : Z) (size : nat) :
  0x80 <= byte c ->
  DecodeRune (String c rest) = (rr, size) ->
  tails (size - 1) rest.
Proof.
  intros Hhigh. unfold DecodeRune.
  destruct (Z.ltb_spec (byte c) 0x80) as [|_]; [lia |].
  destruct (first_byte (byte c)) as [[[n lo] hi]|] eqn:Hfirst;
    [| by intros [= <- <-]].
  apply first_byte_high in Hfirst as [Hlo [-> | [-> | ->]]].
  - destruct rest as [|c1 rest]; [by intros [= <- <-] |].
    destruct (between lo hi (byte c1)) eqn:H1; intros [= <- <-]; [| done].
    cbn [tails Nat.sub]. split; [| done]. by apply (between_high lo hi).
  - destruct rest as [|c1 [|c2 rest]]; try by intros [= <- <-].
    destruct (between lo hi (byte c1)) eqn:H1; simpl;
      [| by intros [= <- <-]].
    destruct (is_tail c2) eqn:H2; intros [= <- <-]; [| done].
    cbn [tails Nat.sub]. split; [by apply (between_high lo hi) |].
    split; [| done]. by apply (between_high 0x80 0xBF).
  - destruct rest as [|c1 [|c2 [|c3 rest]]]; try by intros [= <- <-].
    destruct (between lo hi (byte c1)) eqn:H1; simpl;
      [| by intros [= <- <-]].
    destruct (is_tail c2) eqn:H2; simpl; [| by intros [= <- <-]].
    destruct (is_tail c3) eqn:H3; intros [= <- <-]; [| done].
    cbn [tails Nat.sub]. split; [by apply (between_high lo hi) |].
    split; [by apply (between_high 0x80 0xBF) |].
    split; [| done]. by apply (between_high 0x80 0xBF).
Qed.

Lemma quote_from_ascii (c : ascii) (rest : string) :
  byte c < 0x80 ->
  quote_from 0 0 (String c rest)
  = quote_from 0 0 (String c EmptyString) +:+ quote_from 0 0 rest.
Proof.
  destruct c as [[] [] [] [] [] [] [] []]; intros Hc;
    try (by vm_compute in Hc); reflexivity.
Qed.

Lemma quoted_run_escape (c : ascii) (rest : string) :
  byte c < 0x80 ->
  quoted_run QPlain (quote_from 0 0 (String c EmptyString) +:+ rest)
  = quoted_run QPlain rest.
Proof.
  destruct c as [[] [] [] [] [] [] [] []]; intros Hc;
    try (by vm_compute in Hc); reflexivity.
Qed.

Lemma unquote_escape (c : ascii) (rest : string) :
  byte c < 0x80 ->
  unquoteBytes_from 0 (quote_from 0 0 (String c EmptyString) +:+ rest)
  = String c <$> unquoteBytes_from 0 rest.
Proof.
  destruct c as [[] [] [] [] [] [] [] []]; intros Hc;
    try (by vm_compute in Hc);
    cbn; by destruct (unquoteBytes_from 0 rest).
Qed.

Lemma tails_run (c : ascii) (rest : string) :
  0x80 <= byte c ->
  quoted_run QPlain (String c rest) = quoted_run QPlain rest.
Proof. intros Hc. cbn [quoted_run]. by rewrite quoted_step_high. Qed.

(** Whatever the string, its encoding is well quoted. *)
Lemma quote_from_well_quoted (s : string) :
  forall copy skip,
    tails copy s -> quoted_run QPlain (quote_from copy skip s) = Some QPlain.
Proof.
  induction s as [|c rest IH]; intros copy skip Htails; [done |].
  destruct copy as [|n].
  - destruct skip as [|m]; [| by apply IH].
    destruct (Z.ltb_spec (byte c) 0x80) as [Hlow|Hhigh].
    + rewrite quote_from_ascii, quoted_run_escape by done. by apply IH.
    + cbn [quote_from].
      destruct (Z.ltb_spec (byte c) 0x80) as [|_]; [lia |].
      destruct (DecodeRune (String c rest)) as [r size] eqn:Hrune.
      destruct ((r =? RuneError) && bool_decide (size = 1%nat)).
      { change (quoted_run QPlain (quote_from 0 0 rest) = Some QPlain).
        by apply IH. }
      destruct ((r =? 0x2028) || (r =? 0x2029)) eqn:Hsep.
      * assert (hex_digit (Z.land r 0xF) = "8"%char
                \/ hex_digit (Z.land r 0xF) = "9"%char) as Hdigit.
        { apply orb_prop in Hsep as [->%Z.eqb_eq | ->%Z.eqb_eq];
            [by left | by right]. }
        change (quoted_run (QUnicode 1)
                  (String (hex_digit (Z.land r 0xF))
                          (quote_from 0 (size - 1) rest)) = Some QPlain).
        cbn [quoted_run].
        destruct Hdigit as [-> | ->]; by apply IH.
      * rewrite tails_run by done. apply IH.
        by apply (DecodeRune_tails c rest r size).
  - destruct Htails as [Hc Htails]. cbn [quote_from].
    rewrite tails_run by done. by apply IH.
Qed.

Lemma lex_step_of (st st' : quoted_state) (c : ascii) (acc : list ascii) :
  quoted_step st c = Some st' ->
  lex_step (lex_of st acc) c = Some (lex_of st' (c :: acc), []).
Proof.
  destruct st as [| |missing]; simpl.
  - repeat case_match; by intros [= <-].
  - repeat case_match; by intros [= <-].
  - destruct (is_hex c); [| done].
    destruct missing as [|[|n]]; by intros [= <-].
Qed.

Lemma finish_app (acc : list ascii) (s : string) :
  finish (rev (list_ascii_of_string s) ++ acc) = finish acc +:+ s.
Proof.
  revert acc. induction s as [|c s IH]; intros acc.
  - by rewrite append_empty_r.
  - cbn [list_ascii_of_string rev]. rewrite <- app_assoc. 
    change ([c] ++ acc) with (c :: acc).
    rewrite IH, finish_cons, append_assoc. done.
Qed.

Lemma lex_quoted (s : string) :
  forall st acc rest,
    quoted_run st s = Some QPlain ->
    lex (lex_of st acc) (s +:+ String quote rest)
    = (fun more => TString (finish acc +:+ s) :: more) <$> lex LexIdle rest.
Proof.
  induction s as [|c s IH]; intros st acc rest.
  - intros [= ->]. rewrite append_empty_r.
    change (("" +:+ String quote rest)) with (String quote rest).
    cbn [lex lex_of lex_step]. rewrite bool_decide_eq_true_2 by done.
    cbn. by destruct (lex LexIdle rest).
  - cbn [quoted_run].
    destruct (quoted_step st c) as [st'|] eqn:Hstep; [| done].
    cbn [mbind option_bind]. intros Hrun.
    change (String c s +:+ String quote rest)
      with (String c (s +:+ String quote rest)).
    cbn [lex]. rewrite (lex_step_of _ _ _ acc Hstep).
    cbn [mbind option_bind]. rewrite (IH st' (c :: acc) rest Hrun).
    rewrite finish_cons, append_assoc.
    by destruct (lex LexIdle rest).
Qed.

Lemma lexes_string (s : string) :
  lexes (encode_string s) [TString (quote_from 0 0 s)].
Proof.
  intros rest. unfold encode_string.
  change (String quote (quote_from 0 0 s +:+ String quote "") +:+ rest)
    with (String quote ((quote_from 0 0 s +:+ String quote "") +:+ rest)).
  rewrite append_assoc.
  change (String quote "" +:+ rest) with (String quote rest).
  cbn [lex]. change (lex_step LexIdle quote) with (Some (LexString [], @nil token)).
  cbn [mbind option_bind].
  pose proof (lex_quoted _ QPlain [] rest (quote_from_well_quoted s 0 0 I))
    as Hlex.
  cbn [lex_of] in Hlex. rewrite Hlex.
  by destruct (lex LexIdle rest).
Qed.

Lemma lexes_nil : lexes "" [].
Proof.
  intros rest. change ("" +:+ rest) with rest. by destruct (lex LexIdle rest).
Qed.

Lemma lexes_app (a b : string) (ta tb : list token) :
  lexes a ta -> lexes b tb -> lexes (a +:+ b) (ta ++ tb).
Proof.
  intros Ha Hb rest. rewrite append_assoc, Ha, Hb.
  destruct (lex LexIdle rest); simpl; [| done]. by rewrite app_assoc.
Qed.

Lemma lexes_all (text : string) (toks : list token) :
  lexes text toks -> lex LexIdle text = Some toks.
Proof.
  intros Htext. specialize (Htext ""). rewrite append_empty_r in Htext.
  rewrite Htext. simpl. by rewrite app_nil_r.
Qed.

Lemma lexes_char (c : ascii) (tok : token) :
  lex_idle c = Some (LexIdle, [tok]) -> lexes (String c "") [tok].
Proof.
  intros Hc rest. change (String c "" +:+ rest) with (String c rest).
  cbn [lex lex_step]. rewrite Hc. cbn [mbind option_bind].
  by destruct (lex LexIdle rest).
Qed.

Lemma lexes_key (name : string) :
  well_quoted name -> lexes (encode_key name) [TString name; TColon].
Proof.
  intros Hname rest. unfold encode_key.
  change (String quote (name +:+ String quote ":") +:+ rest)
    with (String quote ((name +:+ String quote ":") +:+ rest)).
  rewrite append_assoc.
  change (String quote ":" +:+ rest) with (String quote (String ":" rest)).
  cbn [lex]. change (lex_step LexIdle quote) with (Some (LexString [], @nil token)).
  cbn [mbind option_bind].
  pose proof (lex_quoted _ QPlain [] (String ":" rest) Hname) as Hlex.
  cbn [lex_of] in Hlex. rewrite Hlex.
  cbn [lex lex_step]. change (lex_idle ":") with (Some (LexIdle, [TColon])).
  cbn [mbind option_bind]. by destruct (lex LexIdle rest).
Qed.

Ltac lexes_text :=
  first [by apply lexes_char | by apply lexes_key].

Lemma lexes_strings (items : list string) :
  lexes (join_comma (encode_string <$> items)) (string_tokens items).
Proof.
  induction items as [|x [|y items] IH].
  - apply lexes_nil.
  - apply lexes_string.
  - change (lexes (encode_string x +:+ "," +:+ join_comma (encode_string <$> y :: items))
                  ([TString (quote_from 0 0 x)] ++ [TComma]
                   ++ string_tokens (y :: items))).
    apply lexes_app; [apply lexes_string |].
    apply lexes_app; [lexes_text | apply IH].
Qed.

Lemma lex_encode_request (title description url : string)
    (tags : option (list string)) :
  lex LexIdle (encode_request title description url tags)
  = Some (request_tokens title description url tags).
Proof.
  apply lexes_all. unfold encode_request, request_tokens.
  change [TLBrace; TString "title"; TColon; TString (quote_from 0 0 title)]
    with ([TLBrace] ++ [TString "title"; TColon]
          ++ [TString (quote_from 0 0 title)]).
  rewrite <- !app_assoc.
  apply lexes_app; [lexes_text |].
  apply lexes_app; [lexes_text |].
  apply lexes_app; [apply lexes_string |].
  apply lexes_app.
  { case_bool_decide; [apply lexes_nil |].
    change [TComma; TString "description"; TColon;
            TString (quote_from 0 0 description)]
      with ([TComma] ++ [TString "description"; TColon]
            ++ [TString (quote_from 0 0 description)]).
    apply lexes_app; [lexes_text |].
    apply lexes_app; [lexes_text | apply lexes_string]. }
  change [TComma; TString "url"; TColon; TString (quote_from 0 0 url)]
    with ([TComma] ++ [TString "url"; TColon] ++ [TString (quote_from 0 0 url)]).
  rewrite <- !app_assoc.
  apply lexes_app; [lexes_text |].
  apply lexes_app; [lexes_text |].
  apply lexes_app; [apply lexes_string |].
  apply lexes_app; [| lexes_text].
  destruct tags as [[|x items]|]; [apply lexes_nil | | apply lexes_nil].
  change [TComma; TString "tags"; TColon; TLBracket]
    with ([TComma] ++ [TString "tags"; TColon] ++ [TLBracket]).
  rewrite <- !app_assoc.
  apply lexes_app; [lexes_text |].
  apply lexes_app; [lexes_text |].
  unfold encode_strings.
  apply lexes_app; [lexes_text |].
  apply lexes_app; [apply lexes_strings | lexes_text].
Qed.


Lemma parse_items (items : list string) :
  forall first x acc outer rest,
    parse_tokens (PValue first (FArray acc :: outer))
                 (string_tokens (x :: items) ++ TRBracket :: rest)
    = (st ← deliver (JArray (rev acc
                             ++ ((fun s => JString (quote_from 0 0 s))
                                   <$> x :: items))) outer;
       parse_tokens st rest).
Proof.
  induction items as [|y items IH]; intros first x acc outer rest.
  - reflexivity.
  - change (string_tokens (x :: y :: items) ++ TRBracket :: rest)
      with (TString (quote_from 0 0 x) :: TComma
            :: (string_tokens (y :: items) ++ TRBracket :: rest)).
    cbn [parse_tokens parse_step deliver mbind option_bind].
    rewrite IH. cbn [rev fmap list_fmap]. by rewrite <- app_assoc.
Qed.

Lemma open_shallow (f : frame) (stack : list frame) :
  Z.of_nat (List.length stack) < maxNestingDepth ->
  open f stack = Some (f :: stack).
Proof.
  intros Hshallow. unfold open.
  destruct (Z.leb_spec (Z.of_nat (List.length (f :: stack))) maxNestingDepth);
    [done | simpl in *; lia].
Qed.

Ltac parse_prefix :=
  repeat (cbn -[string_tokens open]; rewrite ?open_shallow by done).

Lemma parse_request_tokens (title description url : string)
    (tags : option (list string)) :
  parse_tokens (PValue false []) (request_tokens title description url tags)
  = Some (JObject (request_members title description url tags)).
Proof.
  unfold request_tokens, request_members.
  case_bool_decide; destruct tags as [[|x items]|]; try reflexivity.
  - parse_prefix. rewrite <- app_assoc.
    change ([TRBracket] ++ [TRBrace]) with [TRBracket; TRBrace].
    rewrite parse_items. reflexivity.
  - parse_prefix. rewrite <- app_assoc.
    change ([TRBracket] ++ [TRBrace]) with [TRBracket; TRBrace].
    rewrite parse_items. reflexivity.
Qed.

Lemma parse_encode_request (title description url : string)
    (tags : option (list string)) :
  parse_json (encode_request title description url tags)
  = Some (JObject (request_members title description url tags)).
Proof.
  unfold parse_json. rewrite lex_encode_request. apply parse_request_tokens.
Qed.

(** X18.  What [json.Marshal] writes for a [CreateArticleRequest] or a
    [CreatePodcastRequest] is a JSON text, for every title, description,
    URL and list of tags: an object with the members [title] and [url],
    with [description] between them when the description is not empty,
    and with [tags] after them when there is a tag.  Every string in it
    is one the decoder can unquote. *)
Theorem requests_are_written_as_objects (title description url : string)
    (tags : option (list string)) :
  json_Marshal {| CreateArticleRequest_Title := title;
                  CreateArticleRequest_Description := description;
                  CreateArticleRequest_URL := url;
                  CreateArticleRequest_Tags := tags |}
  = inl (encode_request title description url tags)
  /\ json_Marshal {| CreatePodcastRequest_Title := title;
                     CreatePodcastRequest_Description := description;
                     CreatePodcastRequest_URL := url;
                     CreatePodcastRequest_Tags := tags |}
     = inl (encode_request title description url tags)
  /\ parse_json (encode_request title description url tags)
     = Some (JObject (request_members title description url tags))
  /\ strings_ok (JObject (request_members title description url tags)).
Proof.
  split; [done | split; [done |]].
  pose proof (parse_encode_request title description url tags) as Hparse.
  split; [done |]. by apply (scanned_strings_unquote _ _ Hparse).
Qed.

(** ** Reading back what was written *)

Lemma unquote_quote_from (s : string) :
  ascii_only s -> unquoteBytes (quote_from 0 0 s) = Some s.
Proof.
  unfold ascii_only, unquoteBytes. induction s as [|c s IH]; [done |].
  cbn [forallb_string]. intros [Hc Hs]%andb_prop.
  apply Z.ltb_lt in Hc.
  rewrite quote_from_ascii, unquote_escape by done. by rewrite IH.
Qed.

Lemma unquote_quote (s : string) :
  ascii_only s -> unquote (quote_from 0 0 s) = s.
Proof. intros Hs. unfold unquote. by rewrite unquote_quote_from. Qed.

Lemma decode_string_member {T} (fields : field_table T) (key raw : string)
    (v : T) (get : T -> string) (set : string -> T -> T) :
  find_field fields (unquote key) = Some (field get set) ->
  match find_field fields (unquote key) with
  | Some f => f (JString raw) v
  | None => mret v
  end = Continue (set (unquote raw) v) None.
Proof. by intros ->. Qed.

Lemma decode_strings_member {T} (fields : field_table T) (key : string)
    (items : list string) (v : T) (get : T -> option (list string))
    (set : option (list string) -> T -> T) :
  find_field fields (unquote key) = Some (field get set) ->
  get v = None ->
  Forall ascii_only items ->
  match find_field fields (unquote key) with
  | Some f => f (JArray ((fun s => JString (quote_from 0 0 s)) <$> items)) v
  | None => mret v
  end = Continue (set (Some items) v) None.
Proof.
  intros -> Hget Hitems. apply decode_list_field; [done |].
  induction Hitems as [|x items Hx _ IH]; [by constructor |].
  constructor; [| done].
  unfold decode, string_Decoder. by rewrite unquote_quote.
Qed.

Section ReadBack.
Context `{TimeParser}.

(** X19.  What the create operations send reads back.  For strings of
    ASCII bytes, decoding the encoding of a request into an [Article] or
    a [Podcast] gives the title, the description and the URL of the
    request; the tags too, except that an empty list comes back as nil;
    the identifier is empty and the two times are zero. *)
Theorem requests_read_back_as_entities (title description url : string)
    (tags : option (list string)) :
  ascii_only title -> ascii_only description -> ascii_only url ->
  Forall ascii_only (default [] tags) ->
  json_Unmarshal (encode_request title description url tags) (zero : Article)
  = inl {| Article_ID := ""; Article_Title := title;
           Article_Description := description; Article_URL := url;
           Article_Tags := tags_read_back tags;
           Article_CreatedAt := zero; Article_UpdatedAt := zero |}
  /\ json_Unmarshal (encode_request title description url tags)
                    (zero : Podcast)
     = inl {| Podcast_ID := ""; Podcast_Title := title;
              Podcast_Description := description; Podcast_URL := url;
              Podcast_Tags := tags_read_back tags;
              Podcast_CreatedAt := zero; Podcast_UpdatedAt := zero |}.
Proof.
  intros Htitle Hdescription Hurl Htags.
  unfold json_Unmarshal. rewrite parse_encode_request.
  unfold decode, Article_Decoder, Podcast_Decoder, decode_struct,
    request_members.
  split.
  - case_bool_decide as Hempty; destruct tags as [[|x items]|];
      cbn [app];
      repeat (erewrite decode_members_cons;
              [| first [ by eapply decode_string_member
                       | by eapply decode_strings_member ]]);
      cbn [decode_members mret decoding_ret];
      rewrite ?unquote_quote by done; subst; reflexivity.
  - case_bool_decide as Hempty; destruct tags as [[|x items]|];
      cbn [app];
      repeat (erewrite decode_members_cons;
              [| first [ by eapply decode_string_member
                       | by eapply decode_strings_member ]]);
      cbn [decode_members mret decoding_ret];
      rewrite ?unquote_quote by done; subst; reflexivity.
Qed.
End ReadBack.

Lemma requests_read_back_as_entities_witness :
  @json_Unmarshal Article (@Article_Decoder example_times)
    (encode_request (dq "Q&A: 'Go' <1.22>") "" "https://x/?a=1&b=2"
                    (Some ["go"; "c\d"]))
    zero
  = inl {| Article_ID := ""; Article_Title := dq "Q&A: 'Go' <1.22>";
           Article_Description := ""; Article_URL := "https://x/?a=1&b=2";
           Article_Tags := Some ["go"; "c\d"];
           Article_CreatedAt := zero; Article_UpdatedAt := zero |}.
Proof.
  refine (proj1 (requests_read_back_as_entities (H := example_times)
                   (dq "Q&A: 'Go' <1.22>") "" "https://x/?a=1&b=2"
                   (Some ["go"; "c\d"]) _ _ _ _)); try reflexivity.
  by repeat constructor.
Defined.

(** ** The text of a status error *)

Lemma got_status (c : Client) (endpoint : string) (w : World) (code : Z)
    (body : string) :
  code ≠ 200 ->
  answers w (request_of http_MethodGet c endpoint None) code body ->
  (get c endpoint w).1 = (None, Some (status_error code body)).
Proof.
  intros Hcode Hanswer. rewrite (answered_get _ _ _ _ _ Hanswer).
  unfold outcome. simpl. by rewrite bool_decide_eq_false_2.
Qed.

Lemma posted_status `{Marshaler A} (c : Client) (endpoint : string)
    (payload : A) (jsonData : string) (w : World) (code : Z) (body : string) :
  code ≠ 200 ->
  json_Marshal payload = inl jsonData ->
  answers w (request_of http_MethodPost c endpoint (Some jsonData)) code body ->
  (post c endpoint payload w).1 = (None, Some (status_error code body)).
Proof.
  intros Hcode Hjson Hanswer. rewrite (answered_post _ _ _ _ _ _ _ Hjson Hanswer).
  unfold outcome. simpl. by rewrite bool_decide_eq_false_2.
Qed.

Lemma wrapper_failed `{Decoder T} `{Zero T} {R} (context : string)
    (extract : T -> option R) (lower : IO (option string * option error))
    (w : World) (err : error) :
  (lower w).1 = (None, Some err) ->
  (wrapper context extract lower w).1 = (None, Some (wrapError context err)).
Proof.
  unfold wrapper. destruct (lower w) as [[? ?] ?]. simpl. by intros [= -> ->].
Qed.

Section Messages.
Context `{TimeParser}.

(** X20.  For a response with a status other than 200 each operation
    returns a nil result and an error of the kind [UnexpectedStatus]
    whose text is the name of the operation followed by
    [unexpected status code: ], the code in decimal, [, body: ] and the
    body as it came. *)
Theorem status_errors_name_the_operation {L : Type} `{!Marshaler L}
    (c : Client) (w : World) (code : Z) (body : string)
    (describe : error -> string) :
  code ≠ 200 ->
  let fails {R} (r : option R * option error) (context : string) :=
    r.1 = None /\ status_failure describe context code body r.2 in
  (answers w (request_of "GET" c "/health" None) code body ->
   fails (GetHealth c w).1 "error retrieving health status: ")
  /\ (forall id,
        answers w (request_of "GET" c ("/api/v1/articles/" +:+ id) None)
                code body ->
        fails (GetArticle c id w).1 "error retrieving article: ")
  /\ (forall id,
        answers w (request_of "GET" c ("/api/v1/podcasts/" +:+ id) None)
                code body ->
        fails (GetPodcast c id w).1 "error retrieving podcast: ")
  /\ (forall tag,
        answers w (request_of "GET" c ("/api/v1/articles/search/" +:+ tag) None)
                code body ->
        fails (SearchArticles c tag w).1 "error searching articles: ")
  /\ (forall tag,
        answers w (request_of "GET" c ("/api/v1/podcasts/search/" +:+ tag) None)
                code body ->
        fails (SearchPodcasts c tag w).1 "error searching podcasts: ")
  /\ (forall tag page limit,
        answers w (request_of "GET" c
                     ("/api/v1/articles/search/" +:+ tag +:+ "/paginated?page="
                      +:+ pretty page +:+ "&limit=" +:+ pretty limit) None)
                code body ->
        fails (SearchArticlesPaginated c tag page limit w).1
              "error searching articles with pagination: ")
  /\ (forall tag page limit,
        answers w (request_of "GET" c
                     ("/api/v1/podcasts/search/" +:+ tag +:+ "/paginated?page="
                      +:+ pretty page +:+ "&limit=" +:+ pretty limit) None)
                code body ->
        fails (SearchPodcastsPaginated c tag page limit w).1
              "error searching podcasts with pagination: ")
  /\ (forall request,
        answers w (request_of "POST" c "/api/v1/articles"
                     (Some (encode_request
                              (CreateArticleRequest_Title request)
                              (CreateArticleRequest_Description request)
                              (CreateArticleRequest_URL request)
                              (CreateArticleRequest_Tags request)))) code body ->
        fails (CreateArticle c request w).1 "error creating article: ")
  /\ (forall request,
        answers w (request_of "POST" c "/api/v1/podcasts"
                     (Some (encode_request
                              (CreatePodcastRequest_Title request)
                              (CreatePodcastRequest_Description request)
                              (CreatePodcastRequest_URL request)
                              (CreatePodcastRequest_Tags request)))) code body ->
        fails (CreatePodcast c request w).1 "error creating podcast: ")
  /\ (forall (request : L) jsonData,
        json_Marshal request = inl jsonData ->
        (answers w (request_of "POST" c "/api/v1/articles" (Some jsonData))
                 code body ->
         status_failure describe "error creating article: " code body
                        (Legacy.CreateArticle c request w).1)
        /\ (answers w (request_of "POST" c "/api/v1/podcasts" (Some jsonData))
                    code body ->
            status_failure describe "error creating podcast: " code body
                           (Legacy.CreatePodcast c request w).1)).
Proof.
  intros Hcode fails.
  assert (forall context,
            status_failure describe context code body
              (Some (wrapError context (status_error code body)))) as Hstatus.
  { intros context. by eexists. }
  assert (forall {R} context (r : option R * option error),
            r = (None, Some (wrapError context (status_error code body))) ->
            fails R r context) as Hfails.
  { intros R context r ->. by split. }
  repeat match goal with |- _ /\ _ => split end; intros.
  - apply Hfails. rewrite GetHealth_wrapper.
    by apply wrapper_failed, got_status.
  - apply Hfails. rewrite GetArticle_wrapper.
    by apply wrapper_failed, got_status.
  - apply Hfails. rewrite GetPodcast_wrapper.
    by apply wrapper_failed, got_status.
  - apply Hfails. rewrite SearchArticles_wrapper.
    by apply wrapper_failed, got_status.
  - apply Hfails. rewrite SearchPodcasts_wrapper.
    by apply wrapper_failed, got_status.
  - apply Hfails. rewrite SearchArticlesPaginated_wrapper.
    by apply wrapper_failed, got_status.
  - apply Hfails. rewrite SearchPodcastsPaginated_wrapper.
    by apply wrapper_failed, got_status.
  - apply Hfails. rewrite CreateArticle_wrapper.
    by eapply wrapper_failed, posted_status.
  - apply Hfails. rewrite CreatePodcast_wrapper.
    by eapply wrapper_failed, posted_status.
  - match goal with
    | Hjson : json_Marshal _ = _ |- _ =>
        split; intros Hanswer;
        pose proof (posted_status _ _ _ _ _ _ _ Hcode Hjson Hanswer) as Hpost;
        unfold Legacy.CreateArticle, Legacy.CreatePodcast, mbind, IO_bind,
          createArticleEndpoint, createPodcastEndpoint;
        match type of Hpost with
        | (?p).1 = _ => destruct p as [[? ?] ?]
        end;
        simpl in Hpost; injection Hpost as -> ->; apply Hstatus
    end.
Qed.
End Messages.

Lemma status_errors_name_the_operation_witness :
  (GetArticle (H := example_times) example_client "42"
     (mock 404 "not found")).1.1 = None
  /\ status_failure (fun _ => "") "error retrieving article: " 404 "not found"
       (GetArticle (H := example_times) example_client "42"
          (mock 404 "not found")).1.2.
Proof.
  pose proof (status_errors_name_the_operation (H := example_times)
                (L := CreateArticleRequest) example_client
                (mock 404 "not found") 404 "not found" (fun _ => ""))
    as Hstatus.
  destruct Hstatus as (_ & Harticle & _); [lia |].
  apply (Harticle "42"). split; reflexivity.
Defined.

(** ** One bad item *)

Lemma failed_elements `{Decoder T} `{Zero T} (before after : list json)
    (j : json) (old : list T) :
  (forall v : T, failed (decode j v)) ->
  failed (decode_elements (before ++ j :: after) old).
Proof.
  intros Hj. revert old. induction before as [|e before IH]; intros old.
  - simpl. apply failed_bind_l, Hj.
  - simpl. apply failed_bind_r. intros x. apply failed_bind_l, IH.
Qed.

Lemma failed_list_field `{Decoder T} `{Zero T} {S}
    (get : S -> option (list T)) (set : option (list T) -> S -> S)
    (before after : list json) (j : json) (v : S) :
  (forall x : T, failed (decode j x)) ->
  failed (field get set (JArray (before ++ j :: after)) v).
Proof.
  intros Hj. unfold field, decode at 1, slice_Decoder.
  by apply failed_bind_l, failed_bind_l, failed_elements.
Qed.

Section Items.
Context `{TimeParser}.

(** X21.  One item the decoder cannot take fails a search.  When the
    list in the body of the 200 response has an element that does not
    decode into an entity, [SearchArticles], [SearchPodcasts] and the two
    paginated searches return no items at all and an error under
    [error unmarshalling response data: ]. *)
Theorem one_bad_item_fails_the_search (c : Client) (w : World) (body : string)
    (before after : list json) (j : json)
    (members members' : list (string * json)) :
  (forall tag,
     (forall a : Article, failed (decode j a)) ->
     parse_json body
     = Some (JObject (members ++ ("articles", JArray (before ++ j :: after))
                      :: members')) ->
     answers w (request_of "GET" c ("/api/v1/articles/search/" +:+ tag) None)
             200 body ->
     exists err,
       (SearchArticles c tag w).1
       = (None, Some (wrapError "error unmarshalling response data: " err)))
  /\ (forall tag,
        (forall p : Podcast, failed (decode j p)) ->
        parse_json body
        = Some (JObject (members ++ ("podcasts", JArray (before ++ j :: after))
                         :: members')) ->
        answers w (request_of "GET" c ("/api/v1/podcasts/search/" +:+ tag) None)
                200 body ->
        exists err,
          (SearchPodcasts c tag w).1
          = (None, Some (wrapError "error unmarshalling response data: " err)))
  /\ (forall tag page limit,
        (forall a : Article, failed (decode j a)) ->
        parse_json body
        = Some (JObject (members ++ ("articles", JArray (before ++ j :: after))
                         :: members')) ->
        answers w (request_of "GET" c
                     ("/api/v1/articles/search/" +:+ tag +:+ "/paginated?page="
                      +:+ pretty page +:+ "&limit=" +:+ pretty limit) None)
                200 body ->
        exists err,
          (SearchArticlesPaginated c tag page limit w).1
          = (None, Some (wrapError "error unmarshalling response data: " err)))
  /\ (forall tag page limit,
        (forall p : Podcast, failed (decode j p)) ->
        parse_json body
        = Some (JObject (members ++ ("podcasts", JArray (before ++ j :: after))
                         :: members')) ->
        answers w (request_of "GET" c
                     ("/api/v1/podcasts/search/" +:+ tag +:+ "/paginated?page="
                      +:+ pretty page +:+ "&limit=" +:+ pretty limit) None)
                200 body ->
        exists err,
          (SearchPodcastsPaginated c tag page limit w).1
          = (None, Some (wrapError "error unmarshalling response data: " err))).
Proof.
  repeat match goal with |- _ /\ _ => split end; intros;
    [ rewrite (SearchArticles_answered _ _ _ body) by done
    | rewrite (SearchPodcasts_answered _ _ _ body) by done
    | rewrite (SearchArticlesPaginated_answered _ _ _ _ _ body) by done
    | rewrite (SearchPodcastsPaginated_answered _ _ _ _ _ body) by done ];
    (eapply decoded_failed; [done |]);
    (eapply failed_member; [reflexivity |]);
    intros u; by apply failed_list_field.
Qed.
End Items.

Lemma one_bad_item_fails_the_search_witness :
  exists err,
    (SearchArticles (H := example_times) example_client "go"
       (mock 200 (dq "{'articles':[{'id':'1'},{'id':2},{'id':'3'}]}"))).1
    = (None, Some (wrapError "error unmarshalling response data: " err)).
Proof.
  refine (proj1 (one_bad_item_fails_the_search (H := example_times)
                   example_client
                   (mock 200 (dq "{'articles':[{'id':'1'},{'id':2},{'id':'3'}]}"))
                   (dq "{'articles':[{'id':'1'},{'id':2},{'id':'3'}]}")
                   [JObject [("id", JString "1")]]
                   [JObject [("id", JString "3")]]
                   (JObject [("id", JNumber "2")]) [] []) "go" _ _ _).
  - intros a. exact I.
  - reflexivity.
  - split; reflexivity.
Defined.

(** ** Keys are matched without regard to case *)

Lemma find_field_single {T} (name : string) (f : json -> T -> decoding T)
    (key : string) :
  find_field [(name, f)] key
  = if bool_decide (foldName name = foldName key) then Some f else None.
Proof.
  unfold find_field. cbn [list_find fst snd].
  destruct (decide (name = key)) as [-> | Hne].
  - by rewrite bool_decide_eq_true_2.
  - simpl. case_bool_decide; by case_decide.
Qed.

Lemma single_field_folds {T} (name : string) (f : json -> T -> decoding T)
    (members : list (string * json)) (v : T) :
  foldName (unquote name) = foldName name ->
  decode_struct [(name, f)] (JObject members) v
  = decode_struct [(name, f)] (JObject (canonical_key name <$> members)) v.
Proof.
  intros Hname. unfold decode_struct. revert v.
  induction members as [|[key j] members IH]; intros v; [done |].
  cbn [fmap list_fmap decode_members]. unfold canonical_key at 1. simpl.
  case_bool_decide as Hkey.
  - simpl. rewrite !find_field_single.
    rewrite !bool_decide_eq_true_2 by congruence.
    by apply decoding_bind_ext.
  - simpl. by apply decoding_bind_ext.
Qed.

Section Folding.
Context `{TimeParser}.

(** X22.  The key of an envelope is matched without regard to case: an
    object decodes into [ArticleResponse], [PodcastResponse],
    [ArticlesResponse] and [PodcastsResponse] as the object does in which
    every key that is [article], [podcast], [articles] or [podcasts] up
    to case is written that way. *)
Theorem envelope_keys_are_matched_by_folding
    (members : list (string * json)) :
  (forall v : ArticleResponse,
     decode (JObject members) v
     = decode (JObject (canonical_key "article" <$> members)) v)
  /\ (forall v : PodcastResponse,
        decode (JObject members) v
        = decode (JObject (canonical_key "podcast" <$> members)) v)
  /\ (forall v : ArticlesResponse,
        decode (JObject members) v
        = decode (JObject (canonical_key "articles" <$> members)) v)
  /\ (forall v : PodcastsResponse,
        decode (JObject members) v
        = decode (JObject (canonical_key "podcasts" <$> members)) v).
Proof.
  repeat match goal with |- _ /\ _ => split end; intros v;
    by apply single_field_folds.
Qed.
End Folding.
